(** * The consensus set database of Sia

    A shallow embedding of [modules/consensus/database.go]: the helper
    functions through which the consensus set reads and writes its bolt
    transaction, and the initialisation of that database.

    Layout of the development:
    - Go's fixed-width integers, written as [Z] with the wrap-around explicit;
    - [encoding]: the binary encoding used for keys and records;
    - [types]: the records of package [types] that the database stores;
    - [bolt]: the key-value engine, as a finite map of buckets;
    - the database functions themselves, in a state-and-panic monad;
    - the properties proved about them. *)

From Stdlib Require Import ZArith List Lia Strings.String Strings.Byte.
From coqutil Require Import Byte Word.LittleEndianList.
From stdpp Require Import base option countable strings gmap list sorting.

Local Open Scope Z_scope.

(** ** Bytes *)

Abbreviation bytes := (list byte).

#[global] Instance byte_eq_dec : EqDecision byte := Byte.byte_eq_dec.
#[global] Instance byte_countable : Countable byte :=
  inj_countable Byte.to_N Byte.of_N Byte.of_to_N.

(** A Go slice expression [b[lo:hi]] on a slice whose capacity is its length:
    out of range is a run-time panic, here [None]. *)
Definition slice (lo hi : nat) (b : bytes) : option bytes :=
  if decide (lo ≤ hi ≤ length b)%nat then Some (take (hi - lo) (drop lo b)) else None.

(** ** Fixed-width integers *)

(** Conversion to [uint64]: the value modulo 2^64. *)
Definition uint64 (z : Z) : Z := z mod 2 ^ 64.

(** Conversion to [int64] (and to [int] on the 64-bit platforms the database
    runs on): two's complement. *)
Definition int64 (z : Z) : Z := (z + 2 ^ 63) mod 2 ^ 64 - 2 ^ 63.

(** ** Package encoding *)

Module encoding.

(** Modelled from the spec: [encoding.EncUint64], absent from the sources.
    The spec asks for a fixed-width deterministic encoding of integers; this
    is the eight-byte little-endian one. *)
Definition EncUint64 (i : Z) : bytes := le_split 8 i.

(** Modelled from the spec: [encoding.DecUint64], absent from the sources;
    the inverse of [EncUint64] on eight bytes. *)
Definition DecUint64 (b : bytes) : Z := le_combine (take 8 b).

(** Modelled from the spec: [encoding.EncInt64], absent from the sources;
    a signed integer is written as its two's complement. *)
Definition EncInt64 (i : Z) : bytes := EncUint64 (uint64 i).

(** Modelled from the spec: [encoding.DecInt64], absent from the sources. *)
Definition DecInt64 (b : bytes) : Z := int64 (DecUint64 b).

#[local] Set Warnings "-register-all".

(** Modelled from the spec: what the encoder sees of a Go value through
    reflection. The encoder of package [encoding] is absent from the sources;
    the spec describes it as deterministic, each field either fixed-width or
    length-prefixed. *)
Inductive value : Type :=
| Bool (b : bool)
| Int (i : Z)
| Uint (u : Z)
| ByteArray (b : bytes)
| ByteSlice (b : bytes)
| Array (vs : list value)
| Slice (vs : list value)
| Struct (fields : list value)
| Marshaler (b : bytes).

(** Modelled from the spec: [encoding.Marshal], absent from the sources.
    Integers take eight bytes, arrays and structs are the concatenation of
    their elements, slices and the output of a type's own [MarshalSia] carry
    an eight-byte length prefix. *)
Fixpoint Marshal (v : value) : bytes :=
  match v with
  | Bool b => [if b then x01 else x00]
  | Int i => EncInt64 i
  | Uint u => EncUint64 u
  | ByteArray b => b
  | ByteSlice b => EncUint64 (Z.of_nat (length b)) ++ b
  | Array vs => List.concat (List.map Marshal vs)
  | Slice vs => EncUint64 (Z.of_nat (length vs)) ++ List.concat (List.map Marshal vs)
  | Struct fields => List.concat (List.map Marshal fields)
  | Marshaler b => EncUint64 (Z.of_nat (length b)) ++ b
  end.

(** Modelled from the spec: the decoder of package [encoding], absent from
    the sources. Decoding is directed by the type of the destination, so a
    decoder is a parser of that type: it consumes a prefix of the input and
    fails ([None]) when the input is too short. *)
Definition Decoder (A : Type) : Type := bytes → option (A * bytes).

(** Modelled from the spec: the decoder's [readN]. *)
Definition readN (n : nat) : Decoder bytes := λ b,
  if decide (n ≤ length b)%nat then Some (take n b, drop n b) else None.

(** Modelled from the spec: decoding into a [uint64]. *)
Definition decodeUint : Decoder Z := λ b,
  '(w, rest) ← readN 8 b; Some (DecUint64 w, rest).

(** Modelled from the spec: decoding into an [int]. *)
Definition decodeInt : Decoder Z := λ b,
  '(w, rest) ← readN 8 b; Some (DecInt64 w, rest).

(** Modelled from the spec: decoding into a byte array [[n]byte]. *)
Definition decodeByteArray (n : nat) : Decoder bytes := readN n.

(** Modelled from the spec: decoding a length-prefixed byte string (a byte
    slice, or the input handed to a type's own [UnmarshalSia]). *)
Definition decodePrefixed : Decoder bytes := λ b,
  '(n, rest) ← decodeUint b; readN (Z.to_nat n) rest.

(** Modelled from the spec: decoding [n] elements one after the other, as
    into an array or into the body of a slice. *)
Fixpoint decodeN {A} (d : Decoder A) (n : nat) : Decoder (list A) := λ b,
  match n with
  | O => Some ([], b)
  | S n' =>
      '(x, rest) ← d b;
      '(xs, rest') ← decodeN d n' rest;
      Some (x :: xs, rest')
  end.

(** Modelled from the spec: decoding into a slice, the element count in an
    eight-byte prefix. *)
Definition decodeSlice {A} (d : Decoder A) : Decoder (list A) := λ b,
  '(n, rest) ← decodeUint b; decodeN d (Z.to_nat n) rest.

(** Modelled from the spec: [encoding.Unmarshal], absent from the sources.
    [None] stands for the decoding error; input left over is ignored. *)
Definition Unmarshal {A} (d : Decoder A) (b : bytes) : option A := fst <$> d b.

End encoding.

(** ** Package types *)

Module types.
Import encoding.

(** Modelled from the spec: [types.BlockHeight], a [uint64]. *)
Abbreviation BlockHeight := Z.

(** Modelled from the spec: the 32-byte hashes [types.BlockID],
    [types.SiacoinOutputID], [types.FileContractID], [types.SiafundOutputID]
    and [types.UnlockHash]. The length is a well-formedness condition. *)
Abbreviation Hash := bytes.

(** Modelled from the spec: the length of a hash. *)
Definition HashSize : nat := 32.

(** Modelled from the spec: the zero value of a hash, as in
    [types.UnlockHash{}]. *)
Definition ZeroHash : Hash := repeat x00 HashSize.

(** Modelled from the spec: [types.Currency], an arbitrary-precision
    non-negative integer. *)
Abbreviation Currency := N.

(** Modelled from the spec: [types.NewCurrency64]. *)
Definition NewCurrency64 (x : Z) : Currency := Z.to_N (uint64 x).

(** Modelled from the spec: the magnitude of a currency as big-endian bytes
    without leading zeros ([big.Int.Bytes]); zero has no bytes. *)
Definition Currency_Bytes (c : Currency) : bytes :=
  rev (le_split (N.to_nat ((N.size c + 7) / 8)) (Z.of_N c)).

(** Modelled from the spec: the inverse of [Currency_Bytes]
    ([big.Int.SetBytes]). *)
Definition Currency_SetBytes (b : bytes) : Currency := Z.to_N (le_combine (rev b)).

(** Modelled from the spec: how the encoder sees a [types.Currency], which
    brings its own [MarshalSia]. *)
Definition reflect_Currency (c : Currency) : value := Marshaler (Currency_Bytes c).

(** Modelled from the spec: decoding into a [types.Currency]. *)
Definition decodeCurrency : Decoder Currency := λ b,
  '(m, rest) ← decodePrefixed b; Some (Currency_SetBytes m, rest).

(** Modelled from the spec: [types.SiacoinOutput], a value and the hash of
    the conditions under which it may be spent. *)
Record SiacoinOutput : Type := mkSiacoinOutput {
  sco_Value : Currency;
  sco_UnlockHash : Hash;
}.

(** Modelled from the spec: how the encoder sees a [types.SiacoinOutput]. *)
Definition reflect_SiacoinOutput (sco : SiacoinOutput) : value :=
  Struct [reflect_Currency (sco_Value sco); ByteArray (sco_UnlockHash sco)].

(** Modelled from the spec: decoding into a [types.SiacoinOutput]. *)
Definition decodeSiacoinOutput : Decoder SiacoinOutput := λ b,
  '(v, rest) ← decodeCurrency b;
  '(uh, rest) ← decodeByteArray HashSize rest;
  Some (mkSiacoinOutput v uh, rest).

(** Modelled from the spec: [types.SiafundOutput]. *)
Record SiafundOutput : Type := mkSiafundOutput {
  sfo_Value : Currency;
  sfo_UnlockHash : Hash;
  sfo_ClaimStart : Currency;
}.

(** Modelled from the spec: how the encoder sees a [types.SiafundOutput]. *)
Definition reflect_SiafundOutput (sfo : SiafundOutput) : value :=
  Struct [reflect_Currency (sfo_Value sfo); ByteArray (sfo_UnlockHash sfo);
          reflect_Currency (sfo_ClaimStart sfo)].

(** Modelled from the spec: decoding into a [types.SiafundOutput]. *)
Definition decodeSiafundOutput : Decoder SiafundOutput := λ b,
  '(v, rest) ← decodeCurrency b;
  '(uh, rest) ← decodeByteArray HashSize rest;
  '(cs, rest) ← decodeCurrency rest;
  Some (mkSiafundOutput v uh cs, rest).

(** Modelled from the spec: [types.FileContract]. The window end is the
    fourth field, after an integer, a hash and an integer. *)
Record FileContract : Type := mkFileContract {
  FileSize : Z;
  FileMerkleRoot : Hash;
  WindowStart : BlockHeight;
  WindowEnd : BlockHeight;
  Payout : Currency;
  ValidProofOutputs : list SiacoinOutput;
  MissedProofOutputs : list SiacoinOutput;
  fc_UnlockHash : Hash;
  RevisionNumber : Z;
}.

(** Modelled from the spec: how the encoder sees a [types.FileContract]. *)
Definition reflect_FileContract (fc : FileContract) : value :=
  Struct [Uint (FileSize fc); ByteArray (FileMerkleRoot fc);
          Uint (WindowStart fc); Uint (WindowEnd fc);
          reflect_Currency (Payout fc);
          Slice (List.map reflect_SiacoinOutput (ValidProofOutputs fc));
          Slice (List.map reflect_SiacoinOutput (MissedProofOutputs fc));
          ByteArray (fc_UnlockHash fc); Uint (RevisionNumber fc)].

(** Modelled from the spec: decoding into a [types.FileContract], field by
    field in the order of the encoding. *)
Definition decodeFileContract : Decoder FileContract := λ b,
  '(size, rest) ← decodeUint b;
  '(root, rest) ← decodeByteArray HashSize rest;
  '(wstart, rest) ← decodeUint rest;
  '(wend, rest) ← decodeUint rest;
  '(payout, rest) ← decodeCurrency rest;
  '(valid, rest) ← decodeSlice decodeSiacoinOutput rest;
  '(missed, rest) ← decodeSlice decodeSiacoinOutput rest;
  '(uh, rest) ← decodeByteArray HashSize rest;
  '(revision, rest) ← decodeUint rest;
  Some (mkFileContract size root wstart wend payout valid missed uh revision, rest).

End types.

(** ** Package bolt: the key-value engine

    The engine is an external collaborator of the database. The model keeps
    what the database relies on: a transaction is a finite map from bucket
    names to buckets, a bucket a finite map from keys to values, and the
    operations report the errors bolt reports on a writable transaction
    (the size limits on keys and values are left out). Only top-level
    buckets occur. *)

Module bolt.

Abbreviation Bucket := (gmap bytes bytes).
Abbreviation Tx := (gmap bytes (gmap bytes bytes)).

Inductive error : Type :=
| ErrBucketNotFound
| ErrBucketExists
| ErrBucketNameRequired
| ErrKeyRequired.

#[global] Instance error_eq_dec : EqDecision error.
Proof. solve_decision. Defined.

(** [Bucket.Get]: [None] is Go's nil slice, returned when the key is absent.
    A key stored with an empty value is present, and reads as [Some []]. *)
Definition Get (key : bytes) (b : Bucket) : option bytes := b !! key.

(** [Bucket.Put]: writes or overwrites. *)
Definition Put (key value : bytes) (b : Bucket) : option error * Bucket :=
  if decide (key = []) then (Some ErrKeyRequired, b)
  else (None, <[key := value]> b).

(** [Bucket.Delete]: deleting an absent key is not an error. *)
Definition Delete (key : bytes) (b : Bucket) : option error * Bucket :=
  (None, delete key b).

(** [Tx.CreateBucket]. *)
Definition CreateBucket (name : bytes) (tx : Tx) : option error * Tx :=
  if decide (name = []) then (Some ErrBucketNameRequired, tx)
  else match tx !! name with
       | Some _ => (Some ErrBucketExists, tx)
       | None => (None, <[name := ∅]> tx)
       end.

(** [Tx.CreateBucketIfNotExists]. *)
Definition CreateBucketIfNotExists (name : bytes) (tx : Tx) : option error * Tx :=
  match CreateBucket name tx with
  | (Some ErrBucketExists, _) => (None, tx)
  | r => r
  end.

(** [Tx.DeleteBucket]: removes the bucket together with whatever it holds. *)
Definition DeleteBucket (name : bytes) (tx : Tx) : option error * Tx :=
  match tx !! name with
  | None => (Some ErrBucketNotFound, tx)
  | Some _ => (None, delete name tx)
  end.

(** Keys are iterated in byte order. *)
Fixpoint bytes_leb (a b : bytes) : bool :=
  match a, b with
  | [], _ => true
  | _ :: _, [] => false
  | x :: a', y :: b' =>
      if byte.unsigned x <? byte.unsigned y then true
      else if byte.unsigned y <? byte.unsigned x then false
      else bytes_leb a' b'
  end.

Definition entry_le (x y : bytes * bytes) : Prop := bytes_leb x.1 y.1 = true.

#[global] Instance entry_le_dec : RelDecision entry_le.
Proof. intros x y. unfold entry_le. apply _. Defined.

(** The entries [Bucket.ForEach] visits, in the order it visits them. *)
Definition entries (b : Bucket) : list (bytes * bytes) :=
  merge_sort entry_le (map_to_list b).

End bolt.

(** ** Package consensus: errors, panics and the transaction monad *)

Import encoding types.

(** Go's [error] values that reach the database code: the package's own,
    those of bolt, and the one [encoding.Unmarshal] returns. *)
Inductive error : Type :=
| errRepeatInsert
| errNilBucket
| errNilItem
| errDBInconsistent
| errNonEmptyBucket
| boltError (e : bolt.error)
| decodeError.

#[global] Instance error_eq_dec : EqDecision error.
Proof. solve_decision. Defined.

(** What a [panic] carries: the argument the code passes, or one of the two
    run-time errors the code can raise (a method called on a nil bucket, a
    slice expression out of range). *)
Inductive panic_value : Type :=
| panic_error (e : error)
| panic_string (s : string)
| panic_int (i : Z)
| nil_dereference
| slice_out_of_range.

#[global] Instance panic_value_eq_dec : EqDecision panic_value.
Proof. solve_decision. Defined.

(** A line written by [fmt.Println]: its message and the id printed after. *)
Abbreviation Line := (string * bytes)%type.

(** The world a database function runs in: the open transaction [tx] and the
    standard output. *)
Record World : Type := mkWorld {
  tx : bolt.Tx;
  stdout : list Line;
}.

#[global] Instance World_eq_dec : EqDecision World.
Proof. solve_decision. Defined.

Inductive outcome (A : Type) : Type :=
| Ok (a : A)
| Panic (p : panic_value).
Arguments Ok {A} a.
Arguments Panic {A} p.

#[global] Instance outcome_eq_dec {A} `{EqDecision A} : EqDecision (outcome A).
Proof. solve_decision. Defined.

(** A database function: it reads and writes the world, and either returns
    or panics. The world at the moment of the panic is kept. *)
Definition M (A : Type) : Type := World → outcome A * World.

Definition ret {A} (a : A) : M A := λ w, (Ok a, w).

Definition bind {A B} (m : M A) (k : A → M B) : M B := λ w,
  match m w with
  | (Ok a, w') => k a w'
  | (Panic p, w') => (Panic p, w')
  end.

Definition panic {A} (p : panic_value) : M A := λ w, (Panic p, w).

Notation "x <- m ;; k" := (bind m (λ x, k))
  (at level 20, m at level 99, k at level 200, only parsing).

(** [if c { m }]. *)
Definition when (c : bool) (m : M unit) : M unit := if c then m else ret tt.

(** Whether a Go slice is non-nil. *)
Definition not_nil (v : option bytes) : bool := bool_decide (is_Some v).

(** A Go slice as the bytes a reader finds in it: nil reads as empty. *)
Definition of_slice (v : option bytes) : bytes := default [] v.

(** [err := encoding.Unmarshal(v, &x)] where [x] holds [zero] before the
    call: the pair of [x] afterwards and [err]. *)
Definition Unmarshal_into {A} (d : Decoder A) (zero : A) (v : option bytes)
  : A * option error :=
  match Unmarshal d (of_slice v) with
  | Some a => (a, None)
  | None => (zero, Some decodeError)
  end.

(** *** The transaction's operations

    A [*bolt.Bucket] is modelled by the name of the bucket it points to,
    [None] being the nil pointer. Calling a method on nil panics. A handle is
    never used after its bucket is deleted; the model treats that as nil. *)

Abbreviation BucketRef := (option bytes).

Definition tx_Bucket (name : bytes) : M BucketRef := λ w,
  (Ok (match tx w !! name with Some _ => Some name | None => None end), w).

Definition with_bucket {A} (b : BucketRef) (k : bytes → bolt.Bucket → M A) : M A :=
  match b with
  | None => panic nil_dereference
  | Some name => λ w,
      match tx w !! name with
      | Some bk => k name bk w
      | None => (Panic nil_dereference, w)
      end
  end.

Definition lift_bolt (e : option bolt.error) : option error := boltError <$> e.

Definition b_Get (b : BucketRef) (key : bytes) : M (option bytes) :=
  with_bucket b (λ _ bk, ret (bolt.Get key bk)).

Definition b_Put (b : BucketRef) (key value : bytes) : M (option error) :=
  with_bucket b (λ name bk w,
    let '(err, bk') := bolt.Put key value bk in
    (Ok (lift_bolt err), mkWorld (<[name := bk']> (tx w)) (stdout w))).

Definition b_Delete (b : BucketRef) (key : bytes) : M (option error) :=
  with_bucket b (λ name bk w,
    let '(err, bk') := bolt.Delete key bk in
    (Ok (lift_bolt err), mkWorld (<[name := bk']> (tx w)) (stdout w))).

Definition tx_CreateBucket (name : bytes) : M (BucketRef * option error) := λ w,
  match bolt.CreateBucket name (tx w) with
  | (None, tx') => (Ok (Some name, None), mkWorld tx' (stdout w))
  | (Some e, _) => (Ok (None, Some (boltError e)), w)
  end.

Definition tx_CreateBucketIfNotExists (name : bytes) : M (BucketRef * option error) := λ w,
  match bolt.CreateBucketIfNotExists name (tx w) with
  | (None, tx') => (Ok (Some name, None), mkWorld tx' (stdout w))
  | (Some e, _) => (Ok (None, Some (boltError e)), w)
  end.

Definition tx_DeleteBucket (name : bytes) : M (option error) := λ w,
  let '(err, tx') := bolt.DeleteBucket name (tx w) in
  (Ok (lift_bolt err), mkWorld tx' (stdout w)).

(** [Bucket.ForEach]: stops at the first error [fn] returns. *)
Fixpoint forEach_entries (fn : bytes → bytes → M (option error))
    (kvs : list (bytes * bytes)) : M (option error) :=
  match kvs with
  | [] => ret None
  | (k, v) :: rest =>
      err <- fn k v ;;
      match err with
      | Some e => ret (Some e)
      | None => forEach_entries fn rest
      end
  end.

Definition b_ForEach (b : BucketRef) (fn : bytes → bytes → M (option error))
  : M (option error) :=
  with_bucket b (λ _ bk, forEach_entries fn (bolt.entries bk)).

Definition Println (msg : string) (id : bytes) : M unit := λ w,
  (Ok tt, mkWorld (tx w) (stdout w ++ [(msg, id)])).

(** ** Package modules *)

Module modules.

(** Modelled from the spec: [modules.DiffDirection], absent from the
    sources; a diff is either applied or reverted. *)
Abbreviation DiffDirection := bool.

(** Modelled from the spec: [modules.DiffApply]. *)
Definition DiffApply : DiffDirection := true.

(** Modelled from the spec: [modules.DiffRevert]. *)
Definition DiffRevert : DiffDirection := false.

(** Modelled from the spec: [modules.SiafundOutputDiff], one of the diffs a
    processed block accumulates. *)
Record SiafundOutputDiff : Type := mkSiafundOutputDiff {
  Direction : DiffDirection;
  ID : Hash;
  SiafundOutput : types.SiafundOutput;
}.

End modules.

(** ** Package consensus: database.go *)

Definition prefix_dsco : bytes := list_byte_of_string "dsco_".
Definition prefix_fcex : bytes := list_byte_of_string "fcex_".

Definition BlockHeight : bytes := list_byte_of_string "BlockHeight".
Definition BlockPath : bytes := list_byte_of_string "BlockPath".
Definition BlockMap : bytes := list_byte_of_string "BlockMap".
Definition SiacoinOutputs : bytes := list_byte_of_string "SiacoinOutputs".
Definition FileContracts : bytes := list_byte_of_string "FileContracts".
Definition FileContractExpirations : bytes := list_byte_of_string "FileContractExpirations".
Definition SiafundOutputs : bytes := list_byte_of_string "SiafundOutputs".
Definition SiafundPool : bytes := list_byte_of_string "SiafundPool".

Section Database.

(** [build.DEBUG], a constant of package [build]. *)
Variable DEBUG : bool.

(** [types.Block] with the two of its methods the database calls; both
    compute hashes. *)
Variable Block : Type.
Variable Block_ID : Block → Hash.
Variable Block_MinerPayoutID : Block → Z → Hash.

(** [types.CalculateCoinbase], which the spec leaves opaque. *)
Variable CalculateCoinbase : types.BlockHeight → Currency.

(** Modelled from the spec: [processedBlock], declared in another file of
    the package: a block body, the diffs accumulated for the block and an
    optional consensus checksum. Only the fields the database touches are
    kept. *)
Record processedBlock : Type := mkProcessedBlock {
  pb_Block : Block;
  SiafundOutputDiffs : list modules.SiafundOutputDiff;
  ConsensusSetHash : Hash;
}.

(** [encoding.Marshal] at a [processedBlock]. *)
Variable Marshal_processedBlock : processedBlock → bytes.

(** [encoding.Unmarshal] at a [processedBlock]: what the call leaves in a
    zero-valued destination, and the error it returns. *)
Variable Unmarshal_processedBlock : bytes → processedBlock * option error.

(** [consensusChecksum], declared in another file of the package: a hash
    computed by reading the whole transaction. *)
Variable consensusChecksum : bolt.Tx → Hash.

(** Modelled from the spec: [ConsensusSet], declared in another file of the
    package; of its fields [initDB] uses the processed genesis block. *)
Record ConsensusSet : Type := mkConsensusSet {
  blockRoot : processedBlock;
}.

(** [panic(err)] when [err != nil]. *)
Definition panic_on (err : option error) : M unit :=
  match err with
  | Some e => panic (panic_error e)
  | None => ret tt
  end.

(** [dbInitialized] (database.go, lines 81-85). *)
Definition dbInitialized : M bool :=
  b <- tx_Bucket SiafundPool ;;
  ret (bool_decide (is_Some b)).

(** [blockHeight] (lines 150-161). The destination is a Go [int]. *)
Definition blockHeight : M types.BlockHeight :=
  bh <- tx_Bucket BlockHeight ;;
  v <- b_Get bh BlockHeight ;;
  let '(height, err) := Unmarshal_into decodeInt 0 v in
  _ <- when DEBUG (panic_on err) ;;
  if height <? 0 then panic (panic_int height)
  else ret (uint64 height).

(** [getBlockMap] (lines 178-192). The result is a pointer: [None] is nil.
    A decoding error is looked at under [build.DEBUG] only, and is never
    returned. *)
Definition getBlockMap (id : Hash) : M (option processedBlock * option error) :=
  b <- tx_Bucket BlockMap ;;
  pbBytes <- b_Get b id ;;
  if negb (not_nil pbBytes) then ret (None, Some errNilItem)
  else
    let '(pb, err) := Unmarshal_processedBlock (of_slice pbBytes) in
    _ <- when DEBUG (panic_on err) ;;
    ret (Some pb, None).

(** [addBlockMap] (lines 195-201). *)
Definition addBlockMap (pb : processedBlock) : M unit :=
  let id := Block_ID (pb_Block pb) in
  bm <- tx_Bucket BlockMap ;;
  err <- b_Put bm id (Marshal_processedBlock pb) ;;
  when DEBUG (panic_on err).

(** [getPath] (lines 204-211). *)
Definition getPath (height : types.BlockHeight) : M Hash :=
  bp <- tx_Bucket BlockPath ;;
  idBytes <- b_Get bp (Marshal (Uint height)) ;;
  let '(id, err) := Unmarshal_into (decodeByteArray HashSize) ZeroHash idBytes in
  _ <- when DEBUG (panic_on err) ;;
  ret id.

(** [currentBlockID] (lines 164-166). *)
Definition currentBlockID : M Hash :=
  h <- blockHeight ;;
  getPath h.

(** [currentProcessedBlock] (lines 169-175). *)
Definition currentProcessedBlock : M (option processedBlock) :=
  id <- currentBlockID ;;
  r <- getBlockMap id ;;
  let '(pb, err) := r in
  _ <- when DEBUG (panic_on err) ;;
  ret pb.

(** [pushPath] (lines 214-235). *)
Definition pushPath (bid : Hash) : M unit :=
  bh <- tx_Bucket BlockHeight ;;
  heightBytes <- b_Get bh BlockHeight ;;
  let '(oldHeight, err) := Unmarshal_into decodeUint 0 heightBytes in
  _ <- when DEBUG (panic_on err) ;;
  let newHeightBytes := Marshal (Uint (uint64 (oldHeight + 1))) in
  err <- b_Put bh BlockHeight newHeightBytes ;;
  _ <- when DEBUG (panic_on err) ;;
  bp <- tx_Bucket BlockPath ;;
  err <- b_Put bp newHeightBytes bid ;;
  when DEBUG (panic_on err).

(** [popPath] (lines 239-261). The path entry is deleted under the bytes
    that were read from the counter. *)
Definition popPath : M unit :=
  bh <- tx_Bucket BlockHeight ;;
  oldHeightBytes <- b_Get bh BlockHeight ;;
  let '(oldHeight, err) := Unmarshal_into decodeUint 0 oldHeightBytes in
  _ <- when DEBUG (panic_on err) ;;
  let newHeightBytes := Marshal (Uint (uint64 (oldHeight - 1))) in
  err <- b_Put bh BlockHeight newHeightBytes ;;
  _ <- when DEBUG (panic_on err) ;;
  bp <- tx_Bucket BlockPath ;;
  err <- b_Delete bp (of_slice oldHeightBytes) ;;
  when DEBUG (panic_on err).

(** [isSiacoinOutput] (lines 265-269). *)
Definition isSiacoinOutput (id : Hash) : M bool :=
  bucket <- tx_Bucket SiacoinOutputs ;;
  sco <- b_Get bucket id ;;
  ret (not_nil sco).

(** The zero value [types.SiacoinOutput{}]. *)
Definition zeroSiacoinOutput : SiacoinOutput := mkSiacoinOutput 0%N ZeroHash.

(** [getSiacoinOutput] (lines 273-284). *)
Definition getSiacoinOutput (id : Hash) : M (SiacoinOutput * option error) :=
  b <- tx_Bucket SiacoinOutputs ;;
  scoBytes <- b_Get b id ;;
  if negb (not_nil scoBytes) then ret (zeroSiacoinOutput, Some errNilItem)
  else
    let '(sco, err) := Unmarshal_into decodeSiacoinOutput zeroSiacoinOutput scoBytes in
    match err with
    | Some e => ret (zeroSiacoinOutput, Some e)
    | None => ret (sco, None)
    end.

(** [addSiacoinOutput] (lines 288-298). *)
Definition addSiacoinOutput (id : Hash) (sco : SiacoinOutput) : M unit :=
  siacoinOutputs <- tx_Bucket SiacoinOutputs ;;
  _ <- when DEBUG (
    v <- b_Get siacoinOutputs id ;;
    when (not_nil v) (panic (panic_string "repeat siacoin output"))) ;;
  err <- b_Put siacoinOutputs id (Marshal (reflect_SiacoinOutput sco)) ;;
  when DEBUG (panic_on err).

(** [removeSiacoinOutput] (lines 302-312). *)
Definition removeSiacoinOutput (id : Hash) : M unit :=
  scoBucket <- tx_Bucket SiacoinOutputs ;;
  _ <- when DEBUG (
    v <- b_Get scoBucket id ;;
    when (negb (not_nil v)) (panic (panic_string "nil siacoin output"))) ;;
  err <- b_Delete scoBucket id ;;
  when DEBUG (panic_on err).

(** The zero value [types.FileContract{}]. *)
Definition zeroFileContract : FileContract :=
  mkFileContract 0 ZeroHash 0 0 0%N [] [] ZeroHash 0.

(** [getFileContract] (lines 316-326). *)
Definition getFileContract (id : Hash) : M (FileContract * option error) :=
  b <- tx_Bucket FileContracts ;;
  fcBytes <- b_Get b id ;;
  if negb (not_nil fcBytes) then ret (zeroFileContract, Some errNilItem)
  else
    let '(fc, err) := Unmarshal_into decodeFileContract zeroFileContract fcBytes in
    match err with
    | Some e => ret (zeroFileContract, Some e)
    | None => ret (fc, None)
    end.

(** [addFileContract] (lines 330-352). *)
Definition addFileContract (id : Hash) (fc : FileContract) : M unit :=
  fcBucket <- tx_Bucket FileContracts ;;
  _ <- when DEBUG (
    v <- b_Get fcBucket id ;;
    when (not_nil v) (panic (panic_string "repeat file contract"))) ;;
  err <- b_Put fcBucket id (Marshal (reflect_FileContract fc)) ;;
  _ <- when DEBUG (panic_on err) ;;
  let expirationBucketID := prefix_fcex ++ Marshal (Uint (WindowEnd fc)) in
  r <- tx_CreateBucketIfNotExists expirationBucketID ;;
  let '(expirationBucket, err) := r in
  _ <- when DEBUG (panic_on err) ;;
  err <- b_Put expirationBucket id [] ;;
  when DEBUG (panic_on err).

(** [removeFileContract] (lines 355-382). The check on the expiration
    marker is not guarded by [build.DEBUG]. *)
Definition removeFileContract (id : Hash) : M unit :=
  fcBucket <- tx_Bucket FileContracts ;;
  fcBytes <- b_Get fcBucket id ;;
  _ <- when (DEBUG && negb (not_nil fcBytes))
         (panic (panic_string "nil file contract")) ;;
  err <- b_Delete fcBucket id ;;
  _ <- when DEBUG (panic_on err) ;;
  match slice 48 56 (of_slice fcBytes) with
  | None => panic slice_out_of_range
  | Some windowEndBytes =>
      let expirationBucketID := prefix_fcex ++ windowEndBytes in
      expirationBucket <- tx_Bucket expirationBucketID ;;
      expirationBytes <- b_Get expirationBucket id ;;
      _ <- when (negb (not_nil expirationBytes)) (panic (panic_error errNilItem)) ;;
      err <- b_Delete expirationBucket id ;;
      when DEBUG (panic_on err)
  end.

(** [addSiafundOutput] (lines 386-396). *)
Definition addSiafundOutput (id : Hash) (sco : SiafundOutput) : M unit :=
  siafundOutputs <- tx_Bucket SiafundOutputs ;;
  _ <- when DEBUG (
    v <- b_Get siafundOutputs id ;;
    when (not_nil v) (panic (panic_string "repeat siafund output"))) ;;
  err <- b_Put siafundOutputs id (Marshal (reflect_SiafundOutput sco)) ;;
  when DEBUG (panic_on err).

(** [removeSiafundOutput] (lines 400-409). *)
Definition removeSiafundOutput (id : Hash) : M unit :=
  sfoBucket <- tx_Bucket SiafundOutputs ;;
  _ <- when DEBUG (
    v <- b_Get sfoBucket id ;;
    when (negb (not_nil v)) (panic (panic_string "nil siafund output"))) ;;
  err <- b_Delete sfoBucket id ;;
  when DEBUG (panic_on err).

(** [getSiafundPool] (lines 413-424). *)
Definition getSiafundPool : M Currency :=
  bucket <- tx_Bucket SiafundPool ;;
  poolBytes <- b_Get bucket SiafundPool ;;
  let '(pool, err) := Unmarshal_into decodeCurrency 0%N poolBytes in
  _ <- when DEBUG (panic_on err) ;;
  ret pool.

(** [setSiafundPool] (lines 427-432). *)
Definition setSiafundPool (c : Currency) : M unit :=
  b <- tx_Bucket SiafundPool ;;
  err <- b_Put b SiafundPool (Marshal (reflect_Currency c)) ;;
  when DEBUG (panic_on err).

(** The name [addDSCO] computes for the bucket of a height. *)
Definition addDSCO_dscoBucketID (bh : types.BlockHeight) : bytes :=
  prefix_dsco ++ EncUint64 (uint64 bh).

(** [addDSCO] (lines 435-450). *)
Definition addDSCO (bh : types.BlockHeight) (id : Hash) (sco : SiacoinOutput) : M unit :=
  _ <- when DEBUG (
    b <- tx_Bucket SiacoinOutputs ;;
    v <- b_Get b id ;;
    when (not_nil v) (panic (panic_string "dsco already in output set"))) ;;
  let dscoBucketID := addDSCO_dscoBucketID bh in
  dscoBucket <- tx_Bucket dscoBucketID ;;
  _ <- when DEBUG (
    v <- b_Get dscoBucket id ;;
    when (not_nil v) (panic (panic_error errRepeatInsert))) ;;
  err <- b_Put dscoBucket id (Marshal (reflect_SiacoinOutput sco)) ;;
  when DEBUG (panic_on err).

(** The name [removeDSCO] computes for the bucket of a height. *)
Definition removeDSCO_bucketID (bh : types.BlockHeight) : bytes :=
  prefix_dsco ++ Marshal (Uint bh).

(** [removeDSCO] (lines 453-465). The panic on an absent id is commented out
    in the source; a line is printed instead. *)
Definition removeDSCO (bh : types.BlockHeight) (id : Hash) : M unit :=
  let bucketID := removeDSCO_bucketID bh in
  dscoBucket <- tx_Bucket bucketID ;;
  _ <- when DEBUG (
    v <- b_Get dscoBucket id ;;
    when (negb (not_nil v)) (Println "NIL DSCO" id)) ;;
  err <- b_Delete dscoBucket id ;;
  when DEBUG (panic_on err).

(** The name [createDSCOBucket] computes for the bucket of a height. *)
Definition createDSCOBucket_bucketID (bh : types.BlockHeight) : bytes :=
  prefix_dsco ++ Marshal (Uint bh).

(** [createDSCOBucket] (lines 469-475). *)
Definition createDSCOBucket (bh : types.BlockHeight) : M unit :=
  let bucketID := createDSCOBucket_bucketID bh in
  r <- tx_CreateBucket bucketID ;;
  let '(_, err) := r in
  when DEBUG (panic_on err).

(** The name [deleteDSCOBucket] computes for the bucket of a height. *)
Definition deleteDSCOBucket_bucketID (h : types.BlockHeight) : bytes :=
  prefix_dsco ++ Marshal (Uint h).

(** [deleteDSCOBucket] (lines 479-494). The source leaves the emptiness
    check as a TODO. *)
Definition deleteDSCOBucket (h : types.BlockHeight) : M unit :=
  let bucketID := deleteDSCOBucket_bucketID h in
  bucket <- tx_Bucket bucketID ;;
  _ <- when (DEBUG && negb (bool_decide (is_Some bucket)))
         (panic (panic_error errNilBucket)) ;;
  err <- tx_DeleteBucket bucketID ;;
  when DEBUG (panic_on err).

(** The name [forEachDSCO] computes for the bucket of a height. *)
Definition forEachDSCO_bucketID (bh : types.BlockHeight) : bytes :=
  prefix_dsco ++ Marshal (Uint bh).

(** [forEachDSCO] (lines 498-513). *)
Definition forEachDSCO (bh : types.BlockHeight)
    (fn : Hash → SiacoinOutput → M (option error)) : M (option error) :=
  let bucketID := forEachDSCO_bucketID bh in
  b <- tx_Bucket bucketID ;;
  b_ForEach b (λ kb vb,
    match Unmarshal (decodeByteArray HashSize) kb with
    | None => ret (Some decodeError)
    | Some key =>
        match Unmarshal decodeSiacoinOutput vb with
        | None => ret (Some decodeError)
        | Some value => fn key value
        end
    end).

(** [getItem] (lines 522-533), the function on a transaction. The key is
    any Go value; it is looked up under its encoding. *)
Definition getItem (bucket : bytes) (key : value) : M (option bytes * option error) :=
  b <- tx_Bucket bucket ;;
  _ <- when (DEBUG && negb (bool_decide (is_Some b)))
         (panic (panic_error errNilBucket)) ;;
  let k := Marshal key in
  item <- b_Get b k ;;
  if negb (not_nil item) then ret (None, Some errNilItem)
  else ret (item, None).

(** The zero value [types.SiafundOutput{}]. *)
Definition zeroSiafundOutput : SiafundOutput := mkSiafundOutput 0%N ZeroHash 0%N.

(** [getSiafundOutput] (lines 652-663). The id, a byte array, is its own
    encoding. *)
Definition getSiafundOutput (id : Hash) : M (SiafundOutput * option error) :=
  r <- getItem SiafundOutputs (ByteArray id) ;;
  let '(sfoBytes, err) := r in
  match err with
  | Some e => ret (zeroSiafundOutput, Some e)
  | None =>
      let '(sfo, err) := Unmarshal_into decodeSiafundOutput zeroSiafundOutput sfoBytes in
      match err with
      | Some e => ret (zeroSiafundOutput, Some e)
      | None => ret (sfo, None)
      end
  end.

(** Modelled from the spec: [commitSiafundOutputDiff], declared in another
    file of the package. A diff committed in its own direction goes through
    the normal add path; committed in the other direction it is undone by
    the matching remove. *)
Definition commitSiafundOutputDiff (sfod : modules.SiafundOutputDiff)
    (dir : modules.DiffDirection) : M unit :=
  if bool_decide (modules.Direction sfod = dir)
  then addSiafundOutput (modules.ID sfod) (modules.SiafundOutput sfod)
  else removeSiafundOutput (modules.ID sfod).

(** The loop of [initDB] over the bucket names (lines 103-108): it returns at
    the first error. *)
Fixpoint initDB_createBuckets (buckets : list bytes) : M (option error) :=
  match buckets with
  | [] => ret None
  | bucket :: rest =>
      r <- tx_CreateBucketIfNotExists bucket ;;
      match snd r with
      | Some e => ret (Some e)
      | None => initDB_createBuckets rest
      end
  end.

(** The loop of [initDB] over the genesis block's siafund output diffs
    (lines 128-130). *)
Fixpoint initDB_commitDiffs (sfods : list modules.SiafundOutputDiff) : M unit :=
  match sfods with
  | [] => ret tt
  | sfod :: rest =>
      _ <- commitSiafundOutputDiff sfod modules.DiffApply ;;
      initDB_commitDiffs rest
  end.

(** [initDB], first part (lines 90-116): the buckets are created and the
    height counter is stored as [underflow - 1]. *)
Definition initDB_setHeight : M (option error) :=
  let buckets := [BlockPath; BlockMap; SiacoinOutputs; FileContracts;
                  FileContractExpirations; SiafundOutputs; SiafundPool;
                  BlockHeight] in
  err <- initDB_createBuckets buckets ;;
  match err with
  | Some e => ret (Some e)
  | None =>
      blockHeight <- tx_Bucket BlockHeight ;;
      let underflow : types.BlockHeight := 0 in
      b_Put blockHeight BlockHeight (Marshal (Uint (uint64 (underflow - 1))))
  end.

(** [initDB], second part (lines 118-146): the genesis block and its
    outputs. The processed block [cs.blockRoot] is updated in place; the
    updated consensus set is returned beside the error. *)
Definition initDB_genesis (cs : ConsensusSet) : M (ConsensusSet * option error) :=
  _ <- addBlockMap (blockRoot cs) ;;
  _ <- pushPath (Block_ID (pb_Block (blockRoot cs))) ;;
  _ <- setSiafundPool (NewCurrency64 0) ;;
  _ <- initDB_commitDiffs (SiafundOutputDiffs (blockRoot cs)) ;;
  _ <- addSiacoinOutput (Block_MinerPayoutID (pb_Block (blockRoot cs)) 0)
         (mkSiacoinOutput (CalculateCoinbase 0) ZeroHash) ;;
  cs' <- (if DEBUG then
            λ w, (Ok (mkConsensusSet
                        (mkProcessedBlock (pb_Block (blockRoot cs))
                           (SiafundOutputDiffs (blockRoot cs))
                           (consensusChecksum (tx w)))), w)
          else ret cs) ;;
  _ <- addBlockMap (blockRoot cs') ;;
  ret (cs', None).

(** [initDB] (lines 89-147). *)
Definition initDB (cs : ConsensusSet) : M (ConsensusSet * option error) :=
  err <- initDB_setHeight ;;
  match err with
  | Some e => ret (cs, Some e)
  | None => initDB_genesis cs
  end.

End Database.

Arguments pb_Block {Block} _.
Arguments SiafundOutputDiffs {Block} _.
Arguments ConsensusSetHash {Block} _.
Arguments mkProcessedBlock {Block} _ _ _.
Arguments blockRoot {Block} _.
Arguments mkConsensusSet {Block} _.
Arguments addBlockMap DEBUG {Block} Block_ID Marshal_processedBlock pb.
Arguments getBlockMap DEBUG {Block} Unmarshal_processedBlock id.
Arguments currentProcessedBlock DEBUG {Block} Unmarshal_processedBlock.
Arguments initDB_genesis DEBUG {Block} Block_ID Block_MinerPayoutID
  CalculateCoinbase Marshal_processedBlock consensusChecksum cs.
Arguments initDB DEBUG {Block} Block_ID Block_MinerPayoutID
  CalculateCoinbase Marshal_processedBlock consensusChecksum cs.

(** * Specification vocabulary *)

(** ** Well-formed values

    Conditions that Go's types impose and the model's types do not. *)

(** A hash is 32 bytes long. *)
Definition wf_Hash (h : Hash) : Prop := length h = HashSize.

(** A [uint64] lies in its range. *)
Definition wf_uint64 (z : Z) : Prop := 0 ≤ z < 2 ^ 64.

(** A currency fits its encoding when the byte count of its magnitude fits
    the eight-byte length prefix; a [big.Int] that Go can hold always does. *)
Definition Currency_encodable (c : Currency) : Prop :=
  Z.of_nat (length (Currency_Bytes c)) < 2 ^ 64.

Definition wf_SiacoinOutput (sco : SiacoinOutput) : Prop :=
  Currency_encodable (sco_Value sco) ∧ wf_Hash (sco_UnlockHash sco).

Definition wf_FileContract (fc : FileContract) : Prop :=
  wf_Hash (FileMerkleRoot fc) ∧ wf_uint64 (WindowEnd fc).

Definition wf_SiafundOutput (sfo : SiafundOutput) : Prop :=
  Currency_encodable (sfo_Value sfo) ∧ wf_Hash (sfo_UnlockHash sfo)
  ∧ Currency_encodable (sfo_ClaimStart sfo).

(** A list of outputs fits a slice: each output is well formed and the
    count fits the eight-byte prefix. *)
Definition wf_SiacoinOutputs (l : list SiacoinOutput) : Prop :=
  Forall wf_SiacoinOutput l ∧ Z.of_nat (length l) < 2 ^ 64.

(** Every field of the contract is a value of its Go type. *)
Definition encodable_FileContract (fc : FileContract) : Prop :=
  wf_uint64 (FileSize fc) ∧ wf_Hash (FileMerkleRoot fc)
  ∧ wf_uint64 (WindowStart fc) ∧ wf_uint64 (WindowEnd fc)
  ∧ Currency_encodable (Payout fc)
  ∧ wf_SiacoinOutputs (ValidProofOutputs fc)
  ∧ wf_SiacoinOutputs (MissedProofOutputs fc)
  ∧ wf_Hash (fc_UnlockHash fc) ∧ wf_uint64 (RevisionNumber fc).

(** ** Outcomes *)

(** The call ended in a panic: the process is aborted. *)
Definition fatal {A} (r : outcome A * World) : Prop :=
  match r.1 with Panic _ => True | Ok _ => False end.

(** The computation leaves the world as it found it, whether it returns or
    panics. *)
Definition read_only {A} (m : M A) : Prop := ∀ w, (m w).2 = w.

(** The computation prints nothing and writes to no bucket but those whose
    name satisfies [P], whether it returns or panics. *)
Definition confined {A} (P : bytes → Prop) (m : M A) : Prop :=
  ∀ w, stdout (m w).2 = stdout w
       ∧ ∀ n, ¬ P n → tx (m w).2 !! n = tx w !! n.

(** The computation leaves every bucket of the transaction as it found it,
    whether it returns or panics; it may print. This is what
    [Bucket.ForEach] asks of the function it is given: bolt leaves the
    iteration undefined when that function modifies the bucket. *)
Definition keeps_tx {A} (m : M A) : Prop := ∀ w, tx (m w).2 = tx w.

(** ** The chain index *)

(** The height counter holds the encoding of [h]. *)
Definition stored_height (w : World) (h : Z) : Prop :=
  ∃ bk, tx w !! BlockHeight = Some bk
        ∧ bk !! BlockHeight = Some (Marshal (Uint h)).

(** The entry of the block path at height [k], if any. *)
Definition path_entry (w : World) (k : Z) : option bytes :=
  tx w !! BlockPath ≫= λ bp, bp !! Marshal (Uint k).

(** The block path holds an entry at each height from 0 to [h] and at no
    other height. *)
Definition path_contiguous (w : World) (h : Z) : Prop :=
  is_Some (tx w !! BlockPath)
  ∧ ∀ k, wf_uint64 k → (is_Some (path_entry w k) ↔ k ≤ h).

(** What [Tx.CreateBucketIfNotExists] leaves behind: the transaction with a
    bucket of that name, empty if it had to be created. *)
Definition ensure_bucket (name : bytes) (t : bolt.Tx) : bolt.Tx :=
  match t !! name with
  | Some _ => t
  | None => <[name := ∅]> t
  end.

(** ** The block store *)

(** The record stored for a block id, if any. *)
Definition block_record (w : World) (id : Hash) : option bytes :=
  tx w !! BlockMap ≫= λ bm, bm !! id.

(** ** The contract ledger *)

(** The name of the expiration bucket of a window end. *)
Definition expirationBucketID (h : Z) : bytes := prefix_fcex ++ Marshal (Uint h).

(** The expiration bucket of height [h] holds a marker for [id]. *)
Definition expiration_marker (w : World) (h : Z) (id : Hash) : Prop :=
  ∃ eb, tx w !! expirationBucketID h = Some eb ∧ is_Some (eb !! id).

(** The record stored for a contract id in the primary bucket, if any. *)
Definition contract_record (w : World) (id : Hash) : option bytes :=
  tx w !! FileContracts ≫= λ fcs, fcs !! id.

(** The contract [id] is in the primary bucket and bytes 48 to 56 of its
    record encode the window end [h]. *)
Definition contract_expires (w : World) (id : Hash) (h : Z) : Prop :=
  ∃ fcBytes, contract_record w id = Some fcBytes
             ∧ slice 48 56 fcBytes = Some (Marshal (Uint h)).

(** The expiration index agrees with the primary bucket: the primary bucket
    exists, every record in it is long enough to hold a window end, and a
    marker for a contract lies in the expiration bucket of a height exactly
    when the contract is in the primary bucket with that window end. *)
Definition expiration_index_agrees (w : World) : Prop :=
  is_Some (tx w !! FileContracts)
  ∧ (∀ id fcBytes, contract_record w id = Some fcBytes →
       is_Some (slice 48 56 fcBytes))
  ∧ (∀ id h, wf_uint64 h → (expiration_marker w h id ↔ contract_expires w id h)).

(** ** The maturation queue *)

(** Calling [fn] on each pair of a list in turn, up to the first error. *)
Fixpoint visit_each (fn : Hash → SiacoinOutput → M (option error))
    (l : list (Hash * SiacoinOutput)) : M (option error) :=
  match l with
  | [] => ret None
  | (id, sco) :: rest =>
      err <- fn id sco ;;
      match err with
      | Some e => ret (Some e)
      | None => visit_each fn rest
      end
  end.

(** The entry a maturation bucket holds for a delayed output. *)
Definition dsco_entry (x : Hash * SiacoinOutput) : bytes * bytes :=
  (x.1, Marshal (reflect_SiacoinOutput x.2)).

(** Every entry of the bucket is a well-formed id with the encoding of a
    well-formed output. *)
Definition dsco_bucket_wf (bk : bolt.Bucket) : Prop :=
  ∀ k v, bk !! k = Some v →
    wf_Hash k ∧ ∃ sco, wf_SiacoinOutput sco ∧ v = Marshal (reflect_SiacoinOutput sco).

(** The order in which [Bucket.ForEach] meets two ids. *)
Definition key_le (x y : Hash * SiacoinOutput) : Prop :=
  bolt.bytes_leb x.1 y.1 = true.

(** An entry that [forEachDSCO] cannot decode. *)
Definition dsco_undecodable (k v : bytes) : Prop :=
  Unmarshal (decodeByteArray HashSize) k = None
  ∨ Unmarshal decodeSiacoinOutput v = None.

(** ** The genesis block *)

(** The siafund output diffs of a genesis block: each is an applied diff
    with a well-formed id, and no id occurs twice. *)
Definition genesis_diffs_ok (diffs : list modules.SiafundOutputDiff) : Prop :=
  Forall (λ d, modules.Direction d = modules.DiffApply ∧ wf_Hash (modules.ID d)) diffs
  ∧ NoDup (modules.ID <$> diffs).

(** The store before initialisation: no bucket at all. *)
Definition empty_store (out : list Line) : World := mkWorld ∅ out.

(** The buckets [initDB] creates, in the order of its loop. *)
Definition database_buckets : list bytes :=
  [BlockPath; BlockMap; SiacoinOutputs; FileContracts;
   FileContractExpirations; SiafundOutputs; SiafundPool; BlockHeight].

(** The bucket of a name as a map, a missing bucket reading as empty. *)
Definition bucket_of (t : bolt.Tx) (name : bytes) : bolt.Bucket :=
  default ∅ (t !! name).

(** A siafund bucket after the outputs of a list of diffs were put into it,
    one after the other. *)
Definition siafund_records (diffs : list modules.SiafundOutputDiff)
    (sf : bolt.Bucket) : bolt.Bucket :=
  foldl (λ sf d, <[modules.ID d :=
                     Marshal (reflect_SiafundOutput (modules.SiafundOutput d))]> sf)
    sf diffs.

(** The diffs of a genesis block are applied diffs with well-formed ids. *)
Definition applied_diffs (diffs : list modules.SiafundOutputDiff) : Prop :=
  Forall (λ d, modules.Direction d = modules.DiffApply ∧ wf_Hash (modules.ID d)) diffs.

(** What the genesis block adds is new to the store: its miner payout is not
    in the output ledger, and its siafund outputs are distinct and not in
    the siafund ledger. *)
Definition genesis_fresh (t : bolt.Tx) (payout : Hash)
    (diffs : list modules.SiafundOutputDiff) : Prop :=
  bucket_of t SiacoinOutputs !! payout = None
  ∧ NoDup (modules.ID <$> diffs)
  ∧ ∀ d, d ∈ diffs → bucket_of t SiafundOutputs !! modules.ID d = None.

(** ** Concrete values for the examples *)

Definition ex_id : Hash := repeat x01 32.
Definition ex_id' : Hash := repeat x02 32.
Definition ex_sco : SiacoinOutput := mkSiacoinOutput 7%N ZeroHash.

(** A transaction whose maturation bucket for height 5 holds one delayed
    output. *)
Definition ex_dsco_world : World :=
  mkWorld {[ prefix_dsco ++ Marshal (Uint 5) :=
               {[ ex_id := Marshal (reflect_SiacoinOutput ex_sco) ]} ]} [].

(** A transaction with an empty unspent-output bucket, and one whose bucket
    holds [ex_sco] under [ex_id]. *)
Definition ex_sco_empty_world : World := mkWorld {[ SiacoinOutputs := ∅ ]} [].
Definition ex_sco_world : World :=
  mkWorld {[ SiacoinOutputs :=
               {[ ex_id := Marshal (reflect_SiacoinOutput ex_sco) ]} ]} [].

(** A chain index at height 0 whose block is [ex_id]. *)
Definition ex_chain_world : World :=
  mkWorld (<[ BlockHeight := {[ BlockHeight := Marshal (Uint 0) ]} ]>
             {[ BlockPath := {[ Marshal (Uint 0) := ex_id ]} ]}) [].

(** A contract whose window ends at height 100, and a transaction with an
    empty contract bucket. *)
Definition ex_fc : FileContract :=
  mkFileContract 4096 ZeroHash 90 100 1000%N [ex_sco] [ex_sco] ZeroHash 0.
Definition ex_fc_world : World := mkWorld {[ FileContracts := ∅ ]} [].

(** A stand-in for [types.Block]: a block is given by its id. The miner
    payout id, the coinbase, the encoding of a processed block and the
    checksum are fixed to simple functions. *)
Definition ex_Block_ID (b : Hash) : Hash := b.
Definition ex_MinerPayoutID (b : Hash) (i : Z) : Hash := ex_id'.
Definition ex_CalculateCoinbase (h : Z) : Currency := (300000 * 10 ^ 24)%N.
Definition ex_Marshal_processedBlock (pb : processedBlock Hash) : bytes :=
  pb_Block pb ++ ConsensusSetHash pb.
Definition ex_consensusChecksum (t : bolt.Tx) : Hash := repeat xff 32.

(** A genesis block with one siafund output, before and after its checksum
    is set. *)
Definition ex_genesis : processedBlock Hash :=
  mkProcessedBlock ex_id
    [modules.mkSiafundOutputDiff modules.DiffApply ex_id
       (mkSiafundOutput 10000%N ZeroHash 0%N)]
    ZeroHash.
Definition ex_genesis' : processedBlock Hash :=
  mkProcessedBlock ex_id (SiafundOutputDiffs ex_genesis) (repeat xff 32).

(** A block map that already holds [ex_genesis]. *)
Definition ex_block_world : World :=
  mkWorld {[ BlockMap := {[ ex_id := ex_Marshal_processedBlock ex_genesis ]} ]} [].

(** A decoder for the stand-in blocks: the id, then the checksum; the diffs
    are those of [ex_genesis]. A decoder that rejects every input, leaving
    the block zero. *)
Definition ex_Unmarshal_processedBlock (b : bytes) : processedBlock Hash * option error :=
  (mkProcessedBlock (take 32 b) (SiafundOutputDiffs ex_genesis) (drop 32 b), None).
Definition ex_Unmarshal_rejecting (b : bytes) : processedBlock Hash * option error :=
  (mkProcessedBlock ZeroHash [] ZeroHash, Some decodeError).

(** A block that follows the genesis block. *)
Definition ex_block1 : processedBlock Hash :=
  mkProcessedBlock ex_id' (SiafundOutputDiffs ex_genesis) ZeroHash.

(** The chain index of [ex_chain_world] with an empty block map. *)
Definition ex_store_world : World :=
  mkWorld (<[ BlockMap := ∅ ]> (tx ex_chain_world)) [].

(** A siafund output, an empty siafund ledger, and a transaction with both
    output ledgers. *)
Definition ex_sfo : SiafundOutput := mkSiafundOutput 10000%N ZeroHash 0%N.
Definition ex_sfo_empty_world : World := mkWorld {[ SiafundOutputs := ∅ ]} [].
Definition ex_ledgers_world : World :=
  mkWorld (<[ SiafundOutputs := ∅ ]> (tx ex_sco_world)) [].

(** A siafund pool that was never written. *)
Definition ex_pool_world : World := mkWorld {[ SiafundPool := ∅ ]} [].

(** An unspent-output bucket and a maturation bucket for height 5 whose one
    record is a single byte, too short for an output. *)
Definition ex_bad_world : World := mkWorld {[ SiacoinOutputs := {[ ex_id := [x01] ]} ]} [].
Definition ex_bad_dsco_world : World :=
  mkWorld {[ prefix_dsco ++ Marshal (Uint 5) := {[ ex_id := [x01] ]} ]} [].

(** The contract [ex_fc] with its window moved to height 200, and a
    transaction in which [ex_fc] is stored with its marker. *)
Definition ex_fc' : FileContract :=
  mkFileContract 4096 ZeroHash 90 200 1000%N [ex_sco] [ex_sco] ZeroHash 1.
Definition ex_fc_stored_world : World :=
  mkWorld (<[ expirationBucketID 100 := {[ ex_id := [] ]} ]>
             {[ FileContracts := {[ ex_id := Marshal (reflect_FileContract ex_fc) ]} ]})
          [].

(** A third id and a second output; a maturation bucket for height 5 with
    three delayed outputs, put in the order [ex_id3], [ex_id], [ex_id']. *)
Definition ex_id3 : Hash := repeat x03 32.
Definition ex_sco' : SiacoinOutput := mkSiacoinOutput 9%N ZeroHash.
Definition ex_queue_bucket : bolt.Bucket :=
  <[ ex_id' := Marshal (reflect_SiacoinOutput ex_sco) ]>
    (<[ ex_id := Marshal (reflect_SiacoinOutput ex_sco') ]>
       {[ ex_id3 := Marshal (reflect_SiacoinOutput ex_sco) ]}).
Definition ex_queue_world : World :=
  mkWorld {[ prefix_dsco ++ Marshal (Uint 5) := ex_queue_bucket ]} [].

(** A visitor that prints the id it is given, and one that also fails at
    the id [stop]. *)
Definition ex_visit (id : Hash) (sco : SiacoinOutput) : M (option error) :=
  _ <- Println "visit" id ;;
  ret None.
Definition ex_visit_until (stop : Hash) (id : Hash) (sco : SiacoinOutput)
  : M (option error) :=
  _ <- Println "visit" id ;;
  ret (if bool_decide (id = stop) then Some errDBInconsistent else None).

(** * Properties *)

(** ** The encoding *)

Lemma EncUint64_length (z : Z) : length (EncUint64 z) = 8%nat.
Proof. apply length_le_split. Qed.

Lemma DecUint64_EncUint64 (z : Z) : DecUint64 (EncUint64 z) = uint64 z.
Proof.
  unfold DecUint64, EncUint64, uint64.
  rewrite take_ge by (rewrite length_le_split; lia).
  apply le_combine_split.
Qed.

Lemma uint64_range (z : Z) : 0 ≤ uint64 z < 2 ^ 64.
Proof. unfold uint64. apply Z.mod_pos_bound. lia. Qed.

Lemma uint64_small (z : Z) : 0 ≤ z < 2 ^ 64 → uint64 z = z.
Proof. intros. unfold uint64. apply Z.mod_small. lia. Qed.

Lemma uint64_idemp (z : Z) : uint64 (uint64 z) = uint64 z.
Proof. apply uint64_small, uint64_range. Qed.

Lemma EncUint64_uint64 (z : Z) : EncUint64 (uint64 z) = EncUint64 z.
Proof.
  unfold EncUint64, uint64. apply le_combine_inj.
  - rewrite !length_le_split. reflexivity.
  - rewrite !le_combine_split. apply Z.mod_mod. lia.
Qed.

Lemma EncUint64_inj (a b : Z) :
  0 ≤ a < 2 ^ 64 → 0 ≤ b < 2 ^ 64 → EncUint64 a = EncUint64 b → a = b.
Proof.
  intros Ha Hb E. apply (f_equal DecUint64) in E.
  rewrite !DecUint64_EncUint64, !uint64_small in E; auto.
Qed.

Lemma readN_app (n : nat) (b rest : bytes) :
  length b = n → readN n (b ++ rest) = Some (b, rest).
Proof.
  intros <-. unfold readN.
  rewrite decide_True by (rewrite length_app; lia).
  rewrite take_app_length, drop_app_length. reflexivity.
Qed.

Lemma decodeUint_EncUint64 (z : Z) (rest : bytes) :
  decodeUint (EncUint64 z ++ rest) = Some (uint64 z, rest).
Proof.
  unfold decodeUint. rewrite readN_app by apply EncUint64_length.
  simpl. rewrite DecUint64_EncUint64. reflexivity.
Qed.

Lemma decodeInt_EncUint64 (z : Z) (rest : bytes) :
  decodeInt (EncUint64 z ++ rest) = Some (int64 (uint64 z), rest).
Proof.
  unfold decodeInt. rewrite readN_app by apply EncUint64_length.
  simpl. unfold DecInt64. rewrite DecUint64_EncUint64. reflexivity.
Qed.

Lemma Unmarshal_Uint (z : Z) :
  Unmarshal decodeUint (Marshal (Uint z)) = Some (uint64 z).
Proof.
  unfold Unmarshal. change (Marshal (Uint z)) with (EncUint64 z).
  rewrite <- (app_nil_r (EncUint64 z)), decodeUint_EncUint64. reflexivity.
Qed.

Lemma Unmarshal_Int_of_Uint (z : Z) :
  Unmarshal decodeInt (Marshal (Uint z)) = Some (int64 (uint64 z)).
Proof.
  unfold Unmarshal. change (Marshal (Uint z)) with (EncUint64 z).
  rewrite <- (app_nil_r (EncUint64 z)), decodeInt_EncUint64. reflexivity.
Qed.

Lemma Unmarshal_Hash (id : Hash) :
  length id = HashSize → Unmarshal (decodeByteArray HashSize) id = Some id.
Proof.
  intros H. unfold Unmarshal, decodeByteArray.
  rewrite <- (app_nil_r id) at 1. rewrite readN_app by exact H. reflexivity.
Qed.

Lemma Currency_SetBytes_Bytes (c : Currency) :
  Currency_SetBytes (Currency_Bytes c) = c.
Proof.
  unfold Currency_SetBytes, Currency_Bytes.
  rewrite rev_involutive, le_combine_split.
  rewrite Z.mod_small; [apply N2Z.id|].
  split; [lia|].
  pose proof (N.size_gt c) as Hs.
  assert (Hle : (N.size c ≤ N.of_nat (N.to_nat ((N.size c + 7) / 8)) * 8)%N).
  { rewrite N2Nat.id.
    pose proof (N.Div0.mod_le (N.size c + 7) 8).
    pose proof (N.div_mod (N.size c + 7) 8 ltac:(lia)).
    pose proof (N.mod_upper_bound (N.size c + 7) 8 ltac:(lia)). lia. }
  apply Z.lt_le_trans with (2 ^ Z.of_N (N.size c)).
  - change 2 with (Z.of_N 2). rewrite <- N2Z.inj_pow. lia.
  - apply Z.pow_le_mono_r; lia.
Qed.

Lemma decodeCurrency_Marshal (c : Currency) (rest : bytes) :
  Currency_encodable c →
  decodeCurrency (Marshal (reflect_Currency c) ++ rest) = Some (c, rest).
Proof.
  intros Hc. unfold decodeCurrency, decodePrefixed, reflect_Currency.
  cbn [Marshal]. rewrite <- app_assoc, decodeUint_EncUint64. cbn [mbind option_bind].
  rewrite uint64_small by (unfold Currency_encodable in Hc; lia).
  rewrite readN_app by lia. cbn [mbind option_bind].
  rewrite Currency_SetBytes_Bytes. reflexivity.
Qed.

Lemma Unmarshal_Currency (c : Currency) :
  Currency_encodable c →
  Unmarshal decodeCurrency (Marshal (reflect_Currency c)) = Some c.
Proof.
  intros Hc. unfold Unmarshal.
  rewrite <- (app_nil_r (Marshal _)), decodeCurrency_Marshal by exact Hc.
  reflexivity.
Qed.

Lemma Unmarshal_SiacoinOutput (sco : SiacoinOutput) :
  wf_SiacoinOutput sco →
  Unmarshal decodeSiacoinOutput (Marshal (reflect_SiacoinOutput sco)) = Some sco.
Proof.
  intros [Hv Hu]. destruct sco as [v uh]. cbn [sco_Value sco_UnlockHash] in *.
  unfold Unmarshal, decodeSiacoinOutput, reflect_SiacoinOutput.
  cbn [Marshal List.map List.concat sco_Value sco_UnlockHash].
  change (EncUint64 (Z.of_nat (length (Currency_Bytes v))) ++ Currency_Bytes v)
    with (Marshal (reflect_Currency v)).
  rewrite decodeCurrency_Marshal by exact Hv. cbn [mbind option_bind].
  unfold decodeByteArray. rewrite readN_app by exact Hu. reflexivity.
Qed.

Lemma zero_Currency_encodable : Currency_encodable (NewCurrency64 0).
Proof. vm_compute. reflexivity. Qed.

(** ** Running the monad *)

Lemma bind_run {A B} (m : M A) (k : A → M B) (w w' : World) (a : A) :
  m w = (Ok a, w') → (x <- m ;; k x) w = k a w'.
Proof. unfold bind. intros ->. reflexivity. Qed.

Lemma bind_run_panic {A B} (m : M A) (k : A → M B) (w w' : World) p :
  m w = (Panic p, w') → (x <- m ;; k x) w = (Panic p, w').
Proof. unfold bind. intros ->. reflexivity. Qed.

Lemma bind_bind {A B C} (m : M A) (f : A → M B) (k : B → M C) (w : World) :
  (y <- (x <- m ;; f x) ;; k y) w = (x <- m ;; y <- f x ;; k y) w.
Proof. unfold bind. destruct (m w) as [[a|p] w']; reflexivity. Qed.

Lemma ret_run {A} (a : A) (w : World) : ret a w = (Ok a, w).
Proof. reflexivity. Qed.

Lemma panic_run {A} (p : panic_value) (w : World) : panic (A := A) p w = (Panic p, w).
Proof. reflexivity. Qed.

Lemma not_nil_None : not_nil None = false.
Proof. reflexivity. Qed.

Lemma not_nil_Some (b : bytes) : not_nil (Some b) = true.
Proof. reflexivity. Qed.

Lemma Unmarshal_into_Some {A} (d : Decoder A) (zero a : A) (b : bytes) :
  Unmarshal d b = Some a → Unmarshal_into d zero (Some b) = (a, None).
Proof. unfold Unmarshal_into, of_slice. cbn. intros ->. reflexivity. Qed.

Lemma Unmarshal_into_nil {A} (d : Decoder A) (zero : A) :
  Unmarshal d [] = None → Unmarshal_into d zero None = (zero, Some decodeError).
Proof. unfold Unmarshal_into, of_slice. cbn. intros ->. reflexivity. Qed.

Lemma tx_Bucket_Some (name : bytes) (w : World) (bk : bolt.Bucket) :
  tx w !! name = Some bk → tx_Bucket name w = (Ok (Some name), w).
Proof. unfold tx_Bucket. intros ->. reflexivity. Qed.

Lemma tx_Bucket_None (name : bytes) (w : World) :
  tx w !! name = None → tx_Bucket name w = (Ok None, w).
Proof. unfold tx_Bucket. intros ->. reflexivity. Qed.

Lemma b_Get_Some (name key : bytes) (w : World) (bk : bolt.Bucket) :
  tx w !! name = Some bk → b_Get (Some name) key w = (Ok (bk !! key), w).
Proof. unfold b_Get, with_bucket. intros ->. reflexivity. Qed.

Lemma b_Get_nil (key : bytes) (w : World) :
  b_Get None key w = (Panic nil_dereference, w).
Proof. reflexivity. Qed.

Lemma b_Put_Some (name key value : bytes) (w : World) (bk : bolt.Bucket) :
  tx w !! name = Some bk → key ≠ [] →
  b_Put (Some name) key value w
  = (Ok None, mkWorld (<[name := <[key := value]> bk]> (tx w)) (stdout w)).
Proof.
  unfold b_Put, with_bucket, bolt.Put. intros -> Hk.
  rewrite decide_False by exact Hk. reflexivity.
Qed.

Lemma b_Put_nil (key value : bytes) (w : World) :
  b_Put None key value w = (Panic nil_dereference, w).
Proof. reflexivity. Qed.

Lemma b_Delete_Some (name key : bytes) (w : World) (bk : bolt.Bucket) :
  tx w !! name = Some bk →
  b_Delete (Some name) key w
  = (Ok None, mkWorld (<[name := delete key bk]> (tx w)) (stdout w)).
Proof. unfold b_Delete, with_bucket, bolt.Delete. intros ->. reflexivity. Qed.

Lemma b_Delete_nil (key : bytes) (w : World) :
  b_Delete None key w = (Panic nil_dereference, w).
Proof. reflexivity. Qed.

Lemma wf_Hash_nonempty (h : Hash) : wf_Hash h → h ≠ [].
Proof. intros H ->. discriminate H. Qed.

Lemma World_eta (w : World) : mkWorld (tx w) (stdout w) = w.
Proof. destruct w. reflexivity. Qed.

Lemma tx_insert_id (w : World) (name : bytes) (bk : bolt.Bucket) :
  tx w !! name = Some bk → mkWorld (<[name := bk]> (tx w)) (stdout w) = w.
Proof. intros H. rewrite insert_id by exact H. apply World_eta. Qed.

Create HintDb run discriminated.
#[local] Hint Constants Opaque : run.

Lemma lookup_insert_Some_ne {V} (t : gmap bytes V) (n n' : bytes) (b x : V) :
  n ≠ n' → t !! n' = Some x → <[n := b]> t !! n' = Some x.
Proof. intros Hn Ht. rewrite lookup_insert_ne by exact Hn. exact Ht. Qed.

Lemma lookup_insert_Some_eq {V} (t : gmap bytes V) (n : bytes) (b : V) :
  <[n := b]> t !! n = Some b.
Proof. apply lookup_insert_eq. Qed.

Lemma EncUint64_nonempty (z : Z) : EncUint64 z ≠ [].
Proof. intros H. apply (f_equal length) in H. rewrite EncUint64_length in H. discriminate. Qed.

Lemma Marshal_Uint_nonempty (z : Z) : Marshal (Uint z) ≠ [].
Proof. apply EncUint64_nonempty. Qed.

#[local] Hint Resolve lookup_insert_Some_eq lookup_insert_Some_ne
  EncUint64_nonempty Marshal_Uint_nonempty : run.
#[local] Hint Extern 1 (_ ≠ _) => (vm_compute; discriminate) : run.
#[local] Hint Extern 0 (tx (mkWorld _ _) !! _ = _) => cbn [tx] : run.

Lemma when_panic_on_None (c : bool) (w : World) :
  when c (panic_on None) w = (Ok tt, w).
Proof. destruct c; reflexivity. Qed.

Lemma when_false (m : M unit) (w : World) : when false m w = (Ok tt, w).
Proof. reflexivity. Qed.

Lemma panic_on_None (w : World) : panic_on None w = (Ok tt, w).
Proof. reflexivity. Qed.

#[local] Hint Resolve when_panic_on_None when_false panic_on_None : run.

#[local] Hint Resolve ret_run panic_run tx_Bucket_Some tx_Bucket_None b_Get_Some b_Get_nil
  b_Put_Some b_Put_nil b_Delete_Some b_Delete_nil wf_Hash_nonempty : run.

(** One step of symbolic execution: the first operation of a sequence runs
    to a known result. *)
Ltac mstep :=
  cbv beta iota; cbn [negb andb];
  first [ rewrite bind_bind
        | erewrite bind_run by (cbn [tx stdout]; solve [eauto 10 with run nocore])
        | erewrite bind_run_panic by (cbn [tx stdout]; solve [eauto 10 with run nocore]) ];
  cbv beta; cbn [tx stdout].

(** The last operation of a sequence runs to the expected result. *)
Ltac mdone :=
  cbv beta iota; cbn [negb andb tx stdout];
  etransitivity;
  [ solve [eauto 10 with run nocore] | cbn [tx stdout]; reflexivity ].

(** ** The Output Ledger *)

Section OutputLedger.
Variable DEBUG : bool.

Lemma addSiacoinOutput_fresh (w : World) (bk : bolt.Bucket) (id : Hash)
    (sco : SiacoinOutput) :
  tx w !! SiacoinOutputs = Some bk → bk !! id = None → wf_Hash id →
  addSiacoinOutput DEBUG id sco w
  = (Ok tt, mkWorld (<[SiacoinOutputs :=
                         <[id := Marshal (reflect_SiacoinOutput sco)]> bk]> (tx w))
                    (stdout w)).
Proof.
  intros Hb Hid Hwf. unfold addSiacoinOutput.
  mstep. destruct DEBUG; unfold when.
  - mstep. mstep. rewrite Hid, not_nil_None. mstep. mstep. reflexivity.
  - mstep. mstep. reflexivity.
Qed.

Lemma addSiacoinOutput_repeat (w : World) (bk : bolt.Bucket) (id : Hash)
    (sco : SiacoinOutput) :
  DEBUG = true → tx w !! SiacoinOutputs = Some bk → is_Some (bk !! id) →
  addSiacoinOutput DEBUG id sco w
  = (Panic (panic_string "repeat siacoin output"), w).
Proof.
  intros -> Hb [old Hid]. unfold addSiacoinOutput, when.
  mstep. mstep. mstep. rewrite Hid, not_nil_Some. mstep. reflexivity.
Qed.

Lemma removeSiacoinOutput_present (w : World) (bk : bolt.Bucket) (id : Hash) :
  tx w !! SiacoinOutputs = Some bk → is_Some (bk !! id) →
  removeSiacoinOutput DEBUG id w
  = (Ok tt, mkWorld (<[SiacoinOutputs := delete id bk]> (tx w)) (stdout w)).
Proof.
  intros Hb [old Hid]. unfold removeSiacoinOutput.
  mstep. destruct DEBUG; unfold when.
  - mstep. mstep. rewrite Hid, not_nil_Some. mstep. mstep. reflexivity.
  - mstep. mstep. reflexivity.
Qed.

Lemma removeSiacoinOutput_nil (w : World) (bk : bolt.Bucket) (id : Hash) :
  DEBUG = true → tx w !! SiacoinOutputs = Some bk → bk !! id = None →
  removeSiacoinOutput DEBUG id w
  = (Panic (panic_string "nil siacoin output"), w).
Proof.
  intros -> Hb Hid. unfold removeSiacoinOutput, when.
  mstep. mstep. mstep. rewrite Hid, not_nil_None. mstep. reflexivity.
Qed.

Lemma isSiacoinOutput_run (w : World) (bk : bolt.Bucket) (id : Hash) :
  tx w !! SiacoinOutputs = Some bk →
  isSiacoinOutput id w = (Ok (bool_decide (is_Some (bk !! id))), w).
Proof.
  intros Hb. unfold isSiacoinOutput. mstep. mstep. reflexivity.
Qed.

Lemma getSiacoinOutput_stored (w : World) (bk : bolt.Bucket) (id : Hash)
    (sco : SiacoinOutput) :
  tx w !! SiacoinOutputs = Some bk →
  bk !! id = Some (Marshal (reflect_SiacoinOutput sco)) →
  wf_SiacoinOutput sco →
  getSiacoinOutput id w = (Ok (sco, None), w).
Proof.
  intros Hb Hid Hwf. unfold getSiacoinOutput. mstep. mstep.
  rewrite Hid, not_nil_Some. cbn [negb].
  erewrite Unmarshal_into_Some by (apply Unmarshal_SiacoinOutput, Hwf).
  reflexivity.
Qed.

Lemma getSiacoinOutput_absent (w : World) (bk : bolt.Bucket) (id : Hash) :
  tx w !! SiacoinOutputs = Some bk → bk !! id = None →
  getSiacoinOutput id w = (Ok (zeroSiacoinOutput, Some errNilItem), w).
Proof.
  intros Hb Hid. unfold getSiacoinOutput. mstep. mstep.
  rewrite Hid, not_nil_None. reflexivity.
Qed.

End OutputLedger.

(** C7. With the debug assertions enabled, adding an output whose id is
    already in the unspent-output set panics, removing an output whose id is
    not in the set panics, and in both cases the world at the panic is the
    world before the call: nothing was written. *)
Theorem output_ledger_fatal_contracts (w : World) (bk : bolt.Bucket)
    (id : Hash) (sco : SiacoinOutput) :
  tx w !! SiacoinOutputs = Some bk →
  (is_Some (bk !! id) →
     addSiacoinOutput true id sco w
     = (Panic (panic_string "repeat siacoin output"), w))
  ∧ (bk !! id = None →
     removeSiacoinOutput true id w
     = (Panic (panic_string "nil siacoin output"), w)).
Proof.
  intros Hb. split; intros Hid.
  - eapply addSiacoinOutput_repeat; eauto.
  - eapply removeSiacoinOutput_nil; eauto.
Qed.

(** C8. For an output id [x] not in the set and an output [v], after
    [addSiacoinOutput x v] the lookup [getSiacoinOutput x] returns [v] with
    no error and [isSiacoinOutput x] is true; after [removeSiacoinOutput x]
    it is false, and the transaction is back to what it was. *)
Theorem output_ledger_round_trip (DEBUG : bool) (w : World) (bk : bolt.Bucket)
    (x : Hash) (v : SiacoinOutput) :
  tx w !! SiacoinOutputs = Some bk → bk !! x = None →
  wf_Hash x → wf_SiacoinOutput v →
  ∃ w1 w2,
    addSiacoinOutput DEBUG x v w = (Ok tt, w1)
    ∧ getSiacoinOutput x w1 = (Ok (v, None), w1)
    ∧ isSiacoinOutput x w1 = (Ok true, w1)
    ∧ removeSiacoinOutput DEBUG x w1 = (Ok tt, w2)
    ∧ isSiacoinOutput x w2 = (Ok false, w2)
    ∧ w2 = w.
Proof.
  intros Hb Hx Hwx Hwv.
  set (bk1 := <[x := Marshal (reflect_SiacoinOutput v)]> bk).
  set (w1 := mkWorld (<[SiacoinOutputs := bk1]> (tx w)) (stdout w)).
  assert (Hb1 : tx w1 !! SiacoinOutputs = Some bk1) by apply lookup_insert_eq.
  assert (Hx1 : bk1 !! x = Some (Marshal (reflect_SiacoinOutput v)))
    by apply lookup_insert_eq.
  exists w1, w. split; [|split; [|split; [|split; [|split]]]].
  - apply addSiacoinOutput_fresh; assumption.
  - eapply getSiacoinOutput_stored; eassumption.
  - rewrite (isSiacoinOutput_run w1 bk1) by exact Hb1.
    rewrite Hx1. reflexivity.
  - rewrite (removeSiacoinOutput_present DEBUG w1 bk1) by (rewrite ?Hx1; eauto).
    unfold w1, bk1. cbn [tx stdout].
    rewrite insert_insert_eq, delete_insert_id by exact Hx.
    rewrite tx_insert_id by exact Hb. reflexivity.
  - rewrite (isSiacoinOutput_run w bk) by exact Hb. rewrite Hx. reflexivity.
  - reflexivity.
Qed.

(** ** The chain index *)

Lemma int64_small (z : Z) : 0 ≤ z < 2 ^ 63 → int64 z = z.
Proof. intros. unfold int64. rewrite Z.mod_small; lia. Qed.

Lemma int64_high (z : Z) : 2 ^ 63 ≤ z < 2 ^ 64 → int64 z = z - 2 ^ 64.
Proof.
  intros. unfold int64.
  replace (z + 2 ^ 63) with ((z - 2 ^ 63) + 1 * 2 ^ 64) by lia.
  rewrite Z.mod_add by lia. rewrite Z.mod_small; lia.
Qed.

Section ChainIndex.
Variable DEBUG : bool.

Lemma blockHeight_decoded (w : World) (bk : bolt.Bucket) (hb : bytes) (z : Z) :
  tx w !! BlockHeight = Some bk → bk !! BlockHeight = Some hb →
  Unmarshal decodeInt hb = Some z →
  blockHeight DEBUG w
  = if z <? 0 then (Panic (panic_int z), w) else (Ok (uint64 z), w).
Proof.
  intros Hb Hh Hz. unfold blockHeight. mstep. mstep. rewrite Hh.
  erewrite Unmarshal_into_Some by exact Hz. mstep.
  destruct (z <? 0); reflexivity.
Qed.

Lemma blockHeight_stored (w : World) (h : Z) :
  stored_height w h → 0 ≤ h < 2 ^ 63 → blockHeight DEBUG w = (Ok h, w).
Proof.
  intros (bk & Hb & Hh) Hr. unfold blockHeight. mstep. mstep. rewrite Hh.
  erewrite Unmarshal_into_Some by apply Unmarshal_Int_of_Uint.
  rewrite uint64_small, int64_small by lia.
  assert (when DEBUG (panic_on None) w = (Ok tt, w)) as Hw
    by (destruct DEBUG; reflexivity).
  erewrite bind_run by exact Hw.
  destruct (Z.ltb_spec h 0); [lia|]. rewrite uint64_small by lia. reflexivity.
Qed.

Lemma blockHeight_negative (w : World) (h : Z) :
  stored_height w h → 2 ^ 63 ≤ h < 2 ^ 64 →
  blockHeight DEBUG w = (Panic (panic_int (h - 2 ^ 64)), w).
Proof.
  intros (bk & Hb & Hh) Hr. unfold blockHeight. mstep. mstep. rewrite Hh.
  erewrite Unmarshal_into_Some by apply Unmarshal_Int_of_Uint.
  rewrite uint64_small, int64_high by lia.
  assert (when DEBUG (panic_on None) w = (Ok tt, w)) as Hw
    by (destruct DEBUG; reflexivity).
  erewrite bind_run by exact Hw.
  destruct (Z.ltb_spec (h - 2 ^ 64) 0); [|lia]. reflexivity.
Qed.

Lemma EncUint64_congr (a b : Z) : uint64 a = uint64 b → EncUint64 a = EncUint64 b.
Proof. intros H. rewrite <- (EncUint64_uint64 a), H. apply EncUint64_uint64. Qed.

Lemma Marshal_succ (h : Z) :
  Marshal (Uint (uint64 (uint64 h + 1))) = Marshal (Uint (h + 1)).
Proof.
  cbn [Marshal]. rewrite EncUint64_uint64. apply EncUint64_congr.
  unfold uint64. apply Z.add_mod_idemp_l. lia.
Qed.

Lemma Marshal_pred (h : Z) :
  Marshal (Uint (uint64 (uint64 h - 1))) = Marshal (Uint (h - 1)).
Proof.
  cbn [Marshal]. rewrite EncUint64_uint64. apply EncUint64_congr.
  unfold uint64. apply Zminus_mod_idemp_l.
Qed.

Lemma Marshal_Uint_inj (a b : Z) :
  wf_uint64 a → wf_uint64 b → Marshal (Uint a) = Marshal (Uint b) → a = b.
Proof. apply EncUint64_inj. Qed.

Lemma pushPath_run (w : World) (bh bp : bolt.Bucket) (h : Z) (bid : Hash) :
  tx w !! BlockHeight = Some bh →
  bh !! BlockHeight = Some (Marshal (Uint h)) →
  tx w !! BlockPath = Some bp →
  wf_Hash bid →
  pushPath DEBUG bid w
  = (Ok tt,
     mkWorld (<[BlockPath := <[Marshal (Uint (h + 1)) := bid]> bp]>
                (<[BlockHeight := <[BlockHeight := Marshal (Uint (h + 1))]> bh]>
                   (tx w)))
             (stdout w)).
Proof.
  intros Hbh Hh Hbp Hid. unfold pushPath. mstep. mstep. rewrite Hh.
  erewrite Unmarshal_into_Some by apply Unmarshal_Uint.
  mstep. rewrite Marshal_succ. do 4 mstep. mdone.
Qed.

Lemma popPath_run (w : World) (bh bp : bolt.Bucket) (h : Z) :
  tx w !! BlockHeight = Some bh →
  bh !! BlockHeight = Some (Marshal (Uint h)) →
  tx w !! BlockPath = Some bp →
  popPath DEBUG w
  = (Ok tt,
     mkWorld (<[BlockPath := delete (Marshal (Uint h)) bp]>
                (<[BlockHeight := <[BlockHeight := Marshal (Uint (h - 1))]> bh]>
                   (tx w)))
             (stdout w)).
Proof.
  intros Hbh Hh Hbp. unfold popPath. mstep. mstep. rewrite Hh.
  erewrite Unmarshal_into_Some by apply Unmarshal_Uint.
  mstep. rewrite Marshal_pred. do 4 mstep. mdone.
Qed.

Lemma getPath_run (w : World) (bp : bolt.Bucket) (k : Z) (id : Hash) :
  tx w !! BlockPath = Some bp → bp !! Marshal (Uint k) = Some id → wf_Hash id →
  getPath DEBUG k w = (Ok id, w).
Proof.
  intros Hbp Hk Hid. unfold getPath. mstep. mstep. rewrite Hk.
  erewrite Unmarshal_into_Some by (apply Unmarshal_Hash, Hid).
  mstep. reflexivity.
Qed.

Lemma tx_CreateBucketIfNotExists_run (name : bytes) (w : World) :
  name ≠ [] →
  tx_CreateBucketIfNotExists name w
  = (Ok (Some name, None), mkWorld (ensure_bucket name (tx w)) (stdout w)).
Proof.
  intros Hn. unfold tx_CreateBucketIfNotExists, bolt.CreateBucketIfNotExists,
    bolt.CreateBucket, ensure_bucket.
  rewrite decide_False by exact Hn.
  destruct (tx w !! name); reflexivity.
Qed.

Lemma ensure_bucket_lookup (name : bytes) (t : bolt.Tx) :
  is_Some (ensure_bucket name t !! name).
Proof.
  unfold ensure_bucket. destruct (t !! name) eqn:E.
  - rewrite E. eauto.
  - rewrite lookup_insert_eq. eauto.
Qed.

Lemma ensure_bucket_preserves (name n : bytes) (t : bolt.Tx) :
  is_Some (t !! n) → is_Some (ensure_bucket name t !! n).
Proof.
  intros H. unfold ensure_bucket. destruct (t !! name) eqn:E; [exact H|].
  destruct (decide (name = n)) as [->|Hne].
  - rewrite lookup_insert_eq. eauto.
  - rewrite lookup_insert_ne by exact Hne. exact H.
Qed.

Lemma ensure_buckets_lookup (names : list bytes) (n : bytes) (t : bolt.Tx) :
  n ∈ names ∨ is_Some (t !! n) →
  is_Some (foldl (flip ensure_bucket) t names !! n).
Proof.
  revert t. induction names as [|a names IH]; intros t H; cbn [foldl].
  - destruct H as [H|H]; [inversion H | exact H].
  - apply IH. destruct H as [H|H].
    + apply elem_of_cons in H as [->|H]; [right; apply ensure_bucket_lookup | left; exact H].
    + right. apply ensure_bucket_preserves, H.
Qed.

Lemma initDB_createBuckets_run (buckets : list bytes) (w : World) :
  Forall (λ n, n ≠ []) buckets →
  initDB_createBuckets buckets w
  = (Ok None, mkWorld (foldl (flip ensure_bucket) (tx w) buckets) (stdout w)).
Proof.
  intros H. revert w. induction H as [|n names Hn _ IH]; intros w.
  - cbn. rewrite World_eta. reflexivity.
  - cbn [initDB_createBuckets foldl].
    erewrite bind_run by (apply tx_CreateBucketIfNotExists_run, Hn).
    cbn [snd]. rewrite IH. reflexivity.
Qed.

(** The names of the buckets [initDB] creates. *)
Lemma initDB_buckets_nonempty :
  Forall (λ n : bytes, n ≠ [])
    [BlockPath; BlockMap; SiacoinOutputs; FileContracts;
     FileContractExpirations; SiafundOutputs; SiafundPool; BlockHeight].
Proof. repeat constructor; (vm_compute; discriminate). Qed.

Lemma initDB_setHeight_run (w : World) :
  ∃ t bh,
    t = foldl (flip ensure_bucket) (tx w)
          [BlockPath; BlockMap; SiacoinOutputs; FileContracts;
           FileContractExpirations; SiafundOutputs; SiafundPool; BlockHeight]
    ∧ t !! BlockHeight = Some bh
    ∧ initDB_setHeight w
      = (Ok None,
         mkWorld (<[BlockHeight :=
                      <[BlockHeight := Marshal (Uint (uint64 (0 - 1)))]> bh]> t)
                 (stdout w)).
Proof.
  eexists. 
  destruct (ensure_buckets_lookup
              [BlockPath; BlockMap; SiacoinOutputs; FileContracts;
               FileContractExpirations; SiafundOutputs; SiafundPool; BlockHeight]
              BlockHeight (tx w)) as [bh Hbh].
  { left. set_solver. }
  exists bh. split; [reflexivity|]. split; [exact Hbh|].
  unfold initDB_setHeight.
  erewrite bind_run by (apply initDB_createBuckets_run, initDB_buckets_nonempty).
  mstep. mdone.
Qed.

End ChainIndex.

(** C4. Initialisation stores the height counter as [0 - 1] in unsigned
    64-bit arithmetic, that is 2^64 - 1. From a state whose counter holds
    that value, pushing a block makes [blockHeight] return exactly 0 and the
    pushed id is the path entry at height 0. [blockHeight] panics whenever
    the counter read as a signed integer is negative; in particular it
    panics with -1 between the initialisation of the counter and the first
    push. *)
Theorem genesis_height_counter (DEBUG : bool) :
  uint64 (0 - 1) = 2 ^ 64 - 1
  ∧ (∀ w0, ∃ w1,
       initDB_setHeight w0 = (Ok None, w1)
       ∧ stored_height w1 (uint64 (0 - 1))
       ∧ is_Some (tx w1 !! BlockPath)
       ∧ blockHeight DEBUG w1 = (Panic (panic_int (-1)), w1))
  ∧ (∀ w (B : Hash),
       stored_height w (2 ^ 64 - 1) → is_Some (tx w !! BlockPath) → wf_Hash B →
       ∃ w', pushPath DEBUG B w = (Ok tt, w')
             ∧ blockHeight DEBUG w' = (Ok 0, w')
             ∧ getPath DEBUG 0 w' = (Ok B, w'))
  ∧ (∀ w (bk : bolt.Bucket) (hb : bytes) (z : Z),
       tx w !! BlockHeight = Some bk → bk !! BlockHeight = Some hb →
       Unmarshal decodeInt hb = Some z → z < 0 →
       blockHeight DEBUG w = (Panic (panic_int z), w)).
Proof.
  split; [reflexivity|]. split; [|split].
  - intros w0. destruct (initDB_setHeight_run w0) as (t & bh & Ht & Hbh & Hrun).
    eexists. split; [exact Hrun|].
    assert (Hs : stored_height
                   (mkWorld (<[BlockHeight :=
                        <[BlockHeight := Marshal (Uint (uint64 (0 - 1)))]> bh]> t)
                      (stdout w0)) (uint64 (0 - 1))).
    { eexists. split; [apply lookup_insert_eq | apply lookup_insert_eq]. }
    split; [exact Hs|]. split.
    + cbn [tx]. rewrite lookup_insert_ne by (vm_compute; discriminate).
      rewrite Ht. apply ensure_buckets_lookup. left. set_solver.
    + rewrite (blockHeight_negative DEBUG _ _ Hs) by (vm_compute; split; congruence).
      reflexivity.
  - intros w B (bh & Hbh & Hh) [bp Hbp] HB.
    eexists. split; [eapply pushPath_run; eassumption|]. split.
    + apply blockHeight_stored; [|lia].
      eexists. split; [cbn [tx]; rewrite lookup_insert_ne by (vm_compute; discriminate);
                       apply lookup_insert_eq|].
      rewrite lookup_insert_eq. reflexivity.
    + eapply getPath_run; [apply lookup_insert_eq | | exact HB].
      change (Marshal (Uint (2 ^ 64 - 1 + 1))) with (Marshal (Uint 0)).
      apply lookup_insert_eq.
  - intros w bk hb z Hb Hh Hz Hneg.
    rewrite (blockHeight_decoded DEBUG w bk hb z Hb Hh Hz).
    destruct (Z.ltb_spec z 0); [reflexivity|lia].
Qed.

Lemma path_entry_push (w : World) (bh' bp : bolt.Bucket) (h k : Z) (B : Hash) :
  tx w !! BlockPath = Some bp →
  path_entry
    (mkWorld (<[BlockPath := <[Marshal (Uint (h + 1)) := B]> bp]>
                (<[BlockHeight := bh']> (tx w))) (stdout w)) k
  = if decide (Marshal (Uint k) = Marshal (Uint (h + 1))) then Some B
    else path_entry w k.
Proof.
  intros Hbp. unfold path_entry. cbn [tx].
  rewrite lookup_insert_eq, Hbp. cbn [mbind option_bind].
  case_decide as E.
  - rewrite E. apply lookup_insert_eq.
  - apply lookup_insert_ne. congruence.
Qed.

(** C5. From a state whose counter holds a height [h] that [blockHeight]
    reads back and whose path is contiguous up to [h]: [pushPath B] stores
    [h + 1] in the counter ([blockHeight] returns it as long as it fits Go's
    signed [int]), makes [B] the path entry at [h + 1], leaves the entries at
    heights up to [h] as they were and the path contiguous up to [h + 1];
    the [popPath] that follows brings [blockHeight] back to [h], removes the
    entry at [h + 1], and restores the state exactly. *)
Theorem chain_index_push_pop (DEBUG : bool) (w : World) (h : Z) (B : Hash) :
  stored_height w h → 0 ≤ h < 2 ^ 63 → path_contiguous w h → wf_Hash B →
  ∃ w1 w2,
    blockHeight DEBUG w = (Ok h, w)
    ∧ pushPath DEBUG B w = (Ok tt, w1)
    ∧ stored_height w1 (h + 1)
    ∧ (h + 1 < 2 ^ 63 → blockHeight DEBUG w1 = (Ok (h + 1), w1))
    ∧ getPath DEBUG (h + 1) w1 = (Ok B, w1)
    ∧ (∀ k, wf_uint64 k → k ≤ h → path_entry w1 k = path_entry w k)
    ∧ path_contiguous w1 (h + 1)
    ∧ popPath DEBUG w1 = (Ok tt, w2)
    ∧ blockHeight DEBUG w2 = (Ok h, w2)
    ∧ path_entry w2 (h + 1) = None
    ∧ w2 = w.
Proof.
  intros Hs Hr [[bp Hbp] Hc] HB.
  pose proof Hs as (bh & Hbh & Hh).
  assert (Hwf1 : wf_uint64 (h + 1)) by (unfold wf_uint64; lia).
  assert (Hfresh : bp !! Marshal (Uint (h + 1)) = None).
  { destruct (bp !! Marshal (Uint (h + 1))) eqn:E; [|reflexivity].
    assert (is_Some (path_entry w (h + 1))) as Hsome
      by (unfold path_entry; rewrite Hbp; cbn [mbind option_bind]; rewrite E; eauto).
    apply Hc in Hsome; [lia | exact Hwf1]. }
  set (bh1 := <[BlockHeight := Marshal (Uint (h + 1))]> bh).
  set (bp1 := <[Marshal (Uint (h + 1)) := B]> bp).
  set (w1 := mkWorld (<[BlockPath := bp1]> (<[BlockHeight := bh1]> (tx w))) (stdout w)).
  assert (Hbh1 : tx w1 !! BlockHeight = Some bh1).
  { cbn [w1 tx]. rewrite lookup_insert_ne by (vm_compute; discriminate).
    apply lookup_insert_eq. }
  assert (Hbp1 : tx w1 !! BlockPath = Some bp1) by apply lookup_insert_eq.
  assert (Hs1 : stored_height w1 (h + 1)).
  { exists bh1. split; [exact Hbh1 | apply lookup_insert_eq]. }
  assert (Hentry : ∀ k, wf_uint64 k →
            path_entry w1 k = if decide (k = h + 1) then Some B else path_entry w k).
  { intros k Hk. unfold w1, bp1. rewrite (path_entry_push w bh1 bp h k B Hbp).
    repeat case_decide; try reflexivity.
    - exfalso. eauto using Marshal_Uint_inj.
    - congruence. }
  exists w1, w. repeat split.
  - apply blockHeight_stored; assumption.
  - eapply pushPath_run; eassumption.
  - exact Hs1.
  - intros Hlt. apply blockHeight_stored; [exact Hs1 | lia].
  - eapply getPath_run; [exact Hbp1 | apply lookup_insert_eq | exact HB].
  - intros k Hk Hle. rewrite Hentry by exact Hk.
    rewrite decide_False by lia. reflexivity.
  - eauto.
  - rewrite Hentry by assumption. case_decide; [lia|]. intros Hk. apply Hc in Hk; [lia|assumption].
  - rewrite Hentry by assumption. case_decide; [eauto|]. intros Hk. apply Hc; [assumption|lia].
  - rewrite (popPath_run DEBUG w1 bh1 bp1 (h + 1) Hbh1 (lookup_insert_eq _ _ _) Hbp1).
    f_equal. unfold w1, bh1, bp1. cbn [tx stdout].
    replace (h + 1 - 1) with h by lia.
    rewrite insert_insert_eq, delete_insert_id by exact Hfresh.
    rewrite (insert_id bh) by exact Hh.
    transitivity (mkWorld (tx w) (stdout w)); [|apply World_eta]. f_equal.
    apply map_eq. intros n.
    destruct (decide (n = BlockPath)) as [->|Hn1];
      [rewrite lookup_insert_eq; symmetry; exact Hbp|].
    rewrite lookup_insert_ne by congruence.
    destruct (decide (n = BlockHeight)) as [->|Hn2];
      [rewrite lookup_insert_eq; symmetry; exact Hbh|].
    rewrite lookup_insert_ne by congruence.
    rewrite lookup_insert_ne by congruence.
    rewrite lookup_insert_ne by congruence. reflexivity.
  - apply blockHeight_stored; assumption.
  - unfold path_entry. rewrite Hbp. cbn [mbind option_bind]. exact Hfresh.
Qed.

(** ** The block store *)

Section BlockStore.
Variable DEBUG : bool.
Variable Block : Type.
Variable Block_ID : Block → Hash.
Variable Marshal_processedBlock : processedBlock Block → bytes.

Lemma addBlockMap_run (w : World) (bm : bolt.Bucket) (pb : processedBlock Block) :
  tx w !! BlockMap = Some bm → wf_Hash (Block_ID (pb_Block pb)) →
  addBlockMap DEBUG Block_ID Marshal_processedBlock pb w
  = (Ok tt,
     mkWorld (<[BlockMap := <[Block_ID (pb_Block pb) := Marshal_processedBlock pb]> bm]>
                (tx w))
             (stdout w)).
Proof.
  intros Hbm Hid. unfold addBlockMap. mstep. mstep. mdone.
Qed.

End BlockStore.

(** C1, as the code has it. [addBlockMap] makes no check for an existing
    record: for a processed block whose id already has an entry in the block
    map it returns normally, the record stored under that id is afterwards
    the encoding of the block just put, and the records of all other ids are
    untouched. *)
Theorem addBlockMap_overwrites (DEBUG : bool) (Block : Type)
    (Block_ID : Block → Hash) (Marshal_processedBlock : processedBlock Block → bytes)
    (w : World) (pb : processedBlock Block) :
  wf_Hash (Block_ID (pb_Block pb)) →
  is_Some (block_record w (Block_ID (pb_Block pb))) →
  ∃ w',
    addBlockMap DEBUG Block_ID Marshal_processedBlock pb w = (Ok tt, w')
    ∧ block_record w' (Block_ID (pb_Block pb)) = Some (Marshal_processedBlock pb)
    ∧ ∀ id, id ≠ Block_ID (pb_Block pb) → block_record w' id = block_record w id.
Proof.
  intros Hid [old Hold]. unfold block_record in Hold.
  destruct (tx w !! BlockMap) as [bm|] eqn:Hbm; [|discriminate].
  eexists. split; [eapply addBlockMap_run; eassumption|]. split.
  - unfold block_record. cbn [tx]. rewrite lookup_insert_eq. cbn [mbind option_bind].
    apply lookup_insert_eq.
  - intros id Hne. unfold block_record. cbn [tx].
    rewrite lookup_insert_eq, Hbm. cbn [mbind option_bind].
    apply lookup_insert_ne. congruence.
Qed.

(** ** The maturation queue *)

Lemma dsco_bucketID_nonempty (tail : bytes) : prefix_dsco ++ tail ≠ [].
Proof. vm_compute. discriminate. Qed.

Lemma entries_singleton (k v : bytes) : bolt.entries {[k := v]} = [(k, v)].
Proof. unfold bolt.entries. rewrite map_to_list_singleton. reflexivity. Qed.

Section MaturationQueue.
Variable DEBUG : bool.

Lemma addDSCO_dscoBucketID_Marshal (bh : Z) :
  addDSCO_dscoBucketID bh = prefix_dsco ++ Marshal (Uint bh).
Proof.
  unfold addDSCO_dscoBucketID. cbn [Marshal]. rewrite EncUint64_uint64. reflexivity.
Qed.

Lemma createDSCOBucket_run (w : World) (bh : Z) :
  tx w !! createDSCOBucket_bucketID bh = None →
  createDSCOBucket DEBUG bh w
  = (Ok tt, mkWorld (<[createDSCOBucket_bucketID bh := ∅]> (tx w)) (stdout w)).
Proof.
  intros Hn. unfold createDSCOBucket.
  assert (tx_CreateBucket (createDSCOBucket_bucketID bh) w
          = (Ok (Some (createDSCOBucket_bucketID bh), None),
             mkWorld (<[createDSCOBucket_bucketID bh := ∅]> (tx w)) (stdout w))) as Hc.
  { unfold tx_CreateBucket, bolt.CreateBucket.
    rewrite decide_False by apply dsco_bucketID_nonempty. rewrite Hn. reflexivity. }
  erewrite bind_run by exact Hc. mdone.
Qed.

Lemma createDSCOBucket_exists (w : World) (bh : Z) :
  DEBUG = true → is_Some (tx w !! createDSCOBucket_bucketID bh) →
  createDSCOBucket DEBUG bh w
  = (Panic (panic_error (boltError bolt.ErrBucketExists)), w).
Proof.
  intros -> [bk Hb]. unfold createDSCOBucket.
  assert (tx_CreateBucket (createDSCOBucket_bucketID bh) w
          = (Ok (None, Some (boltError bolt.ErrBucketExists)), w)) as Hc.
  { unfold tx_CreateBucket, bolt.CreateBucket.
    rewrite decide_False by apply dsco_bucketID_nonempty. rewrite Hb. reflexivity. }
  erewrite bind_run by exact Hc. reflexivity.
Qed.

Lemma addDSCO_run (w : World) (so bk : bolt.Bucket) (bh : Z) (id : Hash)
    (sco : SiacoinOutput) :
  tx w !! SiacoinOutputs = Some so → so !! id = None →
  tx w !! (prefix_dsco ++ Marshal (Uint bh)) = Some bk → bk !! id = None →
  wf_Hash id →
  addDSCO DEBUG bh id sco w
  = (Ok tt,
     mkWorld (<[prefix_dsco ++ Marshal (Uint bh) :=
                  <[id := Marshal (reflect_SiacoinOutput sco)]> bk]> (tx w))
             (stdout w)).
Proof.
  intros Hso Hid Hb Hbid Hwf. unfold addDSCO.
  rewrite addDSCO_dscoBucketID_Marshal.
  destruct DEBUG; unfold when.
  - repeat mstep. rewrite Hid, not_nil_None. repeat mstep.
    rewrite Hbid, not_nil_None. repeat mstep. mdone.
  - repeat mstep. mdone.
Qed.

Lemma removeDSCO_run (w : World) (bk : bolt.Bucket) (bh : Z) (id : Hash) :
  tx w !! removeDSCO_bucketID bh = Some bk →
  removeDSCO DEBUG bh id w
  = (Ok tt,
     mkWorld (<[removeDSCO_bucketID bh := delete id bk]> (tx w))
             (stdout w ++ if DEBUG && negb (not_nil (bk !! id))
                          then [("NIL DSCO"%string, id)] else [])).
Proof.
  intros Hb. unfold removeDSCO. mstep.
  destruct DEBUG; unfold when.
  - repeat mstep. destruct (bk !! id) as [v|] eqn:Hid.
    + rewrite not_nil_Some. repeat mstep. cbn [negb andb]. rewrite app_nil_r. mdone.
    + rewrite not_nil_None. cbn [negb andb].
      assert (Println "NIL DSCO" id w
              = (Ok tt, mkWorld (tx w) (stdout w ++ [("NIL DSCO"%string, id)])))
        as Hp by reflexivity.
      erewrite bind_run by exact Hp. repeat mstep. mdone.
  - repeat mstep. cbn [andb]. rewrite app_nil_r. mdone.
Qed.

Lemma deleteDSCOBucket_run (w : World) (bk : bolt.Bucket) (h : Z) :
  tx w !! deleteDSCOBucket_bucketID h = Some bk →
  deleteDSCOBucket DEBUG h w
  = (Ok tt, mkWorld (delete (deleteDSCOBucket_bucketID h) (tx w)) (stdout w)).
Proof.
  intros Hb. unfold deleteDSCOBucket. mstep.
  assert (bool_decide (is_Some (Some (deleteDSCOBucket_bucketID h))) = true) as ->
    by reflexivity.
  rewrite andb_false_r. mstep.
  assert (tx_DeleteBucket (deleteDSCOBucket_bucketID h) w
          = (Ok None, mkWorld (delete (deleteDSCOBucket_bucketID h) (tx w)) (stdout w)))
    as Hd.
  { unfold tx_DeleteBucket, bolt.DeleteBucket. rewrite Hb. reflexivity. }
  erewrite bind_run by exact Hd. mdone.
Qed.

Lemma deleteDSCOBucket_nil (w : World) (h : Z) :
  DEBUG = true → tx w !! deleteDSCOBucket_bucketID h = None →
  deleteDSCOBucket DEBUG h w = (Panic (panic_error errNilBucket), w).
Proof.
  intros -> Hb. unfold deleteDSCOBucket. mstep. reflexivity.
Qed.

Lemma forEachDSCO_singleton (w : World) (bh : Z) (id : Hash) (sco : SiacoinOutput)
    (fn : Hash → SiacoinOutput → M (option error)) :
  tx w !! forEachDSCO_bucketID bh = Some {[id := Marshal (reflect_SiacoinOutput sco)]} →
  wf_Hash id → wf_SiacoinOutput sco →
  forEachDSCO bh fn w = fn id sco w.
Proof.
  intros Hb Hid Hsco. unfold forEachDSCO. mstep.
  unfold b_ForEach, with_bucket. rewrite Hb, entries_singleton.
  cbn [forEach_entries].
  rewrite Unmarshal_Hash by exact Hid.
  rewrite Unmarshal_SiacoinOutput by exact Hsco.
  unfold bind. destruct (fn id sco w) as [[[e|]|p] w']; reflexivity.
Qed.

End MaturationQueue.

(** C10. The bucket name [addDSCO] computes from a height with
    [encoding.EncUint64] is the name that [createDSCOBucket], [removeDSCO],
    [deleteDSCOBucket] and [forEachDSCO] compute with [encoding.Marshal].
    Hence, in a bucket just created for a height, [addDSCO] stores the output
    under its id, [forEachDSCO] at that height calls its function on exactly
    that id and output, and [removeDSCO] leaves the bucket empty. *)
Theorem dsco_bucket_names_agree (DEBUG : bool) (bh : Z) :
  addDSCO_dscoBucketID bh = createDSCOBucket_bucketID bh
  ∧ addDSCO_dscoBucketID bh = removeDSCO_bucketID bh
  ∧ addDSCO_dscoBucketID bh = deleteDSCOBucket_bucketID bh
  ∧ addDSCO_dscoBucketID bh = forEachDSCO_bucketID bh
  ∧ ∀ (w : World) (so : bolt.Bucket) (id : Hash) (sco : SiacoinOutput),
      tx w !! SiacoinOutputs = Some so → so !! id = None →
      tx w !! createDSCOBucket_bucketID bh = None →
      wf_Hash id → wf_SiacoinOutput sco →
      ∃ w1 w2 w3,
        createDSCOBucket DEBUG bh w = (Ok tt, w1)
        ∧ addDSCO DEBUG bh id sco w1 = (Ok tt, w2)
        ∧ tx w2 !! createDSCOBucket_bucketID bh
          = Some {[ id := Marshal (reflect_SiacoinOutput sco) ]}
        ∧ (∀ fn, forEachDSCO bh fn w2 = fn id sco w2)
        ∧ removeDSCO DEBUG bh id w2 = (Ok tt, w3)
        ∧ tx w3 !! createDSCOBucket_bucketID bh = Some ∅
        ∧ stdout w3 = stdout w.
Proof.
  pose proof (addDSCO_dscoBucketID_Marshal bh) as Hname.
  repeat (split; [exact Hname|]).
  intros w so id sco Hso Hid Hnone Hwid Hwsco.
  set (name := prefix_dsco ++ Marshal (Uint bh)) in *.
  change (createDSCOBucket_bucketID bh) with name in *.
  set (w1 := mkWorld (<[name := ∅]> (tx w)) (stdout w)).
  assert (Hne : name ≠ SiacoinOutputs) by (vm_compute; discriminate).
  assert (Hso1 : tx w1 !! SiacoinOutputs = Some so)
    by (cbn [w1 tx]; rewrite lookup_insert_ne by exact Hne; exact Hso).
  assert (Hb1 : tx w1 !! name = Some ∅) by apply lookup_insert_eq.
  set (w2 := mkWorld (<[name := <[id := Marshal (reflect_SiacoinOutput sco)]> ∅]> (tx w1))
                     (stdout w1)).
  assert (Hb2 : tx w2 !! name = Some {[ id := Marshal (reflect_SiacoinOutput sco) ]})
    by (cbn [w2 tx]; rewrite lookup_insert_eq, insert_empty; reflexivity).
  exists w1, w2. eexists. split; [|split; [|split; [|split; [|split; [|split]]]]].
  - apply createDSCOBucket_run. exact Hnone.
  - apply (addDSCO_run DEBUG w1 so ∅); auto.
  - exact Hb2.
  - intros fn. apply forEachDSCO_singleton; assumption.
  - apply (removeDSCO_run DEBUG w2 _ bh id Hb2).
  - cbn [tx]. rewrite lookup_insert_eq. f_equal. apply delete_singleton_eq.
  - cbn [stdout]. rewrite lookup_singleton_eq, not_nil_Some.
    cbn [negb]. rewrite andb_false_r. apply app_nil_r.
Qed.

(** ** The contract ledger *)

Lemma slice_app_middle (a m r : bytes) (lo hi : nat) :
  length a = lo → length m = (hi - lo)%nat → (lo ≤ hi)%nat →
  slice lo hi (a ++ m ++ r) = Some m.
Proof.
  intros Ha Hm Hle. unfold slice.
  rewrite decide_True by (rewrite !length_app; lia).
  rewrite drop_app_length' by (symmetry; exact Ha).
  rewrite take_app_length' by (symmetry; exact Hm). reflexivity.
Qed.

Lemma Marshal_FileContract_WindowEnd (fc : FileContract) :
  wf_Hash (FileMerkleRoot fc) →
  slice 48 56 (Marshal (reflect_FileContract fc)) = Some (Marshal (Uint (WindowEnd fc))).
Proof.
  intros Hroot. unfold reflect_FileContract.
  cbn [Marshal List.map List.concat].
  rewrite (app_assoc (EncUint64 (FileSize fc))).
  rewrite (app_assoc (EncUint64 (FileSize fc) ++ FileMerkleRoot fc)).
  apply slice_app_middle.
  - rewrite !length_app, !EncUint64_length, Hroot. reflexivity.
  - apply EncUint64_length.
  - lia.
Qed.

Lemma expirationBucketID_inj (a b : Z) :
  wf_uint64 a → wf_uint64 b → expirationBucketID a = expirationBucketID b → a = b.
Proof.
  intros Ha Hb E. unfold expirationBucketID in E.
  apply app_inv_head in E. eauto using Marshal_Uint_inj.
Qed.

Lemma fcex_ne_FileContracts (tail : bytes) : prefix_fcex ++ tail ≠ FileContracts.
Proof. vm_compute. discriminate. Qed.

Lemma fcex_nonempty (tail : bytes) : prefix_fcex ++ tail ≠ [].
Proof. vm_compute. discriminate. Qed.

Lemma ensure_bucket_lookup_eq (name : bytes) (t : bolt.Tx) :
  ensure_bucket name t !! name = Some (default ∅ (t !! name)).
Proof.
  unfold ensure_bucket. destruct (t !! name) eqn:E.
  - rewrite E. reflexivity.
  - apply lookup_insert_eq.
Qed.

Lemma insert_ensure_bucket (name : bytes) (t : bolt.Tx) (b : bolt.Bucket) :
  <[name := b]> (ensure_bucket name t) = <[name := b]> t.
Proof.
  unfold ensure_bucket. destruct (t !! name); [reflexivity|].
  apply insert_insert_eq.
Qed.

#[local] Hint Resolve fcex_ne_FileContracts fcex_nonempty ensure_bucket_lookup_eq : run.

Section ContractLedger.
Variable DEBUG : bool.

Lemma addFileContract_fresh (w : World) (fcs : bolt.Bucket) (id : Hash)
    (fc : FileContract) :
  tx w !! FileContracts = Some fcs → fcs !! id = None → wf_Hash id →
  addFileContract DEBUG id fc w
  = (Ok tt,
     mkWorld (<[expirationBucketID (WindowEnd fc) :=
                  <[id := []]> (default ∅ (tx w !! expirationBucketID (WindowEnd fc)))]>
                (<[FileContracts := <[id := Marshal (reflect_FileContract fc)]> fcs]>
                   (tx w)))
             (stdout w)).
Proof.
  intros Hb Hid Hwf. unfold addFileContract.
  assert (Hpre : ∀ k : unit → M unit,
            (x <- when DEBUG (v <- b_Get (Some FileContracts) id ;;
                              when (not_nil v) (panic (panic_string "repeat file contract"))) ;;
             k x) w = k tt w).
  { intros k. destruct DEBUG; unfold when; repeat mstep.
    - rewrite Hid, not_nil_None. repeat mstep. reflexivity.
    - reflexivity. }
  mstep. rewrite Hpre. repeat mstep.
  erewrite bind_run by (apply tx_CreateBucketIfNotExists_run, fcex_nonempty).
  repeat mstep.
  etransitivity; [apply when_panic_on_None|].
  rewrite insert_ensure_bucket.
  rewrite (lookup_insert_ne _ FileContracts) by (apply not_eq_sym, fcex_ne_FileContracts).
  reflexivity.
Qed.

Lemma addFileContract_repeat (w : World) (fcs : bolt.Bucket) (id : Hash)
    (fc : FileContract) :
  DEBUG = true → tx w !! FileContracts = Some fcs → is_Some (fcs !! id) →
  addFileContract DEBUG id fc w = (Panic (panic_string "repeat file contract"), w).
Proof.
  intros -> Hb [old Hid]. unfold addFileContract, when.
  repeat mstep. rewrite Hid, not_nil_Some. repeat mstep. reflexivity.
Qed.

Lemma removeFileContract_run (w : World) (fcs eb : bolt.Bucket) (id : Hash)
    (fcBytes windowEndBytes : bytes) :
  tx w !! FileContracts = Some fcs → fcs !! id = Some fcBytes →
  slice 48 56 fcBytes = Some windowEndBytes →
  tx w !! (prefix_fcex ++ windowEndBytes) = Some eb → is_Some (eb !! id) →
  removeFileContract DEBUG id w
  = (Ok tt,
     mkWorld (<[prefix_fcex ++ windowEndBytes := delete id eb]>
                (<[FileContracts := delete id fcs]> (tx w)))
             (stdout w)).
Proof.
  intros Hb Hid Hs He [m Hm]. unfold removeFileContract.
  repeat mstep. rewrite Hid, not_nil_Some. cbn [negb]. rewrite andb_false_r.
  repeat mstep. change (of_slice (Some fcBytes)) with fcBytes. rewrite Hs.
  repeat mstep. rewrite Hm, not_nil_Some. repeat mstep. mdone.
Qed.

Lemma removeFileContract_nil (w : World) (fcs : bolt.Bucket) (id : Hash) :
  DEBUG = true → tx w !! FileContracts = Some fcs → fcs !! id = None →
  removeFileContract DEBUG id w = (Panic (panic_string "nil file contract"), w).
Proof.
  intros -> Hb Hid. unfold removeFileContract.
  repeat mstep. rewrite Hid, not_nil_None. repeat mstep. reflexivity.
Qed.

Lemma removeFileContract_marker_missing (w : World) (fcs eb : bolt.Bucket)
    (id : Hash) (fcBytes windowEndBytes : bytes) :
  tx w !! FileContracts = Some fcs → fcs !! id = Some fcBytes →
  slice 48 56 fcBytes = Some windowEndBytes →
  tx w !! (prefix_fcex ++ windowEndBytes) = Some eb → eb !! id = None →
  removeFileContract DEBUG id w
  = (Panic (panic_error errNilItem),
     mkWorld (<[FileContracts := delete id fcs]> (tx w)) (stdout w)).
Proof.
  intros Hb Hid Hs He Hm. unfold removeFileContract.
  repeat mstep. rewrite Hid, not_nil_Some. cbn [negb]. rewrite andb_false_r.
  repeat mstep. change (of_slice (Some fcBytes)) with fcBytes. rewrite Hs.
  repeat mstep. rewrite Hm, not_nil_None. repeat mstep. reflexivity.
Qed.

Lemma removeFileContract_bucket_missing (w : World) (fcs : bolt.Bucket)
    (id : Hash) (fcBytes windowEndBytes : bytes) :
  tx w !! FileContracts = Some fcs → fcs !! id = Some fcBytes →
  slice 48 56 fcBytes = Some windowEndBytes →
  tx w !! (prefix_fcex ++ windowEndBytes) = None →
  removeFileContract DEBUG id w
  = (Panic nil_dereference,
     mkWorld (<[FileContracts := delete id fcs]> (tx w)) (stdout w)).
Proof.
  intros Hb Hid Hs He. unfold removeFileContract.
  repeat mstep. rewrite Hid, not_nil_Some. cbn [negb]. rewrite andb_false_r.
  repeat mstep. change (of_slice (Some fcBytes)) with fcBytes. rewrite Hs.
  assert (tx_Bucket (prefix_fcex ++ windowEndBytes)
            (mkWorld (<[FileContracts := delete id fcs]> (tx w)) (stdout w))
          = (Ok None, mkWorld (<[FileContracts := delete id fcs]> (tx w)) (stdout w)))
    as Hn.
  { apply tx_Bucket_None. cbn [tx].
    rewrite lookup_insert_ne by (apply not_eq_sym, fcex_ne_FileContracts). exact He. }
  erewrite bind_run by exact Hn. repeat mstep. reflexivity.
Qed.

End ContractLedger.

(** *** The expiration index *)

Lemma slice_length (lo hi : nat) (b m : bytes) :
  slice lo hi b = Some m → length m = (hi - lo)%nat.
Proof.
  unfold slice. case_decide as H; [|discriminate]. intros [= <-].
  rewrite length_take, length_drop. lia.
Qed.

Lemma bytes8_Marshal_Uint (b : bytes) :
  length b = 8%nat → ∃ h, wf_uint64 h ∧ b = Marshal (Uint h).
Proof.
  intros Hl. exists (le_combine b). split.
  - pose proof (le_combine_bound b) as Hb. rewrite Hl in Hb. exact Hb.
  - cbn [Marshal]. unfold EncUint64. rewrite <- Hl. symmetry. apply split_le_combine.
Qed.

Lemma expirationBucketID_ne_FileContracts (h : Z) :
  expirationBucketID h ≠ FileContracts.
Proof. apply fcex_ne_FileContracts. Qed.

Lemma contract_expires_unique (w : World) (id : Hash) (h h' : Z) :
  wf_uint64 h → wf_uint64 h' →
  contract_expires w id h → contract_expires w id h' → h = h'.
Proof.
  intros Hh Hh' (b & Hb & Hs) (b' & Hb' & Hs').
  assert (b' = b) as -> by congruence.
  assert (E : Marshal (Uint h) = Marshal (Uint h')) by congruence.
  exact (Marshal_Uint_inj h h' Hh Hh' E).
Qed.

(** The world [addFileContract] produces for a fresh id. *)
Lemma add_contract_record (t : bolt.Tx) (out : list Line) (fcs eb : bolt.Bucket)
    (id id' : Hash) (h : Z) (rec : bytes) :
  contract_record
    (mkWorld (<[expirationBucketID h := eb]> (<[FileContracts := <[id := rec]> fcs]> t)) out)
    id'
  = if decide (id' = id) then Some rec else fcs !! id'.
Proof.
  unfold contract_record. cbn [tx].
  rewrite lookup_insert_ne by apply expirationBucketID_ne_FileContracts.
  rewrite lookup_insert_eq. cbn [mbind option_bind].
  case_decide as E; [subst; apply lookup_insert_eq | apply lookup_insert_ne; congruence].
Qed.

Lemma add_expiration_marker (w : World) (fcs' : bolt.Bucket) (id id' : Hash) (h h' : Z) :
  wf_uint64 h → wf_uint64 h' →
  expiration_marker
    (mkWorld (<[expirationBucketID h :=
                  <[id := []]> (default ∅ (tx w !! expirationBucketID h))]>
                (<[FileContracts := fcs']> (tx w))) (stdout w))
    h' id'
  ↔ (h' = h ∧ id' = id) ∨ expiration_marker w h' id'.
Proof.
  intros Hh Hh'. unfold expiration_marker. cbn [tx].
  destruct (decide (h' = h)) as [->|Hne].
  - rewrite lookup_insert_eq. split.
    + intros (eb & [= <-] & Hsome).
      destruct (decide (id' = id)) as [->|Hid]; [left; auto|right].
      rewrite lookup_insert_ne in Hsome by congruence.
      destruct (tx w !! expirationBucketID h) as [eb0|]; cbn in Hsome.
      * eauto.
      * rewrite lookup_empty in Hsome. destruct Hsome as [? [=]].
    + intros [[_ ->]|(eb & Heb & Hsome)].
      * eexists. split; [reflexivity|]. rewrite lookup_insert_eq. eauto.
      * eexists. split; [reflexivity|]. rewrite Heb. cbn.
        destruct (decide (id' = id)) as [->|Hid];
          [rewrite lookup_insert_eq; eauto | rewrite lookup_insert_ne by congruence; exact Hsome].
  - assert (expirationBucketID h ≠ expirationBucketID h')
      by (intros E; apply Hne; symmetry; eauto using expirationBucketID_inj).
    rewrite lookup_insert_ne by assumption.
    rewrite lookup_insert_ne
      by (apply not_eq_sym, expirationBucketID_ne_FileContracts).
    split; [intros H'; right; exact H' | intros [[? _]|H']; [contradiction | exact H']].
Qed.

(** The world [removeFileContract] produces. *)
Lemma remove_contract_record (t : bolt.Tx) (out : list Line) (fcs eb : bolt.Bucket)
    (id id' : Hash) (h : Z) :
  contract_record
    (mkWorld (<[expirationBucketID h := eb]> (<[FileContracts := delete id fcs]> t)) out)
    id'
  = if decide (id' = id) then None else fcs !! id'.
Proof.
  unfold contract_record. cbn [tx].
  rewrite lookup_insert_ne by apply expirationBucketID_ne_FileContracts.
  rewrite lookup_insert_eq. cbn [mbind option_bind].
  case_decide as E; [subst; apply lookup_delete_eq | apply lookup_delete_ne; congruence].
Qed.

Lemma remove_expiration_marker (w : World) (fcs' eb : bolt.Bucket) (id id' : Hash)
    (h h' : Z) :
  wf_uint64 h → wf_uint64 h' → tx w !! expirationBucketID h = Some eb →
  expiration_marker
    (mkWorld (<[expirationBucketID h := delete id eb]>
                (<[FileContracts := fcs']> (tx w))) (stdout w))
    h' id'
  ↔ expiration_marker w h' id' ∧ ¬ (h' = h ∧ id' = id).
Proof.
  intros Hh Hh' Heb. unfold expiration_marker. cbn [tx].
  destruct (decide (h' = h)) as [->|Hne].
  - rewrite lookup_insert_eq, Heb. split.
    + intros (eb' & [= <-] & Hsome).
      destruct (decide (id' = id)) as [->|Hid].
      * rewrite lookup_delete_eq in Hsome. destruct Hsome as [? [=]].
      * rewrite lookup_delete_ne in Hsome by congruence.
        split; [eauto | intros [_ ?]; contradiction].
    + intros [(eb' & [= <-] & Hsome) Hnot].
      eexists. split; [reflexivity|].
      rewrite lookup_delete_ne; [exact Hsome|]. intros ->. apply Hnot. auto.
  - assert (expirationBucketID h ≠ expirationBucketID h')
      by (intros E; apply Hne; symmetry; eauto using expirationBucketID_inj).
    rewrite lookup_insert_ne by assumption.
    rewrite lookup_insert_ne
      by (apply not_eq_sym, expirationBucketID_ne_FileContracts).
    split; [intros H'; split; [exact H' | intros [? _]; contradiction] | intros [H' _]; exact H'].
Qed.

Lemma contract_record_lookup (w : World) (fcs : bolt.Bucket) (id : Hash) :
  tx w !! FileContracts = Some fcs → contract_record w id = fcs !! id.
Proof. intros H. unfold contract_record. rewrite H. reflexivity. Qed.

Lemma addFileContract_preserves (DEBUG : bool) (w : World) (id : Hash)
    (fc : FileContract) :
  expiration_index_agrees w → contract_record w id = None →
  wf_Hash id → wf_FileContract fc →
  ∃ w', addFileContract DEBUG id fc w = (Ok tt, w')
        ∧ expiration_index_agrees w'
        ∧ contract_record w' id = Some (Marshal (reflect_FileContract fc))
        ∧ expiration_marker w' (WindowEnd fc) id.
Proof.
  intros ([fcs Hfcs] & Hlen & Hagree) Hfresh Hid [Hroot Hwe].
  pose proof (contract_record_lookup w fcs) as Hrec.
  specialize (λ id, Hrec id Hfcs).
  rewrite Hrec in Hfresh.
  pose proof (Marshal_FileContract_WindowEnd fc Hroot) as Hslice.
  eexists. split; [apply addFileContract_fresh; eassumption|].
  assert (Hnew : ∀ h, wf_uint64 h →
            contract_expires
              (mkWorld (<[expirationBucketID (WindowEnd fc) :=
                            <[id := []]> (default ∅ (tx w !! expirationBucketID (WindowEnd fc)))]>
                          (<[FileContracts := <[id := Marshal (reflect_FileContract fc)]> fcs]>
                             (tx w))) (stdout w)) id h
            ↔ h = WindowEnd fc).
  { intros h Hh. unfold contract_expires. setoid_rewrite add_contract_record.
    rewrite decide_True by reflexivity. split.
    - intros (b & Hb & Hs).
      assert (b = Marshal (reflect_FileContract fc)) as -> by congruence.
      assert (E : Marshal (Uint (WindowEnd fc)) = Marshal (Uint h)) by congruence.
      symmetry. exact (Marshal_Uint_inj _ _ Hwe Hh E).
    - intros ->. eauto. }
  split; [|split].
  - split; [|split].
    + cbn [tx]. rewrite lookup_insert_ne by apply expirationBucketID_ne_FileContracts.
      rewrite lookup_insert_eq. eauto.
    + intros id' b. rewrite add_contract_record. case_decide as E.
      * intros Hb. assert (b = Marshal (reflect_FileContract fc)) as -> by congruence.
        rewrite Hslice. eauto.
      * intros Hb. apply (Hlen id'). rewrite Hrec. exact Hb.
    + intros id' h Hh. rewrite add_expiration_marker by assumption.
      destruct (decide (id' = id)) as [->|Hne].
      * rewrite Hnew by exact Hh. rewrite Hagree by exact Hh.
        split; [intros [[? _]|(b & Hb & _)]; [assumption | rewrite Hrec in Hb; congruence]
               | intros ->; left; auto].
      * rewrite Hagree by exact Hh. unfold contract_expires.
        setoid_rewrite add_contract_record. rewrite decide_False by exact Hne.
        setoid_rewrite Hrec.
        split; [intros [[_ ?]|H']; [contradiction | exact H'] | intros H'; right; exact H'].
  - rewrite add_contract_record. rewrite decide_True by reflexivity. reflexivity.
  - apply add_expiration_marker; auto.
Qed.

Lemma removeFileContract_preserves (DEBUG : bool) (w : World) (id : Hash) :
  expiration_index_agrees w → is_Some (contract_record w id) →
  ∃ w', removeFileContract DEBUG id w = (Ok tt, w')
        ∧ expiration_index_agrees w'
        ∧ contract_record w' id = None
        ∧ ∀ h, wf_uint64 h → ¬ expiration_marker w' h id.
Proof.
  intros ([fcs Hfcs] & Hlen & Hagree) [fcBytes Hstored].
  pose proof (contract_record_lookup w fcs) as Hrec.
  specialize (λ id, Hrec id Hfcs).
  destruct (Hlen id fcBytes Hstored) as [b8 Hs].
  destruct (bytes8_Marshal_Uint b8 (slice_length _ _ _ _ Hs)) as (h0 & Hh0 & ->).
  assert (Hexp : contract_expires w id h0) by (exists fcBytes; auto).
  destruct (proj2 (Hagree id h0 Hh0) Hexp) as (eb & Heb & Hmark).
  rewrite Hrec in Hstored.
  eexists. split.
  { apply (removeFileContract_run DEBUG w fcs eb id fcBytes (Marshal (Uint h0)));
      assumption. }
  change (prefix_fcex ++ Marshal (Uint h0)) with (expirationBucketID h0).
  split; [|split].
  - split; [|split].
    + cbn [tx]. rewrite lookup_insert_ne by apply expirationBucketID_ne_FileContracts.
      rewrite lookup_insert_eq. eauto.
    + intros id' b. rewrite remove_contract_record. case_decide as E; [discriminate|].
      intros Hb. apply (Hlen id'). rewrite Hrec. exact Hb.
    + intros id' h Hh. rewrite remove_expiration_marker by assumption.
      rewrite Hagree by exact Hh. unfold contract_expires.
      setoid_rewrite remove_contract_record. setoid_rewrite Hrec.
      destruct (decide (id' = id)) as [->|Hne].
      * split; [|intros (b & [=] & _)].
        intros [Hexp' Hnot]. exfalso. apply Hnot. split; [|reflexivity].
        apply (contract_expires_unique w id h h0); auto.
        destruct Hexp' as (b & Hb & Hs'). exists b. rewrite Hrec. auto.
      * split; [intros [H' _]; exact H' | intros H'; split; [exact H' | intros [_ ?]; contradiction]].
  - rewrite remove_contract_record. rewrite decide_True by reflexivity. reflexivity.
  - intros h Hh. rewrite remove_expiration_marker by assumption.
    intros [Hm Hnot]. apply Hnot. split; [|reflexivity].
    apply (contract_expires_unique w id h h0); auto. apply Hagree; assumption.
Qed.

Lemma removeFileContract_marker_fatal (DEBUG : bool) (w : World) (id : Hash)
    (fcBytes : bytes) (h : Z) :
  contract_record w id = Some fcBytes →
  slice 48 56 fcBytes = Some (Marshal (Uint h)) →
  ¬ expiration_marker w h id →
  fatal (removeFileContract DEBUG id w).
Proof.
  intros Hstored Hs Hno. unfold contract_record in Hstored.
  destruct (tx w !! FileContracts) as [fcs|] eqn:Hfcs; [|discriminate].
  cbn [mbind option_bind] in Hstored.
  destruct (tx w !! (prefix_fcex ++ Marshal (Uint h))) as [eb|] eqn:Heb.
  - destruct (eb !! id) as [m|] eqn:Hm.
    + exfalso. apply Hno. exists eb. rewrite Hm. eauto.
    + erewrite removeFileContract_marker_missing by eassumption. exact I.
  - erewrite removeFileContract_bucket_missing by eassumption. exact I.
Qed.

(** C2, as the code has it. The ledger's operations keep the expiration
    index in agreement with the primary contract bucket as long as no id is
    added while it is present. Adding a contract whose id is not in
    the primary bucket stores the record and a marker in the expiration
    bucket of its window end (a bucket created on demand) and the agreement
    still holds; with the debug assertions enabled, adding an id that is
    already present panics before anything is written. Removing a contract
    deletes the record and its marker together, the expiration bucket being
    found from bytes 48 to 56 of the stored record, and the agreement still
    holds. Whenever the marker that those bytes point to is missing,
    the removal panics. Without the debug assertions an id that is present
    can be added again, and the agreement is then not kept. *)
Theorem expiration_index_consistent (DEBUG : bool) :
  (∀ w id fc,
     expiration_index_agrees w → contract_record w id = None →
     wf_Hash id → wf_FileContract fc →
     ∃ w', addFileContract DEBUG id fc w = (Ok tt, w')
           ∧ expiration_index_agrees w'
           ∧ contract_record w' id = Some (Marshal (reflect_FileContract fc))
           ∧ expiration_marker w' (WindowEnd fc) id)
  ∧ (∀ w id fc,
       is_Some (contract_record w id) →
       addFileContract true id fc w
       = (Panic (panic_string "repeat file contract"), w))
  ∧ (∀ w id,
       expiration_index_agrees w → is_Some (contract_record w id) →
       ∃ w', removeFileContract DEBUG id w = (Ok tt, w')
             ∧ expiration_index_agrees w'
             ∧ contract_record w' id = None
             ∧ ∀ h, wf_uint64 h → ¬ expiration_marker w' h id)
  ∧ (∀ w id fcBytes h,
       contract_record w id = Some fcBytes →
       slice 48 56 fcBytes = Some (Marshal (Uint h)) →
       ¬ expiration_marker w h id →
       fatal (removeFileContract DEBUG id w)).
Proof.
  split; [|split; [|split]].
  - intros w id fc. apply addFileContract_preserves.
  - intros w id fc Hsome. unfold contract_record in Hsome.
    destruct (tx w !! FileContracts) as [fcs|] eqn:Hfcs;
      [|destruct Hsome as [? [=]]].
    eapply addFileContract_repeat; eauto.
  - intros w id. apply removeFileContract_preserves.
  - intros w id fcBytes h. apply removeFileContract_marker_fatal.
Qed.

(** ** The siafund ledger *)

Section SiafundLedger.
Variable DEBUG : bool.

Lemma addSiafundOutput_fresh (w : World) (bk : bolt.Bucket) (id : Hash)
    (sfo : SiafundOutput) :
  tx w !! SiafundOutputs = Some bk → bk !! id = None → wf_Hash id →
  addSiafundOutput DEBUG id sfo w
  = (Ok tt, mkWorld (<[SiafundOutputs :=
                         <[id := Marshal (reflect_SiafundOutput sfo)]> bk]> (tx w))
                    (stdout w)).
Proof.
  intros Hb Hid Hwf. unfold addSiafundOutput.
  mstep. destruct DEBUG; unfold when.
  - repeat mstep. rewrite Hid, not_nil_None. repeat mstep. mdone.
  - repeat mstep. mdone.
Qed.

Lemma removeSiafundOutput_nil (w : World) (bk : bolt.Bucket) (id : Hash) :
  DEBUG = true → tx w !! SiafundOutputs = Some bk → bk !! id = None →
  removeSiafundOutput DEBUG id w = (Panic (panic_string "nil siafund output"), w).
Proof.
  intros -> Hb Hid. unfold removeSiafundOutput, when.
  repeat mstep. rewrite Hid, not_nil_None. repeat mstep. reflexivity.
Qed.

Lemma setSiafundPool_run (w : World) (bk : bolt.Bucket) (c : Currency) :
  tx w !! SiafundPool = Some bk →
  setSiafundPool DEBUG c w
  = (Ok tt, mkWorld (<[SiafundPool := <[SiafundPool := Marshal (reflect_Currency c)]> bk]>
                       (tx w))
                    (stdout w)).
Proof.
  intros Hb. unfold setSiafundPool. repeat mstep. mdone.
Qed.

Lemma getSiafundPool_stored (w : World) (bk : bolt.Bucket) (c : Currency) :
  tx w !! SiafundPool = Some bk →
  bk !! SiafundPool = Some (Marshal (reflect_Currency c)) →
  Currency_encodable c →
  getSiafundPool DEBUG w = (Ok c, w).
Proof.
  intros Hb Hc Henc. unfold getSiafundPool. repeat mstep. rewrite Hc.
  erewrite Unmarshal_into_Some by (apply Unmarshal_Currency, Henc).
  repeat mstep. reflexivity.
Qed.

End SiafundLedger.

(** Without the debug assertions nothing is looked up before the delete:
    an absent id leaves the world as it was, and nothing is printed. *)
Lemma removeDSCO_absent_no_debug (w : World) (bk : bolt.Bucket) (h : Z) (id : Hash) :
  tx w !! removeDSCO_bucketID h = Some bk → bk !! id = None →
  removeDSCO false h id w = (Ok tt, w).
Proof.
  intros Hb Hid. rewrite (removeDSCO_run false w bk h id Hb).
  cbn [andb]. rewrite delete_id, insert_id, app_nil_r by assumption.
  rewrite World_eta. reflexivity.
Qed.

(** C6. Removing from the maturation queue tolerates an absent id. In a
    bucket that exists and does not hold the id, [removeDSCO], run with the
    debug assertions as the other removes are, prints the line "NIL DSCO"
    with the id and returns normally, the transaction left as it was. When
    the id is present the entry is deleted. The removes of the other
    ledgers, under the same assertions, panic on an absent id. *)
Theorem removeDSCO_tolerates_absence (w : World) (bk : bolt.Bucket) (h : Z)
    (id : Hash) :
  tx w !! removeDSCO_bucketID h = Some bk →
  (bk !! id = None →
     removeDSCO true h id w
     = (Ok tt, mkWorld (tx w) (stdout w ++ [("NIL DSCO"%string, id)])))
  ∧ (∀ DEBUG, is_Some (bk !! id) →
       removeDSCO DEBUG h id w
       = (Ok tt, mkWorld (<[removeDSCO_bucketID h := delete id bk]> (tx w)) (stdout w)))
  ∧ (∀ so, tx w !! SiacoinOutputs = Some so → so !! id = None →
       fatal (removeSiacoinOutput true id w))
  ∧ (∀ sf, tx w !! SiafundOutputs = Some sf → sf !! id = None →
       fatal (removeSiafundOutput true id w))
  ∧ (∀ fcs, tx w !! FileContracts = Some fcs → fcs !! id = None →
       fatal (removeFileContract true id w)).
Proof.
  intros Hb. split; [|split; [|split; [|split]]].
  - intros Hid. rewrite (removeDSCO_run true w bk h id Hb), Hid, not_nil_None.
    cbn [negb andb]. rewrite delete_id, insert_id by assumption. reflexivity.
  - intros DEBUG [v Hid]. rewrite (removeDSCO_run _ w bk h id Hb), Hid, not_nil_Some.
    cbn [negb]. rewrite andb_false_r, app_nil_r. reflexivity.
  - intros so Hso Hid. erewrite removeSiacoinOutput_nil by eauto. exact I.
  - intros sf Hsf Hid. erewrite removeSiafundOutput_nil by eauto. exact I.
  - intros fcs Hfcs Hid. erewrite removeFileContract_nil by eauto. exact I.
Qed.

(** C3, at the input where the code departs from it: the maturation bucket
    of height 5 holds a delayed output, and [deleteDSCOBucket 5] returns
    normally, the bucket and the output in it gone. *)
Theorem deleteDSCOBucket_nonempty_succeeds :
  (tx ex_dsco_world !! deleteDSCOBucket_bucketID 5 ≫= λ bk, bk !! ex_id)
  = Some (Marshal (reflect_SiacoinOutput ex_sco))
  ∧ deleteDSCOBucket true 5 ex_dsco_world = (Ok tt, mkWorld ∅ []).
Proof.
  split; [compute_done|].
  rewrite (deleteDSCOBucket_run true ex_dsco_world
             {[ ex_id := Marshal (reflect_SiacoinOutput ex_sco) ]} 5)
    by compute_done.
  compute_done.
Qed.

(** ** Initialisation *)

Lemma initDB_commitDiffs_run (DEBUG : bool) (diffs : list modules.SiafundOutputDiff) :
  ∀ (w : World) (sf : bolt.Bucket),
    tx w !! SiafundOutputs = Some sf →
    genesis_diffs_ok diffs →
    (∀ d, d ∈ diffs → sf !! modules.ID d = None) →
    ∃ sf', initDB_commitDiffs DEBUG diffs w
           = (Ok tt, mkWorld (<[SiafundOutputs := sf']> (tx w)) (stdout w)).
Proof.
  induction diffs as [|d rest IH]; intros w sf Hsf [Hall Hnd] Hfresh.
  - exists sf. cbn [initDB_commitDiffs]. rewrite tx_insert_id by exact Hsf. reflexivity.
  - apply Forall_cons in Hall as [[Hdir Hid] Hall].
    rewrite fmap_cons in Hnd. apply NoDup_cons in Hnd as [Hnotin Hnd].
    cbn [initDB_commitDiffs]. unfold commitSiafundOutputDiff.
    rewrite bool_decide_eq_true_2 by exact Hdir.
    erewrite bind_run
      by (eapply addSiafundOutput_fresh; [exact Hsf | apply Hfresh; left | exact Hid]).
    edestruct (IH (mkWorld (<[SiafundOutputs :=
                               <[modules.ID d :=
                                   Marshal (reflect_SiafundOutput (modules.SiafundOutput d))]> sf]>
                             (tx w)) (stdout w))) as [sf' Hrun].
    + apply lookup_insert_eq.
    + split; assumption.
    + intros d' Hd'. rewrite lookup_insert_ne.
      * apply Hfresh. right. exact Hd'.
      * intros E. apply Hnotin. rewrite E. apply list_elem_of_fmap. eauto.
    + exists sf'. rewrite Hrun. cbn [tx stdout]. rewrite insert_insert_eq. reflexivity.
Qed.

Ltac lookup_solve := cbn [tx stdout]; solve [eauto 40 with run nocore].

(** C9. On a store with no bucket, [initDB] with a well-formed genesis
    block returns without error and leaves: [blockHeight] equal to 0, the
    genesis block id as the path entry at height 0, a siafund pool of zero,
    and an unspent-output bucket holding exactly one output, stored under
    the genesis block's first miner payout id, whose unlock hash is all
    zero and whose value is [CalculateCoinbase 0]. The block map holds the
    genesis block as [initDB] returns it. *)
Theorem initDB_postcondition (DEBUG : bool) (Block : Type)
    (Block_ID : Block → Hash) (Block_MinerPayoutID : Block → Z → Hash)
    (CalculateCoinbase : Z → Currency)
    (Marshal_processedBlock : processedBlock Block → bytes)
    (consensusChecksum : bolt.Tx → Hash)
    (cs : ConsensusSet Block) (out : list Line) :
  wf_Hash (Block_ID (pb_Block (blockRoot cs))) →
  wf_Hash (Block_MinerPayoutID (pb_Block (blockRoot cs)) 0) →
  genesis_diffs_ok (SiafundOutputDiffs (blockRoot cs)) →
  Currency_encodable (CalculateCoinbase 0) →
  ∃ cs' w',
    initDB DEBUG Block_ID Block_MinerPayoutID CalculateCoinbase
      Marshal_processedBlock consensusChecksum cs (empty_store out)
    = (Ok (cs', None), w')
    ∧ blockHeight DEBUG w' = (Ok 0, w')
    ∧ getPath DEBUG 0 w' = (Ok (Block_ID (pb_Block (blockRoot cs))), w')
    ∧ getSiafundPool DEBUG w' = (Ok 0%N, w')
    ∧ tx w' !! SiacoinOutputs
      = Some {[ Block_MinerPayoutID (pb_Block (blockRoot cs)) 0 :=
                  Marshal (reflect_SiacoinOutput
                             (mkSiacoinOutput (CalculateCoinbase 0) ZeroHash)) ]}
    ∧ getSiacoinOutput (Block_MinerPayoutID (pb_Block (blockRoot cs)) 0) w'
      = (Ok (mkSiacoinOutput (CalculateCoinbase 0) ZeroHash, None), w')
    ∧ block_record w' (Block_ID (pb_Block (blockRoot cs)))
      = Some (Marshal_processedBlock (blockRoot cs')).
Proof.
  intros Hid Hpay Hdiffs Hcoin.
  destruct (initDB_setHeight_run (empty_store out)) as (t & bh & Ht & Hbh & Hrun).
  assert (HtPath : t !! BlockPath = Some ∅) by (subst t; compute_done).
  assert (HtMap : t !! BlockMap = Some ∅) by (subst t; compute_done).
  assert (HtSco : t !! SiacoinOutputs = Some ∅) by (subst t; compute_done).
  assert (HtSfo : t !! SiafundOutputs = Some ∅) by (subst t; compute_done).
  assert (HtPool : t !! SiafundPool = Some ∅) by (subst t; compute_done).
  assert (HtHeight : t !! BlockHeight = Some ∅) by (subst t; compute_done).
  assert (bh = ∅) as -> by congruence.
  clear Ht Hbh. cbn [empty_store stdout] in Hrun.
  unfold initDB. erewrite bind_run by exact Hrun. cbv beta iota.
  unfold initDB_genesis.
  erewrite bind_run by (eapply addBlockMap_run; [lookup_solve | exact Hid]).
  cbn [tx stdout].
  erewrite bind_run by (eapply pushPath_run; [lookup_solve | lookup_solve | lookup_solve | exact Hid]).
  cbn [tx stdout].
  change (Marshal (Uint (uint64 (0 - 1) + 1))) with (Marshal (Uint 0)).
  erewrite bind_run by (eapply setSiafundPool_run; lookup_solve).
  cbn [tx stdout].
  edestruct (initDB_commitDiffs_run DEBUG (SiafundOutputDiffs (blockRoot cs)))
    as [sf' Hcommit]; [| exact Hdiffs | | erewrite bind_run by exact Hcommit].
  { lookup_solve. }
  { intros d _. apply lookup_empty. }
  cbn [tx stdout].
  erewrite bind_run
    by (eapply addSiacoinOutput_fresh; [lookup_solve | apply lookup_empty | exact Hpay]).
  cbn [tx stdout].
  match goal with
  | |- context [bind (if DEBUG then _ else _) _ ?w] =>
      set (cs' := if DEBUG
                  then mkConsensusSet
                         (mkProcessedBlock (pb_Block (blockRoot cs))
                            (SiafundOutputDiffs (blockRoot cs))
                            (consensusChecksum (tx w)))
                  else cs)
  end.
  assert (Hsame : pb_Block (blockRoot cs') = pb_Block (blockRoot cs))
    by (unfold cs'; destruct DEBUG; reflexivity).
  match goal with
  | |- context [bind ?m _ ?w] =>
      assert (Hcs : m w = (Ok cs', w)) by (unfold cs'; destruct DEBUG; reflexivity)
  end.
  erewrite bind_run by exact Hcs. clear Hcs.
  erewrite bind_run by (eapply addBlockMap_run; [lookup_solve | rewrite Hsame; exact Hid]).
  cbn [tx stdout]. rewrite Hsame.
  eexists cs', _. split; [reflexivity|].
  split; [|split; [|split; [|split; [|split]]]].
  - apply blockHeight_stored; [|lia]. eexists. split; lookup_solve.
  - eapply getPath_run; [lookup_solve | lookup_solve | exact Hid].
  - eapply getSiafundPool_stored; [lookup_solve | lookup_solve | apply zero_Currency_encodable].
  - cbn [tx]. rewrite lookup_insert_ne by (vm_compute; discriminate).
    rewrite lookup_insert_eq, insert_empty. reflexivity.
  - eapply getSiacoinOutput_stored; [lookup_solve | lookup_solve |].
    split; [exact Hcoin | reflexivity].
  - unfold block_record. cbn [tx]. rewrite lookup_insert_eq. cbn [mbind option_bind].
    apply lookup_insert_eq.
Qed.

(** * Further properties of the database functions *)

(** ** Decoding what was encoded *)

Lemma decodeByteArray_app (id rest : bytes) :
  wf_Hash id → decodeByteArray HashSize (id ++ rest) = Some (id, rest).
Proof. intros H. apply readN_app, H. Qed.

Lemma decodeSiacoinOutput_Marshal (sco : SiacoinOutput) (rest : bytes) :
  wf_SiacoinOutput sco →
  decodeSiacoinOutput (Marshal (reflect_SiacoinOutput sco) ++ rest) = Some (sco, rest).
Proof.
  intros [Hv Hu]. destruct sco as [v uh]. cbn [sco_Value sco_UnlockHash] in *.
  unfold decodeSiacoinOutput, reflect_SiacoinOutput.
  cbn [Marshal List.map List.concat sco_Value sco_UnlockHash].
  change (EncUint64 (Z.of_nat (length (Currency_Bytes v))) ++ Currency_Bytes v)
    with (Marshal (reflect_Currency v)).
  rewrite app_nil_r, <- app_assoc.
  rewrite decodeCurrency_Marshal by exact Hv. cbn [mbind option_bind].
  rewrite decodeByteArray_app by exact Hu. reflexivity.
Qed.

Lemma decodeSiafundOutput_Marshal (sfo : SiafundOutput) (rest : bytes) :
  wf_SiafundOutput sfo →
  decodeSiafundOutput (Marshal (reflect_SiafundOutput sfo) ++ rest) = Some (sfo, rest).
Proof.
  intros (Hv & Hu & Hc). destruct sfo as [v uh cs].
  cbn [sfo_Value sfo_UnlockHash sfo_ClaimStart] in *.
  unfold decodeSiafundOutput, reflect_SiafundOutput.
  cbn [List.map List.concat Marshal sfo_Value sfo_UnlockHash sfo_ClaimStart].
  change (EncUint64 (Z.of_nat (length (Currency_Bytes v))) ++ Currency_Bytes v)
    with (Marshal (reflect_Currency v)).
  change (EncUint64 (Z.of_nat (length (Currency_Bytes cs))) ++ Currency_Bytes cs)
    with (Marshal (reflect_Currency cs)).
  rewrite app_nil_r, <- !app_assoc.
  rewrite decodeCurrency_Marshal by exact Hv. cbn [mbind option_bind].
  rewrite decodeByteArray_app by exact Hu. cbn [mbind option_bind].
  rewrite decodeCurrency_Marshal by exact Hc. reflexivity.
Qed.

Lemma Unmarshal_SiafundOutput (sfo : SiafundOutput) :
  wf_SiafundOutput sfo →
  Unmarshal decodeSiafundOutput (Marshal (reflect_SiafundOutput sfo)) = Some sfo.
Proof.
  intros H. unfold Unmarshal.
  rewrite <- (app_nil_r (Marshal _)), decodeSiafundOutput_Marshal by exact H.
  reflexivity.
Qed.

Lemma decodeN_Marshal (l : list SiacoinOutput) (rest : bytes) :
  Forall wf_SiacoinOutput l →
  decodeN decodeSiacoinOutput (length l)
    (List.concat (List.map Marshal (List.map reflect_SiacoinOutput l)) ++ rest)
  = Some (l, rest).
Proof.
  induction 1 as [|sco l Hsco _ IH]; [reflexivity|].
  cbn [length List.map List.concat decodeN]. rewrite <- app_assoc.
  rewrite decodeSiacoinOutput_Marshal by exact Hsco. cbn [mbind option_bind].
  rewrite IH. reflexivity.
Qed.

Lemma decodeSlice_Marshal (l : list SiacoinOutput) (rest : bytes) :
  wf_SiacoinOutputs l →
  decodeSlice decodeSiacoinOutput
    (Marshal (Slice (List.map reflect_SiacoinOutput l)) ++ rest)
  = Some (l, rest).
Proof.
  intros [Hall Hlen]. unfold decodeSlice. cbn [Marshal].
  rewrite <- app_assoc, decodeUint_EncUint64. cbn [mbind option_bind].
  rewrite length_map, uint64_small by lia. rewrite Nat2Z.id.
  apply decodeN_Marshal, Hall.
Qed.

Lemma Unmarshal_FileContract (fc : FileContract) :
  encodable_FileContract fc →
  Unmarshal decodeFileContract (Marshal (reflect_FileContract fc)) = Some fc.
Proof.
  intros (Hsize & Hroot & Hws & Hwe & Hpay & Hvalid & Hmissed & Huh & Hrev).
  destruct fc as [size root ws we pay valid missed uh revision].
  cbn [FileSize FileMerkleRoot WindowStart WindowEnd Payout ValidProofOutputs
       MissedProofOutputs fc_UnlockHash RevisionNumber] in *.
  unfold Unmarshal, decodeFileContract, reflect_FileContract.
  cbn [FileSize FileMerkleRoot WindowStart WindowEnd Payout ValidProofOutputs
       MissedProofOutputs fc_UnlockHash RevisionNumber].
  change (Marshal (Struct ?l)) with (List.concat (List.map Marshal l)).
  cbn [List.map List.concat].
  change (Marshal (Uint ?z)) with (EncUint64 z).
  change (Marshal (ByteArray ?b)) with b.
  rewrite decodeUint_EncUint64. cbn [mbind option_bind].
  rewrite decodeByteArray_app by exact Hroot. cbn [mbind option_bind].
  rewrite decodeUint_EncUint64. cbn [mbind option_bind].
  rewrite decodeUint_EncUint64. cbn [mbind option_bind].
  rewrite decodeCurrency_Marshal by exact Hpay. cbn [mbind option_bind].
  rewrite decodeSlice_Marshal by exact Hvalid. cbn [mbind option_bind].
  rewrite decodeSlice_Marshal by exact Hmissed. cbn [mbind option_bind].
  rewrite decodeByteArray_app by exact Huh. cbn [mbind option_bind].
  rewrite decodeUint_EncUint64. cbn [mbind option_bind fmap option_fmap option_map fst].
  rewrite !uint64_small by assumption. reflexivity.
Qed.

Lemma Unmarshal_nil_Uint : Unmarshal decodeUint [] = None.
Proof. reflexivity. Qed.

Lemma Unmarshal_nil_Int : Unmarshal decodeInt [] = None.
Proof. reflexivity. Qed.

Lemma Unmarshal_nil_Hash : Unmarshal (decodeByteArray HashSize) [] = None.
Proof. reflexivity. Qed.

Lemma Unmarshal_nil_Currency : Unmarshal decodeCurrency [] = None.
Proof. reflexivity. Qed.

(** ** Reading the block store *)

Section BlockStoreLookup.
Variable DEBUG : bool.
Variable Block : Type.
Variable Unmarshal_processedBlock : bytes → processedBlock Block * option error.

Lemma getBlockMap_absent (w : World) (bm : bolt.Bucket) (id : Hash) :
  tx w !! BlockMap = Some bm → bm !! id = None →
  getBlockMap DEBUG Unmarshal_processedBlock id w = (Ok (None, Some errNilItem), w).
Proof.
  intros Hbm Hid. unfold getBlockMap. mstep. mstep.
  rewrite Hid, not_nil_None. reflexivity.
Qed.

Lemma getBlockMap_stored (w : World) (bm : bolt.Bucket) (id : Hash) (b : bytes)
    (pb : processedBlock Block) (err : option error) :
  tx w !! BlockMap = Some bm → bm !! id = Some b →
  Unmarshal_processedBlock b = (pb, err) →
  getBlockMap DEBUG Unmarshal_processedBlock id w
  = match err with
    | Some e => if DEBUG then (Panic (panic_error e), w) else (Ok (Some pb, None), w)
    | None => (Ok (Some pb, None), w)
    end.
Proof.
  intros Hbm Hid Hdec. unfold getBlockMap. mstep. mstep.
  rewrite Hid, not_nil_Some. cbn [negb].
  change (of_slice (Some b)) with b. rewrite Hdec.
  destruct err as [e|], DEBUG; reflexivity.
Qed.

End BlockStoreLookup.

(** X1. The block store gives back what was put: after [addBlockMap pb],
    [getBlockMap] at the id of [pb] returns [pb] with a nil error, provided
    the encoding of [pb] decodes to [pb]; the lookup of any other id sees
    the record that was there before; and the lookup of an id with no record
    returns a nil pointer with [errNilItem]. *)
Theorem block_store_put_get (DEBUG : bool) (Block : Type)
    (Block_ID : Block → Hash) (Marshal_processedBlock : processedBlock Block → bytes)
    (Unmarshal_processedBlock : bytes → processedBlock Block * option error)
    (w : World) (bm : bolt.Bucket) (pb : processedBlock Block) :
  tx w !! BlockMap = Some bm →
  wf_Hash (Block_ID (pb_Block pb)) →
  Unmarshal_processedBlock (Marshal_processedBlock pb) = (pb, None) →
  ∃ w',
    addBlockMap DEBUG Block_ID Marshal_processedBlock pb w = (Ok tt, w')
    ∧ getBlockMap DEBUG Unmarshal_processedBlock (Block_ID (pb_Block pb)) w'
      = (Ok (Some pb, None), w')
    ∧ (∀ id, id ≠ Block_ID (pb_Block pb) →
         (getBlockMap DEBUG Unmarshal_processedBlock id w').1
         = (getBlockMap DEBUG Unmarshal_processedBlock id w).1)
    ∧ (∀ id, bm !! id = None →
         getBlockMap DEBUG Unmarshal_processedBlock id w
         = (Ok (None, Some errNilItem), w)).
Proof.
  intros Hbm Hid Hdec.
  eexists. split; [eapply addBlockMap_run; eassumption|].
  split; [|split].
  - erewrite getBlockMap_stored;
      [idtac | apply lookup_insert_eq | apply lookup_insert_eq | exact Hdec].
    reflexivity.
  - intros id Hne.
    destruct (bm !! id) as [b|] eqn:Hb.
    + destruct (Unmarshal_processedBlock b) as [pb' err] eqn:Hb'.
      rewrite (getBlockMap_stored DEBUG Block Unmarshal_processedBlock w bm id b pb' err)
        by assumption.
      erewrite getBlockMap_stored;
        [idtac | apply lookup_insert_eq
         | rewrite lookup_insert_ne by congruence; exact Hb | exact Hb'].
      destruct err, DEBUG; reflexivity.
    + rewrite (getBlockMap_absent DEBUG Block Unmarshal_processedBlock w bm id)
        by assumption.
      erewrite getBlockMap_absent;
        [reflexivity | apply lookup_insert_eq
         | rewrite lookup_insert_ne by congruence; exact Hb].
  - intros id Hnone. eapply getBlockMap_absent; eassumption.
Qed.

(** X2. [getBlockMap] never returns a decoding error. For a stored record
    that [encoding.Unmarshal] rejects, the call panics with that error when
    the debug assertions are on; when they are off the error is dropped, and
    the caller gets whatever the decoder left in the block, with a nil
    error. The transaction is untouched either way. *)
Theorem getBlockMap_decode_error_not_returned (Block : Type)
    (Unmarshal_processedBlock : bytes → processedBlock Block * option error)
    (w : World) (bm : bolt.Bucket) (id : Hash) (b : bytes)
    (pb : processedBlock Block) (e : error) :
  tx w !! BlockMap = Some bm → bm !! id = Some b →
  Unmarshal_processedBlock b = (pb, Some e) →
  getBlockMap true Unmarshal_processedBlock id w = (Panic (panic_error e), w)
  ∧ getBlockMap false Unmarshal_processedBlock id w = (Ok (Some pb, None), w).
Proof.
  intros Hbm Hid Hdec. split.
  - erewrite getBlockMap_stored by eassumption. reflexivity.
  - erewrite getBlockMap_stored by eassumption. reflexivity.
Qed.

(** ** The tip of the chain *)

Lemma stored_height_push (w : World) (bh bp' : bolt.Bucket) (h : Z) :
  stored_height
    (mkWorld (<[BlockPath := bp']>
                (<[BlockHeight := <[BlockHeight := Marshal (Uint h)]> bh]> (tx w)))
             (stdout w)) h.
Proof.
  eexists. split.
  - cbn [tx]. rewrite lookup_insert_ne by (vm_compute; discriminate).
    apply lookup_insert_eq.
  - apply lookup_insert_eq.
Qed.

Lemma path_entry_lookup (w : World) (bp : bolt.Bucket) (k : Z) :
  tx w !! BlockPath = Some bp → path_entry w k = bp !! Marshal (Uint k).
Proof. intros H. unfold path_entry. rewrite H. reflexivity. Qed.

Section ChainTip.
Variable DEBUG : bool.

Lemma currentBlockID_run (w : World) (h : Z) (id : Hash) :
  stored_height w h → 0 ≤ h < 2 ^ 63 → path_entry w h = Some id → wf_Hash id →
  currentBlockID DEBUG w = (Ok id, w).
Proof.
  intros Hs Hr He Hid. unfold currentBlockID.
  erewrite bind_run by (apply blockHeight_stored; eassumption).
  unfold path_entry in He.
  destruct (tx w !! BlockPath) as [bp|] eqn:Hbp; [|discriminate].
  eapply getPath_run; eassumption.
Qed.

Lemma getPath_missing (w : World) (bp : bolt.Bucket) (k : Z) :
  tx w !! BlockPath = Some bp → bp !! Marshal (Uint k) = None →
  getPath DEBUG k w
  = if DEBUG then (Panic (panic_error decodeError), w) else (Ok ZeroHash, w).
Proof.
  intros Hbp Hk. unfold getPath. mstep. mstep. rewrite Hk.
  rewrite Unmarshal_into_nil by apply Unmarshal_nil_Hash.
  destruct DEBUG; reflexivity.
Qed.

Lemma blockHeight_missing (w : World) (bh : bolt.Bucket) :
  tx w !! BlockHeight = Some bh → bh !! BlockHeight = None →
  blockHeight DEBUG w
  = if DEBUG then (Panic (panic_error decodeError), w) else (Ok 0, w).
Proof.
  intros Hbh Hk. unfold blockHeight. mstep. mstep. rewrite Hk.
  rewrite Unmarshal_into_nil by apply Unmarshal_nil_Int.
  destruct DEBUG; reflexivity.
Qed.

End ChainTip.

(** X3. [currentBlockID] follows the tip of the path. In a state of height
    [h] whose path entry at [h] is [T], it returns [T]; after [pushPath B]
    it returns [B]; and after the [popPath] that follows it returns [T]
    again. *)
Theorem currentBlockID_follows_push_pop (DEBUG : bool) (w : World) (h : Z)
    (T B : Hash) :
  stored_height w h → 0 ≤ h → h + 1 < 2 ^ 63 →
  path_entry w h = Some T → wf_Hash T → wf_Hash B →
  ∃ w1 w2,
    currentBlockID DEBUG w = (Ok T, w)
    ∧ pushPath DEBUG B w = (Ok tt, w1)
    ∧ currentBlockID DEBUG w1 = (Ok B, w1)
    ∧ popPath DEBUG w1 = (Ok tt, w2)
    ∧ currentBlockID DEBUG w2 = (Ok T, w2).
Proof.
  intros Hs Hh0 Hh1 He HT HB.
  pose proof Hs as (bh & Hbh & Hh).
  unfold path_entry in He.
  destruct (tx w !! BlockPath) as [bp|] eqn:Hbp; [|discriminate].
  cbn [mbind option_bind] in He.
  set (bh1 := <[BlockHeight := Marshal (Uint (h + 1))]> bh).
  set (bp1 := <[Marshal (Uint (h + 1)) := B]> bp).
  set (w1 := mkWorld (<[BlockPath := bp1]> (<[BlockHeight := bh1]> (tx w))) (stdout w)).
  assert (Hbh1 : tx w1 !! BlockHeight = Some bh1).
  { cbn [w1 tx]. rewrite lookup_insert_ne by (vm_compute; discriminate).
    apply lookup_insert_eq. }
  assert (Hbp1 : tx w1 !! BlockPath = Some bp1) by apply lookup_insert_eq.
  exists w1. eexists. split; [|split; [|split; [|split]]].
  - apply (currentBlockID_run DEBUG w h T); auto; [lia|].
    rewrite (path_entry_lookup w bp) by exact Hbp. exact He.
  - eapply pushPath_run; eassumption.
  - apply (currentBlockID_run DEBUG w1 (h + 1) B); auto; [|lia|].
    + apply stored_height_push.
    + rewrite (path_entry_lookup w1 bp1) by exact Hbp1. apply lookup_insert_eq.
  - apply (popPath_run DEBUG w1 bh1 bp1 (h + 1) Hbh1 (lookup_insert_eq _ _ _) Hbp1).
  - apply (currentBlockID_run DEBUG _ h T); auto; [| lia |].
    + replace (h + 1 - 1) with h by lia. apply stored_height_push.
    + erewrite path_entry_lookup by apply lookup_insert_eq.
      rewrite lookup_delete_ne.
      * unfold bp1. rewrite lookup_insert_ne; [exact He|].
        intros E. apply Marshal_Uint_inj in E; unfold wf_uint64; lia.
      * intros E. apply Marshal_Uint_inj in E; unfold wf_uint64; lia.
Qed.

Section CurrentBlock.
Variable DEBUG : bool.
Variable Block : Type.
Variable Unmarshal_processedBlock : bytes → processedBlock Block * option error.

Lemma currentProcessedBlock_run (w : World) (id : Hash)
    (r : option (processedBlock Block)) :
  currentBlockID DEBUG w = (Ok id, w) →
  getBlockMap DEBUG Unmarshal_processedBlock id w = (Ok (r, None), w) →
  currentProcessedBlock DEBUG Unmarshal_processedBlock w = (Ok r, w).
Proof.
  intros Hid Hget. unfold currentProcessedBlock.
  erewrite bind_run by exact Hid. erewrite bind_run by exact Hget.
  cbv beta iota. mstep. reflexivity.
Qed.

Lemma currentProcessedBlock_no_record (w : World) (bm : bolt.Bucket) (id : Hash) :
  currentBlockID DEBUG w = (Ok id, w) →
  tx w !! BlockMap = Some bm → bm !! id = None →
  currentProcessedBlock DEBUG Unmarshal_processedBlock w
  = if DEBUG then (Panic (panic_error errNilItem), w) else (Ok None, w).
Proof.
  intros Hid Hbm Hnone. unfold currentProcessedBlock.
  erewrite bind_run by exact Hid.
  erewrite bind_run by (eapply getBlockMap_absent; eassumption).
  cbv beta iota. destruct DEBUG; reflexivity.
Qed.

End CurrentBlock.

(** X4. Accepting a block makes it the current block. In a state of height
    [h], after [addBlockMap pb] and [pushPath] of the id of [pb],
    [currentBlockID] returns that id and [currentProcessedBlock] returns
    [pb], provided the encoding of [pb] decodes to [pb]. *)
Theorem currentProcessedBlock_after_accepting (DEBUG : bool) (Block : Type)
    (Block_ID : Block → Hash) (Marshal_processedBlock : processedBlock Block → bytes)
    (Unmarshal_processedBlock : bytes → processedBlock Block * option error)
    (w : World) (bm bp : bolt.Bucket) (h : Z) (pb : processedBlock Block) :
  tx w !! BlockMap = Some bm → tx w !! BlockPath = Some bp →
  stored_height w h → 0 ≤ h → h + 1 < 2 ^ 63 →
  wf_Hash (Block_ID (pb_Block pb)) →
  Unmarshal_processedBlock (Marshal_processedBlock pb) = (pb, None) →
  ∃ w1 w2,
    addBlockMap DEBUG Block_ID Marshal_processedBlock pb w = (Ok tt, w1)
    ∧ pushPath DEBUG (Block_ID (pb_Block pb)) w1 = (Ok tt, w2)
    ∧ blockHeight DEBUG w2 = (Ok (h + 1), w2)
    ∧ currentBlockID DEBUG w2 = (Ok (Block_ID (pb_Block pb)), w2)
    ∧ currentProcessedBlock DEBUG Unmarshal_processedBlock w2 = (Ok (Some pb), w2).
Proof.
  intros Hbm Hbp (bh & Hbh & Hh) Hh0 Hh1 Hid Hdec.
  set (id := Block_ID (pb_Block pb)) in *.
  set (bm1 := <[id := Marshal_processedBlock pb]> bm).
  set (w1 := mkWorld (<[BlockMap := bm1]> (tx w)) (stdout w)).
  assert (Hbh1 : tx w1 !! BlockHeight = Some bh)
    by (cbn [w1 tx]; rewrite lookup_insert_ne by (vm_compute; discriminate); exact Hbh).
  assert (Hbp1 : tx w1 !! BlockPath = Some bp)
    by (cbn [w1 tx]; rewrite lookup_insert_ne by (vm_compute; discriminate); exact Hbp).
  exists w1. eexists. split; [|split].
  - apply addBlockMap_run; assumption.
  - apply (pushPath_run DEBUG w1 bh bp h id Hbh1 Hh Hbp1 Hid).
  - assert (Hcur : currentBlockID DEBUG
                     (mkWorld (<[BlockPath := <[Marshal (Uint (h + 1)) := id]> bp]>
                        (<[BlockHeight := <[BlockHeight := Marshal (Uint (h + 1))]> bh]>
                           (tx w1))) (stdout w1))
                   = (Ok id, mkWorld (<[BlockPath := <[Marshal (Uint (h + 1)) := id]> bp]>
                        (<[BlockHeight := <[BlockHeight := Marshal (Uint (h + 1))]> bh]>
                           (tx w1))) (stdout w1))).
    { apply (currentBlockID_run DEBUG _ (h + 1) id); auto; [| lia |].
      - apply stored_height_push.
      - erewrite path_entry_lookup by apply lookup_insert_eq. apply lookup_insert_eq. }
    split; [|split].
    + apply blockHeight_stored; [apply stored_height_push | lia].
    + exact Hcur.
    + apply (currentProcessedBlock_run DEBUG Block Unmarshal_processedBlock _ id);
        [exact Hcur|].
      erewrite getBlockMap_stored; [idtac | | | exact Hdec].
      * reflexivity.
      * cbn [tx w1]. rewrite !lookup_insert_ne by (vm_compute; discriminate).
        apply lookup_insert_eq.
      * apply lookup_insert_eq.
Qed.

(** X5. [currentProcessedBlock] on a tip that has no record in the block
    map: with the debug assertions the call panics with [errNilItem];
    without them it returns a nil pointer. *)
Theorem currentProcessedBlock_missing_record (Block : Type)
    (Unmarshal_processedBlock : bytes → processedBlock Block * option error)
    (w : World) (bm : bolt.Bucket) (h : Z) (T : Hash) :
  stored_height w h → 0 ≤ h < 2 ^ 63 → path_entry w h = Some T → wf_Hash T →
  tx w !! BlockMap = Some bm → bm !! T = None →
  currentProcessedBlock true Unmarshal_processedBlock w
  = (Panic (panic_error errNilItem), w)
  ∧ currentProcessedBlock false Unmarshal_processedBlock w = (Ok None, w).
Proof.
  intros Hs Hr He HT Hbm Hnone. split.
  - rewrite (currentProcessedBlock_no_record true Block Unmarshal_processedBlock w bm T);
      eauto using currentBlockID_run.
  - rewrite (currentProcessedBlock_no_record false Block Unmarshal_processedBlock w bm T);
      eauto using currentBlockID_run.
Qed.

(** ** Push and pop as inverses *)

Lemma restore_two_buckets (t : bolt.Tx) (n1 n2 : bytes) (b1 b2 x y : bolt.Bucket) :
  t !! n1 = Some b1 → t !! n2 = Some b2 →
  <[n1 := b1]> (<[n2 := b2]> (<[n1 := x]> (<[n2 := y]> t))) = t.
Proof.
  intros H1 H2. apply map_eq. intros n.
  destruct (decide (n = n1)) as [->|Hn1]; [rewrite lookup_insert_eq; auto|].
  rewrite lookup_insert_ne by congruence.
  destruct (decide (n = n2)) as [->|Hn2]; [rewrite lookup_insert_eq; auto|].
  rewrite !lookup_insert_ne by congruence. reflexivity.
Qed.

(** X6. [pushPath] and [popPath] undo each other for every value of the
    counter, the wrap-around included. Pushing a block onto a path that has
    no entry at the next height and popping it restores the transaction
    exactly; so does popping the tip and pushing it back. Pushing from the
    counter 2^64 - 1, the value [initDB] starts from, stores the counter 0. *)
Theorem pushPath_popPath_inverse (DEBUG : bool) (w : World) (bh bp : bolt.Bucket)
    (h : Z) (B : Hash) :
  tx w !! BlockHeight = Some bh → bh !! BlockHeight = Some (Marshal (Uint h)) →
  tx w !! BlockPath = Some bp → wf_Hash B →
  (bp !! Marshal (Uint (h + 1)) = None →
     ∃ w1, pushPath DEBUG B w = (Ok tt, w1)
           ∧ stored_height w1 (h + 1)
           ∧ (h = 2 ^ 64 - 1 → stored_height w1 0)
           ∧ popPath DEBUG w1 = (Ok tt, w))
  ∧ (bp !! Marshal (Uint h) = Some B →
     ∃ w1, popPath DEBUG w = (Ok tt, w1)
           ∧ stored_height w1 (h - 1)
           ∧ path_entry w1 h = None
           ∧ pushPath DEBUG B w1 = (Ok tt, w)).
Proof.
  intros Hbh Hh Hbp HB. split.
  - intros Hfresh.
    set (bh1 := <[BlockHeight := Marshal (Uint (h + 1))]> bh).
    set (bp1 := <[Marshal (Uint (h + 1)) := B]> bp).
    set (w1 := mkWorld (<[BlockPath := bp1]> (<[BlockHeight := bh1]> (tx w))) (stdout w)).
    assert (Hbh1 : tx w1 !! BlockHeight = Some bh1).
    { cbn [w1 tx]. rewrite lookup_insert_ne by (vm_compute; discriminate).
      apply lookup_insert_eq. }
    assert (Hbp1 : tx w1 !! BlockPath = Some bp1) by apply lookup_insert_eq.
    exists w1. split; [|split; [|split]].
    + eapply pushPath_run; eassumption.
    + apply stored_height_push.
    + intros ->. unfold w1, bh1.
      change (Marshal (Uint (2 ^ 64 - 1 + 1))) with (Marshal (Uint 0)).
      apply stored_height_push.
    + rewrite (popPath_run DEBUG w1 bh1 bp1 (h + 1) Hbh1 (lookup_insert_eq _ _ _) Hbp1).
      f_equal. unfold w1, bh1, bp1. cbn [tx stdout].
      replace (h + 1 - 1) with h by lia.
      rewrite insert_insert_eq, delete_insert_id by exact Hfresh.
      rewrite (insert_id bh) by exact Hh.
      rewrite restore_two_buckets by assumption. apply World_eta.
  - intros Htip.
    set (bh1 := <[BlockHeight := Marshal (Uint (h - 1))]> bh).
    set (bp1 := delete (Marshal (Uint h)) bp).
    set (w1 := mkWorld (<[BlockPath := bp1]> (<[BlockHeight := bh1]> (tx w))) (stdout w)).
    assert (Hbh1 : tx w1 !! BlockHeight = Some bh1).
    { cbn [w1 tx]. rewrite lookup_insert_ne by (vm_compute; discriminate).
      apply lookup_insert_eq. }
    assert (Hbp1 : tx w1 !! BlockPath = Some bp1) by apply lookup_insert_eq.
    exists w1. split; [|split; [|split]].
    + eapply popPath_run; eassumption.
    + apply stored_height_push.
    + rewrite (path_entry_lookup w1 bp1) by exact Hbp1. apply lookup_delete_eq.
    + rewrite (pushPath_run DEBUG w1 bh1 bp1 (h - 1) B Hbh1 (lookup_insert_eq _ _ _) Hbp1 HB).
      f_equal. unfold w1, bh1, bp1. cbn [tx stdout].
      replace (h - 1 + 1) with h by lia.
      rewrite insert_insert_eq, insert_delete_id by exact Htip.
      rewrite (insert_id bh) by exact Hh.
      rewrite restore_two_buckets by assumption. apply World_eta.
Qed.

(** X7. [popPath] has no lower bound. At height 0 it returns normally: the
    counter wraps to 2^64 - 1 and the entry of height 0 is deleted, after
    which [blockHeight] panics with -1. *)
Theorem popPath_below_genesis (DEBUG : bool) (w : World) (bp : bolt.Bucket) :
  stored_height w 0 → tx w !! BlockPath = Some bp →
  ∃ w1, popPath DEBUG w = (Ok tt, w1)
        ∧ stored_height w1 (2 ^ 64 - 1)
        ∧ path_entry w1 0 = None
        ∧ blockHeight DEBUG w1 = (Panic (panic_int (-1)), w1).
Proof.
  intros (bh & Hbh & Hh) Hbp.
  eexists. split; [eapply popPath_run; eassumption|].
  assert (Hs : stored_height
                 (mkWorld (<[BlockPath := delete (Marshal (Uint 0)) bp]>
                    (<[BlockHeight := <[BlockHeight := Marshal (Uint (0 - 1))]> bh]> (tx w)))
                    (stdout w)) (2 ^ 64 - 1)).
  { change (Marshal (Uint (0 - 1))) with (Marshal (Uint (2 ^ 64 - 1))).
    apply stored_height_push. }
  split; [exact Hs|]. split.
  - erewrite path_entry_lookup by apply lookup_insert_eq. apply lookup_delete_eq.
  - rewrite (blockHeight_negative DEBUG _ _ Hs) by lia. reflexivity.
Qed.

(** ** Generic and typed lookups *)

Section Lookups.
Variable DEBUG : bool.

Lemma getItem_run (w : World) (bk : bolt.Bucket) (bucket : bytes) (key : value) :
  tx w !! bucket = Some bk →
  getItem DEBUG bucket key w
  = (Ok (match bk !! Marshal key with
         | Some item => (Some item, None)
         | None => (None, Some errNilItem)
         end), w).
Proof.
  intros Hb. unfold getItem. mstep.
  assert (bool_decide (is_Some (Some bucket)) = true) as -> by reflexivity.
  rewrite andb_false_r. mstep. mstep.
  destruct (bk !! Marshal key); reflexivity.
Qed.

Lemma getItem_nil_bucket (w : World) (bucket : bytes) (key : value) :
  tx w !! bucket = None →
  getItem DEBUG bucket key w
  = (Panic (if DEBUG then panic_error errNilBucket else nil_dereference), w).
Proof.
  intros Hb. unfold getItem. mstep.
  destruct DEBUG; cbn [andb negb]; [reflexivity|]. mstep. mstep. reflexivity.
Qed.

Lemma getSiafundOutput_run (w : World) (bk : bolt.Bucket) (id : Hash) :
  tx w !! SiafundOutputs = Some bk →
  getSiafundOutput DEBUG id w
  = (Ok (match bk !! id with
         | None => (zeroSiafundOutput, Some errNilItem)
         | Some b =>
             match Unmarshal decodeSiafundOutput b with
             | Some sfo => (sfo, None)
             | None => (zeroSiafundOutput, Some decodeError)
             end
         end), w).
Proof.
  intros Hb. unfold getSiafundOutput.
  erewrite bind_run by (apply getItem_run; exact Hb).
  change (Marshal (ByteArray id)) with id.
  destruct (bk !! id) as [b|]; [|reflexivity].
  cbv beta iota. unfold Unmarshal_into. change (of_slice (Some b)) with b.
  destruct (Unmarshal decodeSiafundOutput b); reflexivity.
Qed.

Lemma getSiacoinOutput_run (w : World) (bk : bolt.Bucket) (id : Hash) :
  tx w !! SiacoinOutputs = Some bk →
  getSiacoinOutput id w
  = (Ok (match bk !! id with
         | None => (zeroSiacoinOutput, Some errNilItem)
         | Some b =>
             match Unmarshal decodeSiacoinOutput b with
             | Some sco => (sco, None)
             | None => (zeroSiacoinOutput, Some decodeError)
             end
         end), w).
Proof.
  intros Hb. unfold getSiacoinOutput. mstep. mstep.
  destruct (bk !! id) as [b|]; [|reflexivity].
  rewrite not_nil_Some. cbn [negb]. unfold Unmarshal_into.
  change (of_slice (Some b)) with b.
  destruct (Unmarshal decodeSiacoinOutput b); reflexivity.
Qed.

Lemma getFileContract_run (w : World) (bk : bolt.Bucket) (id : Hash) :
  tx w !! FileContracts = Some bk →
  getFileContract id w
  = (Ok (match bk !! id with
         | None => (zeroFileContract, Some errNilItem)
         | Some b =>
             match Unmarshal decodeFileContract b with
             | Some fc => (fc, None)
             | None => (zeroFileContract, Some decodeError)
             end
         end), w).
Proof.
  intros Hb. unfold getFileContract. mstep. mstep.
  destruct (bk !! id) as [b|]; [|reflexivity].
  rewrite not_nil_Some. cbn [negb]. unfold Unmarshal_into.
  change (of_slice (Some b)) with b.
  destruct (Unmarshal decodeFileContract b); reflexivity.
Qed.

Lemma removeSiafundOutput_present (w : World) (bk : bolt.Bucket) (id : Hash) :
  tx w !! SiafundOutputs = Some bk → is_Some (bk !! id) →
  removeSiafundOutput DEBUG id w
  = (Ok tt, mkWorld (<[SiafundOutputs := delete id bk]> (tx w)) (stdout w)).
Proof.
  intros Hb [old Hid]. unfold removeSiafundOutput.
  mstep. destruct DEBUG; unfold when.
  - repeat mstep. rewrite Hid, not_nil_Some. repeat mstep. mdone.
  - repeat mstep. mdone.
Qed.

Lemma addSiafundOutput_repeat (w : World) (bk : bolt.Bucket) (id : Hash)
    (sfo : SiafundOutput) :
  DEBUG = true → tx w !! SiafundOutputs = Some bk → is_Some (bk !! id) →
  addSiafundOutput DEBUG id sfo w
  = (Panic (panic_string "repeat siafund output"), w).
Proof.
  intros -> Hb [old Hid]. unfold addSiafundOutput, when.
  repeat mstep. rewrite Hid, not_nil_Some. repeat mstep. reflexivity.
Qed.

End Lookups.

(** X8. [getItem] on a transaction. On an existing bucket it returns the
    value stored under the encoding of the key with a nil error, or a nil
    slice with [errNilItem] when there is none. On a missing bucket it
    panics: with [errNilBucket] under the debug assertions, with a nil
    dereference without them. The transaction is never changed. *)
Theorem getItem_cases (DEBUG : bool) (w : World) (bucket : bytes) (key : value) :
  (∀ bk item, tx w !! bucket = Some bk → bk !! Marshal key = Some item →
     getItem DEBUG bucket key w = (Ok (Some item, None), w))
  ∧ (∀ bk, tx w !! bucket = Some bk → bk !! Marshal key = None →
       getItem DEBUG bucket key w = (Ok (None, Some errNilItem), w))
  ∧ (tx w !! bucket = None →
       getItem true bucket key w = (Panic (panic_error errNilBucket), w)
       ∧ getItem false bucket key w = (Panic nil_dereference, w)).
Proof.
  split; [|split].
  - intros bk item Hb Hk. rewrite (getItem_run DEBUG w bk) by exact Hb.
    rewrite Hk. reflexivity.
  - intros bk Hb Hk. rewrite (getItem_run DEBUG w bk) by exact Hb.
    rewrite Hk. reflexivity.
  - intros Hb. split; rewrite getItem_nil_bucket by exact Hb; reflexivity.
Qed.

(** X9. The typed lookups hand their failures to the caller. For an id with
    no record, [getSiacoinOutput], [getFileContract] and [getSiafundOutput]
    return the zero value with [errNilItem]; for a record that does not
    decode they return the zero value with the decoding error. Neither case
    panics, with or without the debug assertions, and the transaction is
    unchanged. *)
Theorem typed_lookups_return_errors (DEBUG : bool) (w : World) (bk : bolt.Bucket)
    (id : Hash) :
  (tx w !! SiacoinOutputs = Some bk →
     (bk !! id = None →
        getSiacoinOutput id w = (Ok (zeroSiacoinOutput, Some errNilItem), w))
     ∧ (∀ b, bk !! id = Some b → Unmarshal decodeSiacoinOutput b = None →
          getSiacoinOutput id w = (Ok (zeroSiacoinOutput, Some decodeError), w)))
  ∧ (tx w !! FileContracts = Some bk →
       (bk !! id = None →
          getFileContract id w = (Ok (zeroFileContract, Some errNilItem), w))
       ∧ (∀ b, bk !! id = Some b → Unmarshal decodeFileContract b = None →
            getFileContract id w = (Ok (zeroFileContract, Some decodeError), w)))
  ∧ (tx w !! SiafundOutputs = Some bk →
       (bk !! id = None →
          getSiafundOutput DEBUG id w = (Ok (zeroSiafundOutput, Some errNilItem), w))
       ∧ (∀ b, bk !! id = Some b → Unmarshal decodeSiafundOutput b = None →
            getSiafundOutput DEBUG id w = (Ok (zeroSiafundOutput, Some decodeError), w))).
Proof.
  split; [|split]; intros Hb; split.
  - intros Hid. rewrite (getSiacoinOutput_run w bk) by exact Hb. rewrite Hid. reflexivity.
  - intros b Hid Hdec. rewrite (getSiacoinOutput_run w bk) by exact Hb.
    rewrite Hid, Hdec. reflexivity.
  - intros Hid. rewrite (getFileContract_run w bk) by exact Hb. rewrite Hid. reflexivity.
  - intros b Hid Hdec. rewrite (getFileContract_run w bk) by exact Hb.
    rewrite Hid, Hdec. reflexivity.
  - intros Hid. rewrite (getSiafundOutput_run DEBUG w bk) by exact Hb.
    rewrite Hid. reflexivity.
  - intros b Hid Hdec. rewrite (getSiafundOutput_run DEBUG w bk) by exact Hb.
    rewrite Hid, Hdec. reflexivity.
Qed.

(** ** The siafund ledger *)

(** X10. The siafund ledger gives back what was added. For an id not in the
    ledger, [addSiafundOutput] followed by [getSiafundOutput] returns the
    output with a nil error; adding the id again under the debug assertions
    panics with nothing written; [removeSiafundOutput] then restores the
    transaction, in which the lookup reports [errNilItem]. *)
Theorem siafund_ledger_round_trip (DEBUG : bool) (w : World) (bk : bolt.Bucket)
    (x : Hash) (v : SiafundOutput) :
  tx w !! SiafundOutputs = Some bk → bk !! x = None →
  wf_Hash x → wf_SiafundOutput v →
  ∃ w1,
    addSiafundOutput DEBUG x v w = (Ok tt, w1)
    ∧ getSiafundOutput DEBUG x w1 = (Ok (v, None), w1)
    ∧ addSiafundOutput true x v w1
      = (Panic (panic_string "repeat siafund output"), w1)
    ∧ removeSiafundOutput DEBUG x w1 = (Ok tt, w)
    ∧ getSiafundOutput DEBUG x w = (Ok (zeroSiafundOutput, Some errNilItem), w).
Proof.
  intros Hb Hx Hwx Hwv.
  set (bk1 := <[x := Marshal (reflect_SiafundOutput v)]> bk).
  set (w1 := mkWorld (<[SiafundOutputs := bk1]> (tx w)) (stdout w)).
  assert (Hb1 : tx w1 !! SiafundOutputs = Some bk1) by apply lookup_insert_eq.
  assert (Hx1 : bk1 !! x = Some (Marshal (reflect_SiafundOutput v)))
    by apply lookup_insert_eq.
  exists w1. split; [|split; [|split; [|split]]].
  - apply addSiafundOutput_fresh; assumption.
  - rewrite (getSiafundOutput_run DEBUG w1 bk1) by exact Hb1.
    rewrite Hx1, Unmarshal_SiafundOutput by exact Hwv. reflexivity.
  - apply (addSiafundOutput_repeat true w1 bk1); [reflexivity | exact Hb1 |].
    rewrite Hx1. eauto.
  - rewrite (removeSiafundOutput_present DEBUG w1 bk1) by (rewrite ?Hx1; eauto).
    unfold w1, bk1. cbn [tx stdout].
    rewrite insert_insert_eq, delete_insert_id by exact Hx.
    rewrite tx_insert_id by exact Hb. reflexivity.
  - rewrite (getSiafundOutput_run DEBUG w bk) by exact Hb. rewrite Hx. reflexivity.
Qed.

(** ** The guards and the build flag *)

Lemma addSiacoinOutput_release (w : World) (bk : bolt.Bucket) (id : Hash)
    (sco : SiacoinOutput) :
  tx w !! SiacoinOutputs = Some bk → wf_Hash id →
  addSiacoinOutput false id sco w
  = (Ok tt, mkWorld (<[SiacoinOutputs :=
                         <[id := Marshal (reflect_SiacoinOutput sco)]> bk]> (tx w))
                    (stdout w)).
Proof.
  intros Hb Hwf. unfold addSiacoinOutput, when. repeat mstep. mdone.
Qed.

Lemma removeSiacoinOutput_release (w : World) (bk : bolt.Bucket) (id : Hash) :
  tx w !! SiacoinOutputs = Some bk →
  removeSiacoinOutput false id w
  = (Ok tt, mkWorld (<[SiacoinOutputs := delete id bk]> (tx w)) (stdout w)).
Proof.
  intros Hb. unfold removeSiacoinOutput, when. repeat mstep. mdone.
Qed.

Lemma addSiafundOutput_release (w : World) (bk : bolt.Bucket) (id : Hash)
    (sfo : SiafundOutput) :
  tx w !! SiafundOutputs = Some bk → wf_Hash id →
  addSiafundOutput false id sfo w
  = (Ok tt, mkWorld (<[SiafundOutputs :=
                         <[id := Marshal (reflect_SiafundOutput sfo)]> bk]> (tx w))
                    (stdout w)).
Proof.
  intros Hb Hwf. unfold addSiafundOutput, when. repeat mstep. mdone.
Qed.

Lemma removeSiafundOutput_release (w : World) (bk : bolt.Bucket) (id : Hash) :
  tx w !! SiafundOutputs = Some bk →
  removeSiafundOutput false id w
  = (Ok tt, mkWorld (<[SiafundOutputs := delete id bk]> (tx w)) (stdout w)).
Proof.
  intros Hb. unfold removeSiafundOutput, when. repeat mstep. mdone.
Qed.

Lemma delete_absent_world (w : World) (name : bytes) (bk : bolt.Bucket) (id : Hash) :
  tx w !! name = Some bk → bk !! id = None →
  mkWorld (<[name := delete id bk]> (tx w)) (stdout w) = w.
Proof.
  intros Hb Hid. rewrite delete_id by exact Hid. apply tx_insert_id, Hb.
Qed.

(** X11. The sanity checks of the two output ledgers exist under
    [build.DEBUG] only. Without the flag, adding an output returns normally
    whether or not its id is already present, and the record found under the
    id afterwards is the one just added; removing an id that is absent
    returns normally and changes nothing. *)
Theorem output_guards_absent_without_debug (w : World) (so sf : bolt.Bucket)
    (id : Hash) (sco : SiacoinOutput) (sfo : SiafundOutput) :
  tx w !! SiacoinOutputs = Some so → tx w !! SiafundOutputs = Some sf →
  wf_Hash id → wf_SiacoinOutput sco → wf_SiafundOutput sfo →
  (∃ w', addSiacoinOutput false id sco w = (Ok tt, w')
         ∧ getSiacoinOutput id w' = (Ok (sco, None), w'))
  ∧ (so !! id = None → removeSiacoinOutput false id w = (Ok tt, w))
  ∧ (∃ w', addSiafundOutput false id sfo w = (Ok tt, w')
           ∧ getSiafundOutput false id w' = (Ok (sfo, None), w'))
  ∧ (sf !! id = None → removeSiafundOutput false id w = (Ok tt, w)).
Proof.
  intros Hso Hsf Hid Hsco Hsfo. split; [|split; [|split]].
  - eexists. split; [apply addSiacoinOutput_release; eassumption|].
    erewrite getSiacoinOutput_run by apply lookup_insert_eq.
    rewrite lookup_insert_eq, Unmarshal_SiacoinOutput by exact Hsco. reflexivity.
  - intros Hnone. rewrite (removeSiacoinOutput_release w so) by exact Hso.
    f_equal. apply delete_absent_world; assumption.
  - eexists. split; [apply addSiafundOutput_release; eassumption|].
    erewrite getSiafundOutput_run by apply lookup_insert_eq.
    rewrite lookup_insert_eq, Unmarshal_SiafundOutput by exact Hsfo. reflexivity.
  - intros Hnone. rewrite (removeSiafundOutput_release w sf) by exact Hsf.
    f_equal. apply delete_absent_world; assumption.
Qed.

(** ** The siafund pool *)

Section Pool.
Variable DEBUG : bool.

Lemma getSiafundPool_missing (w : World) (bk : bolt.Bucket) :
  tx w !! SiafundPool = Some bk → bk !! SiafundPool = None →
  getSiafundPool DEBUG w
  = if DEBUG then (Panic (panic_error decodeError), w) else (Ok 0%N, w).
Proof.
  intros Hb Hk. unfold getSiafundPool. mstep. mstep. rewrite Hk.
  rewrite Unmarshal_into_nil by apply Unmarshal_nil_Currency.
  destruct DEBUG; reflexivity.
Qed.

End Pool.

(** X12. The siafund pool is a single cell. [setSiafundPool c] followed by
    [getSiafundPool] returns [c]; a second [setSiafundPool] replaces the
    first, the state being the one the second alone would give; and buckets
    other than the pool's are untouched. *)
Theorem siafund_pool_set_get (DEBUG : bool) (w : World) (bk : bolt.Bucket)
    (c c' : Currency) :
  tx w !! SiafundPool = Some bk → Currency_encodable c →
  ∃ w1 w2,
    setSiafundPool DEBUG c' w = (Ok tt, w1)
    ∧ setSiafundPool DEBUG c w1 = (Ok tt, w2)
    ∧ setSiafundPool DEBUG c w = (Ok tt, w2)
    ∧ getSiafundPool DEBUG w2 = (Ok c, w2)
    ∧ (∀ name, name ≠ SiafundPool → tx w2 !! name = tx w !! name)
    ∧ stdout w2 = stdout w.
Proof.
  intros Hb Hc. eexists. eexists. split; [|split; [|split; [|split; [|split]]]].
  - eapply setSiafundPool_run. exact Hb.
  - erewrite setSiafundPool_run by apply lookup_insert_eq. cbn [tx stdout].
    rewrite !insert_insert_eq. reflexivity.
  - eapply setSiafundPool_run. exact Hb.
  - eapply getSiafundPool_stored; [apply lookup_insert_eq | apply lookup_insert_eq | exact Hc].
  - intros name Hne. cbn [tx]. apply lookup_insert_ne. congruence.
  - reflexivity.
Qed.

(** X13. A cell that was never written reads as zero only without the debug
    assertions. When the height counter, the path entry of a height, or the
    siafund pool has no stored value, [blockHeight], [getPath] and
    [getSiafundPool] panic with the decoding error under [build.DEBUG];
    without it the error is ignored and they return 0, the all-zero id and
    the zero currency. *)
Theorem unwritten_cells_read_as_zero (w : World) (bk : bolt.Bucket) (k : Z) :
  (tx w !! BlockHeight = Some bk → bk !! BlockHeight = None →
     blockHeight true w = (Panic (panic_error decodeError), w)
     ∧ blockHeight false w = (Ok 0, w))
  ∧ (tx w !! BlockPath = Some bk → bk !! Marshal (Uint k) = None →
       getPath true k w = (Panic (panic_error decodeError), w)
       ∧ getPath false k w = (Ok ZeroHash, w))
  ∧ (tx w !! SiafundPool = Some bk → bk !! SiafundPool = None →
       getSiafundPool true w = (Panic (panic_error decodeError), w)
       ∧ getSiafundPool false w = (Ok 0%N, w)).
Proof.
  split; [|split]; intros Hb Hk; split.
  - rewrite (blockHeight_missing true w bk) by assumption. reflexivity.
  - rewrite (blockHeight_missing false w bk) by assumption. reflexivity.
  - rewrite (getPath_missing true w bk) by assumption. reflexivity.
  - rewrite (getPath_missing false w bk) by assumption. reflexivity.
  - rewrite (getSiafundPool_missing true w bk) by assumption. reflexivity.
  - rewrite (getSiafundPool_missing false w bk) by assumption. reflexivity.
Qed.

(** ** The contract ledger, further *)

Lemma addFileContract_release (w : World) (fcs : bolt.Bucket) (id : Hash)
    (fc : FileContract) :
  tx w !! FileContracts = Some fcs → wf_Hash id →
  addFileContract false id fc w
  = (Ok tt,
     mkWorld (<[expirationBucketID (WindowEnd fc) :=
                  <[id := []]> (default ∅ (tx w !! expirationBucketID (WindowEnd fc)))]>
                (<[FileContracts := <[id := Marshal (reflect_FileContract fc)]> fcs]>
                   (tx w)))
             (stdout w)).
Proof.
  intros Hb Hwf. unfold addFileContract, when. repeat mstep.
  erewrite bind_run by (apply tx_CreateBucketIfNotExists_run, fcex_nonempty).
  repeat mstep.
  etransitivity; [apply ret_run|].
  rewrite insert_ensure_bucket.
  rewrite (lookup_insert_ne _ FileContracts) by (apply not_eq_sym, fcex_ne_FileContracts).
  reflexivity.
Qed.

Lemma encodable_FileContract_wf (fc : FileContract) :
  encodable_FileContract fc → wf_FileContract fc.
Proof. intros (_ & Hroot & _ & Hwe & _). split; assumption. Qed.

(** X14. The contract ledger gives back what was added. For an id not in
    the ledger, [addFileContract] followed by [getFileContract] returns the
    contract with a nil error. The [removeFileContract] that follows makes
    the lookup report [errNilItem] and restores the primary bucket; the
    expiration bucket of the contract's window end is not deleted with its
    last marker, so it stays behind (empty, if the add created it), and
    every other bucket is as it was. *)
Theorem file_contract_round_trip (DEBUG : bool) (w : World) (fcs : bolt.Bucket)
    (id : Hash) (fc : FileContract) :
  tx w !! FileContracts = Some fcs → fcs !! id = None →
  wf_Hash id → encodable_FileContract fc →
  ∃ w1 w2,
    addFileContract DEBUG id fc w = (Ok tt, w1)
    ∧ getFileContract id w1 = (Ok (fc, None), w1)
    ∧ removeFileContract DEBUG id w1 = (Ok tt, w2)
    ∧ getFileContract id w2 = (Ok (zeroFileContract, Some errNilItem), w2)
    ∧ tx w2 !! FileContracts = Some fcs
    ∧ tx w2 !! expirationBucketID (WindowEnd fc)
      = Some (delete id (default ∅ (tx w !! expirationBucketID (WindowEnd fc))))
    ∧ (∀ name, name ≠ expirationBucketID (WindowEnd fc) →
         tx w2 !! name = tx w !! name)
    ∧ stdout w2 = stdout w.
Proof.
  intros Hb Hid Hwf Henc.
  pose proof (encodable_FileContract_wf fc Henc) as [Hroot Hwe].
  set (name := expirationBucketID (WindowEnd fc)).
  set (eb0 := default ∅ (tx w !! name)).
  set (fcs1 := <[id := Marshal (reflect_FileContract fc)]> fcs).
  set (w1 := mkWorld (<[name := <[id := []]> eb0]> (<[FileContracts := fcs1]> (tx w)))
                     (stdout w)).
  assert (Hne : name ≠ FileContracts) by apply expirationBucketID_ne_FileContracts.
  assert (Hfcs1 : tx w1 !! FileContracts = Some fcs1).
  { cbn [w1 tx]. rewrite lookup_insert_ne by exact Hne. apply lookup_insert_eq. }
  assert (Heb1 : tx w1 !! name = Some (<[id := []]> eb0)) by apply lookup_insert_eq.
  set (w2 := mkWorld (<[name := delete id (<[id := []]> eb0)]>
                        (<[FileContracts := delete id fcs1]> (tx w1))) (stdout w1)).
  assert (Hfcs2 : tx w2 !! FileContracts = Some fcs).
  { cbn [w2 tx]. rewrite lookup_insert_ne by exact Hne. rewrite lookup_insert_eq.
    unfold fcs1. rewrite delete_insert_id by exact Hid. reflexivity. }
  exists w1, w2. split; [|split; [|split; [|split; [|split; [|split; [|split]]]]]].
  - apply addFileContract_fresh; assumption.
  - rewrite (getFileContract_run w1 fcs1) by exact Hfcs1.
    unfold fcs1. rewrite lookup_insert_eq, Unmarshal_FileContract by exact Henc.
    reflexivity.
  - apply (removeFileContract_run DEBUG w1 fcs1 (<[id := []]> eb0) id
             (Marshal (reflect_FileContract fc)) (Marshal (Uint (WindowEnd fc)))).
    + exact Hfcs1.
    + apply lookup_insert_eq.
    + apply Marshal_FileContract_WindowEnd, Hroot.
    + exact Heb1.
    + rewrite lookup_insert_eq. eauto.
  - rewrite (getFileContract_run w2 fcs) by exact Hfcs2. rewrite Hid. reflexivity.
  - exact Hfcs2.
  - cbn [w2 tx]. rewrite lookup_insert_eq, delete_insert_eq. reflexivity.
  - intros n Hn. cbn [w2 w1 tx]. rewrite lookup_insert_ne by congruence.
    destruct (decide (n = FileContracts)) as [->|Hn'].
    + rewrite lookup_insert_eq. unfold fcs1.
      rewrite delete_insert_id by exact Hid. symmetry. exact Hb.
    + rewrite !lookup_insert_ne by congruence. reflexivity.
  - reflexivity.
Qed.

(** X15. Removing a contract that is not in the ledger is fatal in either
    build. Under the debug assertions [removeFileContract] panics with "nil
    file contract"; without them it goes on to slice bytes 48 to 56 out of
    the nil record, which is a run-time panic. In both cases the
    transaction at the panic is the one before the call. *)
Theorem removeFileContract_absent_always_fatal (w : World) (fcs : bolt.Bucket)
    (id : Hash) :
  tx w !! FileContracts = Some fcs → fcs !! id = None →
  removeFileContract true id w = (Panic (panic_string "nil file contract"), w)
  ∧ removeFileContract false id w = (Panic slice_out_of_range, w).
Proof.
  intros Hb Hid. split.
  - apply (removeFileContract_nil true w fcs id); auto.
  - unfold removeFileContract. repeat mstep. rewrite Hid.
    change (slice 48 56 (of_slice None)) with (@None bytes). cbv beta iota.
    rewrite delete_absent_world by assumption. reflexivity.
Qed.

(** X16. Without the debug assertions the expiration index can go stale.
    When [addFileContract] is run without [build.DEBUG] on an id that is
    already in the ledger with another window end, the call returns
    normally: the record is replaced and a marker is added for the new
    window end, but the marker of the old window end stays, so the index no
    longer agrees with the primary bucket. *)
Theorem addFileContract_overwrite_leaves_stale_marker (w : World)
    (fcs : bolt.Bucket) (id : Hash) (fc0 fc : FileContract) :
  tx w !! FileContracts = Some fcs →
  fcs !! id = Some (Marshal (reflect_FileContract fc0)) →
  expiration_marker w (WindowEnd fc0) id →
  wf_Hash id → wf_FileContract fc0 → wf_FileContract fc →
  WindowEnd fc ≠ WindowEnd fc0 →
  ∃ w',
    addFileContract false id fc w = (Ok tt, w')
    ∧ contract_record w' id = Some (Marshal (reflect_FileContract fc))
    ∧ expiration_marker w' (WindowEnd fc) id
    ∧ expiration_marker w' (WindowEnd fc0) id
    ∧ ¬ contract_expires w' id (WindowEnd fc0)
    ∧ ¬ expiration_index_agrees w'.
Proof.
  intros Hb Hid Hold Hwf [Hroot0 Hwe0] [Hroot Hwe] Hne.
  eexists. split; [apply addFileContract_release; eassumption|].
  assert (Hrec : contract_record
            (mkWorld (<[expirationBucketID (WindowEnd fc) :=
                          <[id := []]> (default ∅ (tx w !! expirationBucketID (WindowEnd fc)))]>
                        (<[FileContracts := <[id := Marshal (reflect_FileContract fc)]> fcs]>
                           (tx w))) (stdout w)) id
          = Some (Marshal (reflect_FileContract fc))).
  { rewrite add_contract_record. rewrite decide_True by reflexivity. reflexivity. }
  assert (Hstale : expiration_marker
            (mkWorld (<[expirationBucketID (WindowEnd fc) :=
                          <[id := []]> (default ∅ (tx w !! expirationBucketID (WindowEnd fc)))]>
                        (<[FileContracts := <[id := Marshal (reflect_FileContract fc)]> fcs]>
                           (tx w))) (stdout w)) (WindowEnd fc0) id).
  { apply add_expiration_marker; auto. }
  assert (Hnot : ¬ contract_expires
            (mkWorld (<[expirationBucketID (WindowEnd fc) :=
                          <[id := []]> (default ∅ (tx w !! expirationBucketID (WindowEnd fc)))]>
                        (<[FileContracts := <[id := Marshal (reflect_FileContract fc)]> fcs]>
                           (tx w))) (stdout w)) id (WindowEnd fc0)).
  { intros (b & Hb' & Hs). rewrite Hrec in Hb'.
    assert (b = Marshal (reflect_FileContract fc)) as -> by congruence.
    rewrite (Marshal_FileContract_WindowEnd fc Hroot) in Hs.
    assert (E : Marshal (Uint (WindowEnd fc)) = Marshal (Uint (WindowEnd fc0)))
      by congruence.
    apply Hne. exact (Marshal_Uint_inj _ _ Hwe Hwe0 E). }
  split; [exact Hrec|]. split; [|split; [exact Hstale|split; [exact Hnot|]]].
  - apply add_expiration_marker; auto.
  - intros (_ & _ & Hagree). apply Hnot. apply Hagree; assumption.
Qed.

(** ** The maturation queue, further *)

Section MaturationGuards.

Lemma tx_CreateBucket_exists (name : bytes) (w : World) (bk : bolt.Bucket) :
  name ≠ [] → tx w !! name = Some bk →
  tx_CreateBucket name w = (Ok (None, Some (boltError bolt.ErrBucketExists)), w).
Proof.
  intros Hn Hb. unfold tx_CreateBucket, bolt.CreateBucket.
  rewrite decide_False by exact Hn. rewrite Hb. reflexivity.
Qed.

Lemma tx_DeleteBucket_missing (name : bytes) (w : World) :
  tx w !! name = None →
  tx_DeleteBucket name w = (Ok (Some (boltError bolt.ErrBucketNotFound)), w).
Proof.
  intros Hb. unfold tx_DeleteBucket, bolt.DeleteBucket. rewrite Hb.
  cbn. rewrite World_eta. reflexivity.
Qed.

End MaturationGuards.

(** X17. The guards of [addDSCO]. Under the debug assertions an id that is
    already in the unspent-output set panics with "dsco already in output
    set", and an id that is already in the bucket of the height panics with
    [errRepeatInsert]; nothing is written in either case. When the bucket
    of the height was never created, the call panics on the nil bucket, in
    either build. *)
Theorem addDSCO_guards (w : World) (so : bolt.Bucket) (bh : Z) (id : Hash)
    (sco : SiacoinOutput) :
  tx w !! SiacoinOutputs = Some so →
  (is_Some (so !! id) →
     addDSCO true bh id sco w
     = (Panic (panic_string "dsco already in output set"), w))
  ∧ (∀ bk, so !! id = None →
       tx w !! addDSCO_dscoBucketID bh = Some bk → is_Some (bk !! id) →
       addDSCO true bh id sco w = (Panic (panic_error errRepeatInsert), w))
  ∧ (∀ DEBUG, so !! id = None → tx w !! addDSCO_dscoBucketID bh = None →
       addDSCO DEBUG bh id sco w = (Panic nil_dereference, w)).
Proof.
  intros Hso. split; [|split].
  - intros [v Hv]. unfold addDSCO, when. repeat mstep.
    rewrite Hv, not_nil_Some. repeat mstep. reflexivity.
  - intros bk Hid Hb [v Hv]. unfold addDSCO, when. repeat mstep.
    rewrite Hid, not_nil_None. repeat mstep.
    rewrite Hv, not_nil_Some. repeat mstep. reflexivity.
  - intros DEBUG Hid Hb. unfold addDSCO. destruct DEBUG; unfold when.
    + repeat mstep. rewrite Hid, not_nil_None. repeat mstep. reflexivity.
    + repeat mstep. reflexivity.
Qed.

(** X18. The life of a maturation bucket. Creating the bucket of a height
    that has none gives an empty bucket, and deleting it again restores the
    transaction exactly. Creating a bucket that exists panics with bolt's
    [ErrBucketExists] under the debug assertions and is silently ignored
    without them, the existing bucket kept as it is. Deleting a bucket that
    does not exist panics with [errNilBucket] under the debug assertions
    and is silently ignored without them. *)
Theorem dsco_bucket_lifecycle (w : World) (bh : Z) :
  (tx w !! createDSCOBucket_bucketID bh = None →
     (∀ DEBUG, ∃ w1,
        createDSCOBucket DEBUG bh w = (Ok tt, w1)
        ∧ tx w1 !! createDSCOBucket_bucketID bh = Some ∅
        ∧ deleteDSCOBucket DEBUG bh w1 = (Ok tt, w))
     ∧ deleteDSCOBucket true bh w = (Panic (panic_error errNilBucket), w)
     ∧ deleteDSCOBucket false bh w = (Ok tt, w))
  ∧ (∀ bk, tx w !! createDSCOBucket_bucketID bh = Some bk →
       createDSCOBucket true bh w
       = (Panic (panic_error (boltError bolt.ErrBucketExists)), w)
       ∧ createDSCOBucket false bh w = (Ok tt, w)).
Proof.
  split.
  - intros Hnone. split; [|split].
    + intros DEBUG. eexists. split; [apply createDSCOBucket_run, Hnone|]. split.
      * apply lookup_insert_eq.
      * erewrite deleteDSCOBucket_run
          by (change (deleteDSCOBucket_bucketID bh) with (createDSCOBucket_bucketID bh);
              apply lookup_insert_eq).
        cbn [tx stdout].
        change (deleteDSCOBucket_bucketID bh) with (createDSCOBucket_bucketID bh).
        rewrite delete_insert_id by exact Hnone. rewrite World_eta. reflexivity.
    + apply deleteDSCOBucket_nil; [reflexivity | exact Hnone].
    + unfold deleteDSCOBucket.
      change (deleteDSCOBucket_bucketID bh) with (createDSCOBucket_bucketID bh).
      mstep. cbn [andb].
      erewrite bind_run by apply when_false.
      erewrite bind_run by (apply tx_DeleteBucket_missing, Hnone).
      reflexivity.
  - intros bk Hb. split.
    + apply createDSCOBucket_exists; eauto.
    + unfold createDSCOBucket.
      erewrite bind_run
        by (eapply tx_CreateBucket_exists; [apply dsco_bucketID_nonempty | exact Hb]).
      reflexivity.
Qed.

(** ** Iterating over a maturation bucket *)

Lemma bytes_leb_total (a b : bytes) :
  bolt.bytes_leb a b = true ∨ bolt.bytes_leb b a = true.
Proof.
  revert b. induction a as [|x a IH]; intros [|y b]; cbn; auto.
  destruct (Z.ltb_spec (byte.unsigned x) (byte.unsigned y)); auto.
  destruct (Z.ltb_spec (byte.unsigned y) (byte.unsigned x)); auto.
Qed.

Lemma bytes_leb_trans (a b c : bytes) :
  bolt.bytes_leb a b = true → bolt.bytes_leb b c = true → bolt.bytes_leb a c = true.
Proof.
  revert b c. induction a as [|x a IH]; intros [|y b] [|z c]; cbn; auto;
    try discriminate.
  destruct (Z.ltb_spec (byte.unsigned x) (byte.unsigned y)),
           (Z.ltb_spec (byte.unsigned y) (byte.unsigned x)),
           (Z.ltb_spec (byte.unsigned y) (byte.unsigned z)),
           (Z.ltb_spec (byte.unsigned z) (byte.unsigned y)),
           (Z.ltb_spec (byte.unsigned x) (byte.unsigned z)),
           (Z.ltb_spec (byte.unsigned z) (byte.unsigned x));
    intros; try discriminate; try lia; eauto.
Qed.

#[local] Instance entry_le_total : Total bolt.entry_le.
Proof. intros x y. apply bytes_leb_total. Qed.

#[local] Instance entry_le_trans : Transitive bolt.entry_le.
Proof. intros x y z. apply bytes_leb_trans. Qed.

Lemma entries_Permutation (bk : bolt.Bucket) : bolt.entries bk ≡ₚ map_to_list bk.
Proof. apply merge_sort_Permutation. Qed.

Lemma entries_sorted (bk : bolt.Bucket) : StronglySorted bolt.entry_le (bolt.entries bk).
Proof. apply StronglySorted_merge_sort; apply _. Qed.

Lemma elem_of_entries (bk : bolt.Bucket) (k v : bytes) :
  (k, v) ∈ bolt.entries bk ↔ bk !! k = Some v.
Proof. rewrite entries_Permutation. apply elem_of_map_to_list. Qed.

(** What [forEachDSCO] decodes from an entry. *)
Lemma dsco_entry_decodes (x : Hash * SiacoinOutput) :
  wf_Hash x.1 → wf_SiacoinOutput x.2 →
  Unmarshal (decodeByteArray HashSize) (dsco_entry x).1 = Some x.1
  ∧ Unmarshal decodeSiacoinOutput (dsco_entry x).2 = Some x.2.
Proof.
  intros Hk Hv. split; [apply Unmarshal_Hash, Hk | apply Unmarshal_SiacoinOutput, Hv].
Qed.

Lemma forEach_entries_decoded (fn : Hash → SiacoinOutput → M (option error))
    (l : list (Hash * SiacoinOutput)) (w : World) :
  Forall (λ x, wf_Hash x.1 ∧ wf_SiacoinOutput x.2) l →
  forEach_entries
    (λ kb vb,
       match Unmarshal (decodeByteArray HashSize) kb with
       | None => ret (Some decodeError)
       | Some key =>
           match Unmarshal decodeSiacoinOutput vb with
           | None => ret (Some decodeError)
           | Some value => fn key value
           end
       end) (dsco_entry <$> l) w
  = visit_each fn l w.
Proof.
  intros Hall. revert w. induction Hall as [|[id sco] l [Hk Hv] _ IH]; intros w.
  - reflexivity.
  - cbn [fmap list_fmap forEach_entries visit_each dsco_entry fst snd] in *.
    rewrite Unmarshal_Hash by exact Hk.
    rewrite Unmarshal_SiacoinOutput by exact Hv.
    unfold bind. destruct (fn id sco w) as [[[e|]|p] w']; auto.
Qed.

Lemma dsco_bucket_typed (bk : bolt.Bucket) :
  dsco_bucket_wf bk →
  ∃ l, dsco_entry <$> l = bolt.entries bk
       ∧ Forall (λ x, wf_Hash x.1 ∧ wf_SiacoinOutput x.2) l.
Proof.
  intros Hwf.
  assert (Hall : Forall (λ kv, ∃ x, dsco_entry x = kv
                               ∧ wf_Hash x.1 ∧ wf_SiacoinOutput x.2)
                   (bolt.entries bk)).
  { apply Forall_forall. intros [k v] Hin. apply elem_of_entries in Hin.
    destruct (Hwf k v Hin) as (Hk & sco & Hsco & ->).
    exists (k, sco). auto. }
  induction Hall as [|kv kvs (x & <- & Hx) _ (l & <- & Hl)].
  - exists []. split; [reflexivity | constructor].
  - exists (x :: l). split; [reflexivity | constructor; assumption].
Qed.

Lemma StronglySorted_fmap_inv {A B} (R : B → B → Prop) (f : A → B) (l : list A) :
  StronglySorted R (f <$> l) → StronglySorted (λ x y, R (f x) (f y)) l.
Proof.
  induction l as [|x l IH]; cbn; intros H; [constructor|].
  apply StronglySorted_inv in H as [Hs Hall].
  constructor; [apply IH, Hs|].
  exact (proj1 (Forall_fmap f (R (f x)) l) Hall).
Qed.

(** X19. [forEachDSCO] visits the delayed outputs of a height once each, in
    the byte order of their ids. For a bucket whose entries are well formed
    there is a list of (id, output) pairs that is, encoded, a permutation
    of the bucket's entries, that is sorted by id without repetition, and
    on which the call behaves as calling [fn] on each pair in turn up to
    the first error, for every [fn] that leaves the transaction as it found
    it. *)
Theorem forEachDSCO_visits_in_key_order (w : World) (bk : bolt.Bucket) (bh : Z) :
  tx w !! forEachDSCO_bucketID bh = Some bk → dsco_bucket_wf bk →
  ∃ l : list (Hash * SiacoinOutput),
    dsco_entry <$> l ≡ₚ map_to_list bk
    ∧ StronglySorted key_le l
    ∧ NoDup l.*1
    ∧ ∀ fn, (∀ id sco, keeps_tx (fn id sco)) →
        forEachDSCO bh fn w = visit_each fn l w.
Proof.
  intros Hb Hwf. destruct (dsco_bucket_typed bk Hwf) as (l & Hl & Hall).
  exists l. split; [|split; [|split]].
  - rewrite Hl. apply entries_Permutation.
  - apply (StronglySorted_fmap_inv bolt.entry_le dsco_entry).
    rewrite Hl. apply entries_sorted.
  - assert (l.*1 = (bolt.entries bk).*1) as ->.
    { rewrite <- Hl, <- list_fmap_compose. reflexivity. }
    rewrite entries_Permutation. apply NoDup_fst_map_to_list.
  - intros fn _. unfold forEachDSCO. mstep.
    unfold b_ForEach, with_bucket. rewrite Hb, <- Hl.
    apply forEach_entries_decoded, Hall.
Qed.

Lemma forEach_entries_undecodable (fn : Hash → SiacoinOutput → M (option error))
    (kvs : list (bytes * bytes)) (w : World) :
  (∀ id sco w', fn id sco w' = (Ok None, w')) →
  Exists (λ kv, dsco_undecodable kv.1 kv.2) kvs →
  forEach_entries
    (λ kb vb,
       match Unmarshal (decodeByteArray HashSize) kb with
       | None => ret (Some decodeError)
       | Some key =>
           match Unmarshal decodeSiacoinOutput vb with
           | None => ret (Some decodeError)
           | Some value => fn key value
           end
       end) kvs w
  = (Ok (Some decodeError), w).
Proof.
  intros Hfn. induction kvs as [|[k v] kvs IH]; intros Hex.
  - inversion Hex.
  - cbn [forEach_entries].
    destruct (Unmarshal (decodeByteArray HashSize) k) as [key|] eqn:Hk; [|reflexivity].
    destruct (Unmarshal decodeSiacoinOutput v) as [value|] eqn:Hv; [|reflexivity].
    erewrite bind_run by apply Hfn. cbv beta iota.
    apply IH. apply Exists_cons in Hex as [Hbad|Hex]; [|exact Hex].
    unfold dsco_undecodable in Hbad. cbn [fst snd] in Hbad.
    destruct Hbad; congruence.
Qed.

(** X20. Where [forEachDSCO] fails. On a height that has no bucket the call
    panics on the nil bucket. On an empty bucket it returns nil without
    calling the function. When some entry of the bucket cannot be decoded,
    the call returns the decoding error even though the function itself
    never fails. *)
Theorem forEachDSCO_failures (w : World) (bh : Z)
    (fn : Hash → SiacoinOutput → M (option error)) :
  (tx w !! forEachDSCO_bucketID bh = None →
     forEachDSCO bh fn w = (Panic nil_dereference, w))
  ∧ (tx w !! forEachDSCO_bucketID bh = Some ∅ →
       forEachDSCO bh fn w = (Ok None, w))
  ∧ (∀ bk k v,
       tx w !! forEachDSCO_bucketID bh = Some bk →
       bk !! k = Some v → dsco_undecodable k v →
       (∀ id sco w', fn id sco w' = (Ok None, w')) →
       forEachDSCO bh fn w = (Ok (Some decodeError), w)).
Proof.
  split; [|split].
  - intros Hb. unfold forEachDSCO. mstep. reflexivity.
  - intros Hb. unfold forEachDSCO. mstep.
    unfold b_ForEach, with_bucket. rewrite Hb. reflexivity.
  - intros bk k v Hb Hkv Hbad Hfn. unfold forEachDSCO. mstep.
    unfold b_ForEach, with_bucket. rewrite Hb.
    apply forEach_entries_undecodable; [exact Hfn|].
    apply Exists_exists. exists (k, v). split; [|exact Hbad].
    apply elem_of_entries, Hkv.
Qed.

(** ** What the lookups leave alone *)

Lemma read_only_ret {A} (a : A) : read_only (ret a).
Proof. intros w. reflexivity. Qed.

Lemma read_only_panic {A} (p : panic_value) : read_only (panic (A := A) p).
Proof. intros w. reflexivity. Qed.

Lemma read_only_bind {A B} (m : M A) (k : A → M B) :
  read_only m → (∀ a, read_only (k a)) → read_only (x <- m ;; k x).
Proof.
  intros Hm Hk w. unfold bind. specialize (Hm w).
  destruct (m w) as [[a|p] w']; cbn [snd] in *; subst; [apply Hk | reflexivity].
Qed.

Lemma read_only_when (c : bool) (m : M unit) : read_only m → read_only (when c m).
Proof. intros Hm. destruct c; [exact Hm | apply read_only_ret]. Qed.

Lemma read_only_panic_on (err : option error) : read_only (panic_on err).
Proof. destruct err; [apply read_only_panic | apply read_only_ret]. Qed.

Lemma read_only_tx_Bucket (name : bytes) : read_only (tx_Bucket name).
Proof. intros w. reflexivity. Qed.

Lemma read_only_b_Get (b : BucketRef) (key : bytes) : read_only (b_Get b key).
Proof.
  intros w. unfold b_Get, with_bucket. destruct b as [name|]; [|reflexivity].
  destruct (tx w !! name); reflexivity.
Qed.

Lemma read_only_forEach_entries (fn : bytes → bytes → M (option error))
    (kvs : list (bytes * bytes)) :
  (∀ k v, read_only (fn k v)) → read_only (forEach_entries fn kvs).
Proof.
  intros Hfn. induction kvs as [|[k v] kvs IH]; cbn [forEach_entries].
  - apply read_only_ret.
  - apply read_only_bind; [apply Hfn|]. intros [e|]; [apply read_only_ret | exact IH].
Qed.

Lemma read_only_b_ForEach (b : BucketRef) (fn : bytes → bytes → M (option error)) :
  (∀ k v, read_only (fn k v)) → read_only (b_ForEach b fn).
Proof.
  intros Hfn w. unfold b_ForEach, with_bucket. destruct b as [name|]; [|reflexivity].
  destruct (tx w !! name); [|reflexivity].
  apply read_only_forEach_entries, Hfn.
Qed.

Create HintDb read_only discriminated.

#[local] Hint Resolve read_only_ret read_only_panic read_only_when read_only_panic_on
  read_only_tx_Bucket read_only_b_Get : read_only.

(** One step of a proof that a sequence of operations is read-only. *)
Ltac read_only_step :=
  first [ apply read_only_bind; [|intros ?]
        | solve [auto with read_only nocore]
        | match goal with
          | |- read_only (let '(_, _) := ?p in _) => destruct p
          | |- read_only (match ?x with _ => _ end) => destruct x
          | |- read_only (if ?c then _ else _) => destruct c
          end ].

Section ReadOnly.
Variable DEBUG : bool.

Lemma read_only_blockHeight : read_only (blockHeight DEBUG).
Proof. unfold blockHeight. repeat read_only_step. Qed.

Lemma read_only_getPath (h : Z) : read_only (getPath DEBUG h).
Proof. unfold getPath. repeat read_only_step. Qed.

Lemma read_only_currentBlockID : read_only (currentBlockID DEBUG).
Proof.
  unfold currentBlockID.
  apply read_only_bind; [apply read_only_blockHeight | apply read_only_getPath].
Qed.

Lemma read_only_getBlockMap (Block : Type)
    (Unmarshal_processedBlock : bytes → processedBlock Block * option error)
    (id : Hash) :
  read_only (getBlockMap DEBUG Unmarshal_processedBlock id).
Proof. unfold getBlockMap. repeat read_only_step. Qed.

Lemma read_only_getItem (bucket : bytes) (key : value) :
  read_only (getItem DEBUG bucket key).
Proof. unfold getItem. repeat read_only_step. Qed.

End ReadOnly.

(** X21. The lookups never write. Whether they return or panic,
    [dbInitialized], [blockHeight], [getPath], [currentBlockID],
    [currentProcessedBlock], [getBlockMap], [isSiacoinOutput],
    [getSiacoinOutput], [getFileContract], [getSiafundPool], [getItem] and
    [getSiafundOutput] leave the transaction and the standard output as
    they were; so does [forEachDSCO] when the function it is given does. *)
Theorem lookups_never_write (DEBUG : bool) (Block : Type)
    (Unmarshal_processedBlock : bytes → processedBlock Block * option error) :
  read_only dbInitialized
  ∧ read_only (blockHeight DEBUG)
  ∧ (∀ h, read_only (getPath DEBUG h))
  ∧ read_only (currentBlockID DEBUG)
  ∧ read_only (currentProcessedBlock DEBUG Unmarshal_processedBlock)
  ∧ (∀ id, read_only (getBlockMap DEBUG Unmarshal_processedBlock id))
  ∧ (∀ id, read_only (isSiacoinOutput id))
  ∧ (∀ id, read_only (getSiacoinOutput id))
  ∧ (∀ id, read_only (getFileContract id))
  ∧ read_only (getSiafundPool DEBUG)
  ∧ (∀ bucket key, read_only (getItem DEBUG bucket key))
  ∧ (∀ id, read_only (getSiafundOutput DEBUG id))
  ∧ (∀ bh fn, (∀ id sco, read_only (fn id sco)) → read_only (forEachDSCO bh fn)).
Proof.
  repeat apply conj.
  - unfold dbInitialized. repeat read_only_step.
  - apply read_only_blockHeight.
  - apply read_only_getPath.
  - apply read_only_currentBlockID.
  - unfold currentProcessedBlock.
    apply read_only_bind; [apply read_only_currentBlockID|]. intros id.
    apply read_only_bind; [apply read_only_getBlockMap|]. intros [pb err].
    repeat read_only_step.
  - apply read_only_getBlockMap.
  - intros id. unfold isSiacoinOutput. repeat read_only_step.
  - intros id. unfold getSiacoinOutput. repeat read_only_step.
  - intros id. unfold getFileContract. repeat read_only_step.
  - unfold getSiafundPool. repeat read_only_step.
  - apply read_only_getItem.
  - intros id. unfold getSiafundOutput.
    apply read_only_bind; [apply read_only_getItem|]. intros [item err].
    repeat read_only_step.
  - intros bh fn Hfn. unfold forEachDSCO.
    apply read_only_bind; [apply read_only_tx_Bucket|]. intros b.
    apply read_only_b_ForEach. intros k v. repeat read_only_step.
Qed.

(** ** Missing buckets *)

(** X22. A missing bucket is never reported as an error. On a transaction
    that lacks the bucket a function works on, the function panics on the
    nil bucket, with or without the debug assertions, and nothing is
    written. This holds for the functions of the chain index, the block
    store, the three ledgers, the siafund pool and [removeDSCO]. *)
Theorem missing_bucket_is_fatal (DEBUG : bool) (Block : Type)
    (Block_ID : Block → Hash) (Marshal_processedBlock : processedBlock Block → bytes)
    (Unmarshal_processedBlock : bytes → processedBlock Block * option error)
    (w : World) :
  (tx w !! BlockHeight = None →
     blockHeight DEBUG w = (Panic nil_dereference, w)
     ∧ (∀ B, pushPath DEBUG B w = (Panic nil_dereference, w))
     ∧ popPath DEBUG w = (Panic nil_dereference, w))
  ∧ (tx w !! BlockPath = None →
       ∀ h, getPath DEBUG h w = (Panic nil_dereference, w))
  ∧ (tx w !! BlockMap = None →
       (∀ id, getBlockMap DEBUG Unmarshal_processedBlock id w
              = (Panic nil_dereference, w))
       ∧ (∀ pb, addBlockMap DEBUG Block_ID Marshal_processedBlock pb w
                = (Panic nil_dereference, w)))
  ∧ (tx w !! SiacoinOutputs = None →
       ∀ id, isSiacoinOutput id w = (Panic nil_dereference, w)
             ∧ getSiacoinOutput id w = (Panic nil_dereference, w)
             ∧ (∀ sco, addSiacoinOutput DEBUG id sco w = (Panic nil_dereference, w))
             ∧ removeSiacoinOutput DEBUG id w = (Panic nil_dereference, w))
  ∧ (tx w !! FileContracts = None →
       ∀ id, getFileContract id w = (Panic nil_dereference, w)
             ∧ (∀ fc, addFileContract DEBUG id fc w = (Panic nil_dereference, w))
             ∧ removeFileContract DEBUG id w = (Panic nil_dereference, w))
  ∧ (tx w !! SiafundOutputs = None →
       ∀ id, (∀ sfo, addSiafundOutput DEBUG id sfo w = (Panic nil_dereference, w))
             ∧ removeSiafundOutput DEBUG id w = (Panic nil_dereference, w))
  ∧ (tx w !! SiafundPool = None →
       dbInitialized w = (Ok false, w)
       ∧ getSiafundPool DEBUG w = (Panic nil_dereference, w)
       ∧ (∀ c, setSiafundPool DEBUG c w = (Panic nil_dereference, w)))
  ∧ (∀ bh id, tx w !! removeDSCO_bucketID bh = None →
       removeDSCO DEBUG bh id w = (Panic nil_dereference, w)).
Proof.
  repeat apply conj.
  - intros Hb. repeat apply conj.
    + unfold blockHeight. repeat mstep. reflexivity.
    + intros B. unfold pushPath. repeat mstep. reflexivity.
    + unfold popPath. repeat mstep. reflexivity.
  - intros Hb h. unfold getPath. repeat mstep. reflexivity.
  - intros Hb. split.
    + intros id. unfold getBlockMap. repeat mstep. reflexivity.
    + intros pb. unfold addBlockMap. repeat mstep. reflexivity.
  - intros Hb id. repeat apply conj.
    + unfold isSiacoinOutput. repeat mstep. reflexivity.
    + unfold getSiacoinOutput. repeat mstep. reflexivity.
    + intros sco. unfold addSiacoinOutput. mstep.
      destruct DEBUG; unfold when; repeat mstep; reflexivity.
    + unfold removeSiacoinOutput. mstep.
      destruct DEBUG; unfold when; repeat mstep; reflexivity.
  - intros Hb id. repeat apply conj.
    + unfold getFileContract. repeat mstep. reflexivity.
    + intros fc. unfold addFileContract. mstep.
      destruct DEBUG; unfold when; repeat mstep; reflexivity.
    + unfold removeFileContract. repeat mstep. reflexivity.
  - intros Hb id. split.
    + intros sfo. unfold addSiafundOutput. mstep.
      destruct DEBUG; unfold when; repeat mstep; reflexivity.
    + unfold removeSiafundOutput. mstep.
      destruct DEBUG; unfold when; repeat mstep; reflexivity.
  - intros Hb. repeat apply conj.
    + unfold dbInitialized. repeat mstep. reflexivity.
    + unfold getSiafundPool. repeat mstep. reflexivity.
    + intros c. unfold setSiafundPool. repeat mstep. reflexivity.
  - intros bh id Hb. unfold removeDSCO. mstep.
    destruct DEBUG; unfold when; repeat mstep; reflexivity.
Qed.

(** ** Initialisation, in full *)

Lemma ensure_bucket_lookup_ne (name n : bytes) (t : bolt.Tx) :
  name ≠ n → ensure_bucket name t !! n = t !! n.
Proof.
  intros Hne. unfold ensure_bucket. destruct (t !! name); [reflexivity|].
  apply lookup_insert_ne, Hne.
Qed.

Lemma ensure_buckets_lookup_notin (names : list bytes) (n : bytes) (t : bolt.Tx) :
  n ∉ names → foldl (flip ensure_bucket) t names !! n = t !! n.
Proof.
  revert t. induction names as [|a names IH]; intros t Hn; [reflexivity|].
  apply not_elem_of_cons in Hn as [Hna Hn]. cbn [foldl].
  rewrite IH by exact Hn. apply ensure_bucket_lookup_ne. congruence.
Qed.

Lemma ensure_buckets_lookup_in (names : list bytes) (n : bytes) (t : bolt.Tx) :
  n ∈ names → foldl (flip ensure_bucket) t names !! n = Some (bucket_of t n).
Proof.
  revert t. induction names as [|a names IH]; intros t Hn; [inversion Hn|].
  cbn [foldl]. unfold flip at 2.
  assert (Hkeep : bucket_of (ensure_bucket a t) n = bucket_of t n).
  { unfold bucket_of. destruct (decide (a = n)) as [->|Hne].
    - rewrite ensure_bucket_lookup_eq. reflexivity.
    - rewrite ensure_bucket_lookup_ne by exact Hne. reflexivity. }
  destruct (decide (n ∈ names)) as [Hin|Hnotin].
  - rewrite IH by exact Hin. rewrite Hkeep. reflexivity.
  - apply elem_of_cons in Hn as [->|Hn]; [|contradiction].
    rewrite ensure_buckets_lookup_notin by exact Hnotin.
    apply ensure_bucket_lookup_eq.
Qed.

Lemma siafund_records_notin (diffs : list modules.SiafundOutputDiff)
    (sf : bolt.Bucket) (id : Hash) :
  id ∉ modules.ID <$> diffs → siafund_records diffs sf !! id = sf !! id.
Proof.
  revert sf. induction diffs as [|d diffs IH]; intros sf Hn; [reflexivity|].
  rewrite fmap_cons in Hn. apply not_elem_of_cons in Hn as [Hne Hn].
  unfold siafund_records in *. cbn [foldl]. rewrite IH by exact Hn.
  apply lookup_insert_ne. congruence.
Qed.

Lemma siafund_records_in (diffs : list modules.SiafundOutputDiff)
    (sf : bolt.Bucket) (d : modules.SiafundOutputDiff) :
  NoDup (modules.ID <$> diffs) → d ∈ diffs →
  siafund_records diffs sf !! modules.ID d
  = Some (Marshal (reflect_SiafundOutput (modules.SiafundOutput d))).
Proof.
  revert sf. induction diffs as [|d' diffs IH]; intros sf Hnd Hin; [inversion Hin|].
  rewrite fmap_cons in Hnd. apply NoDup_cons in Hnd as [Hnotin Hnd].
  apply elem_of_cons in Hin as [->|Hin].
  - unfold siafund_records. cbn [foldl].
    change (foldl _ ?b diffs) with (siafund_records diffs b).
    rewrite siafund_records_notin by exact Hnotin. apply lookup_insert_eq.
  - unfold siafund_records in *. cbn [foldl]. apply IH; assumption.
Qed.

Section Genesis.
Variable DEBUG : bool.

Lemma addSiacoinOutput_ok (w : World) (bk : bolt.Bucket) (id : Hash)
    (sco : SiacoinOutput) :
  tx w !! SiacoinOutputs = Some bk → (DEBUG = true → bk !! id = None) → wf_Hash id →
  addSiacoinOutput DEBUG id sco w
  = (Ok tt, mkWorld (<[SiacoinOutputs :=
                         <[id := Marshal (reflect_SiacoinOutput sco)]> bk]> (tx w))
                    (stdout w)).
Proof.
  intros Hb Hfresh Hwf. destruct DEBUG.
  - apply addSiacoinOutput_fresh; auto.
  - apply addSiacoinOutput_release; auto.
Qed.

Lemma addSiafundOutput_ok (w : World) (bk : bolt.Bucket) (id : Hash)
    (sfo : SiafundOutput) :
  tx w !! SiafundOutputs = Some bk → (DEBUG = true → bk !! id = None) → wf_Hash id →
  addSiafundOutput DEBUG id sfo w
  = (Ok tt, mkWorld (<[SiafundOutputs :=
                         <[id := Marshal (reflect_SiafundOutput sfo)]> bk]> (tx w))
                    (stdout w)).
Proof.
  intros Hb Hfresh Hwf. destruct DEBUG.
  - apply addSiafundOutput_fresh; auto.
  - apply addSiafundOutput_release; auto.
Qed.

Lemma initDB_commitDiffs_ok (diffs : list modules.SiafundOutputDiff) :
  ∀ (w : World) (sf : bolt.Bucket),
    tx w !! SiafundOutputs = Some sf →
    applied_diffs diffs →
    (DEBUG = true →
       NoDup (modules.ID <$> diffs) ∧ ∀ d, d ∈ diffs → sf !! modules.ID d = None) →
    initDB_commitDiffs DEBUG diffs w
    = (Ok tt, mkWorld (<[SiafundOutputs := siafund_records diffs sf]> (tx w)) (stdout w)).
Proof.
  induction diffs as [|d rest IH]; intros w sf Hsf Hall Hfresh.
  - cbn [initDB_commitDiffs siafund_records foldl].
    rewrite tx_insert_id by exact Hsf. reflexivity.
  - apply Forall_cons in Hall as [[Hdir Hid] Hall].
    cbn [initDB_commitDiffs]. unfold commitSiafundOutputDiff.
    rewrite bool_decide_eq_true_2 by exact Hdir.
    erewrite bind_run.
    2:{ eapply addSiafundOutput_ok; [exact Hsf | | exact Hid].
        intros HD. apply (proj2 (Hfresh HD)). left. }
    rewrite (IH _ (<[modules.ID d :=
                      Marshal (reflect_SiafundOutput (modules.SiafundOutput d))]> sf)).
    + cbn [tx stdout]. rewrite insert_insert_eq. reflexivity.
    + apply lookup_insert_eq.
    + exact Hall.
    + intros HD. destruct (Hfresh HD) as [Hnd Hnone].
      rewrite fmap_cons in Hnd. apply NoDup_cons in Hnd as [Hnotin Hnd].
      split; [exact Hnd|]. intros d' Hd'. rewrite lookup_insert_ne.
      * apply Hnone. right. exact Hd'.
      * intros E. apply Hnotin. rewrite E. apply list_elem_of_fmap. eauto.
Qed.

End Genesis.

(** The first steps of [initDB], which run the same way in every case: the
    buckets are created, the counter is set, the genesis block is put and
    pushed, and the pool is set. *)
Ltac initDB_prefix w Hid :=
  destruct (initDB_setHeight_run w) as (t & bh & Ht & Hbh & Hrun);
  change [BlockPath; BlockMap; SiacoinOutputs; FileContracts;
          FileContractExpirations; SiafundOutputs; SiafundPool; BlockHeight]
    with database_buckets in Ht;
  assert (Hin : ∀ n, n ∈ database_buckets → t !! n = Some (bucket_of (tx w) n))
    by (intros n Hn; rewrite Ht; apply ensure_buckets_lookup_in, Hn);
  assert (Hout : ∀ n, n ∉ database_buckets → t !! n = tx w !! n)
    by (intros n Hn; rewrite Ht; apply ensure_buckets_lookup_notin, Hn);
  assert (HtPath : t !! BlockPath = Some (bucket_of (tx w) BlockPath))
    by (apply Hin; unfold database_buckets; repeat constructor);
  assert (HtMap : t !! BlockMap = Some (bucket_of (tx w) BlockMap))
    by (apply Hin; unfold database_buckets; repeat constructor);
  assert (HtSco : t !! SiacoinOutputs = Some (bucket_of (tx w) SiacoinOutputs))
    by (apply Hin; unfold database_buckets; repeat constructor);
  assert (HtFc : t !! FileContracts = Some (bucket_of (tx w) FileContracts))
    by (apply Hin; unfold database_buckets; repeat constructor);
  assert (HtFe : t !! FileContractExpirations
                 = Some (bucket_of (tx w) FileContractExpirations))
    by (apply Hin; unfold database_buckets; repeat constructor);
  assert (HtSfo : t !! SiafundOutputs = Some (bucket_of (tx w) SiafundOutputs))
    by (apply Hin; unfold database_buckets; repeat constructor);
  assert (HtPool : t !! SiafundPool = Some (bucket_of (tx w) SiafundPool))
    by (apply Hin; unfold database_buckets; repeat constructor);
  assert (HtHeight : t !! BlockHeight = Some (bucket_of (tx w) BlockHeight))
    by (apply Hin; unfold database_buckets; repeat constructor);
  assert (bh = bucket_of (tx w) BlockHeight) as -> by congruence;
  clear Ht Hbh Hin;
  unfold initDB; erewrite bind_run by exact Hrun; cbv beta iota;
  unfold initDB_genesis;
  erewrite bind_run by (eapply addBlockMap_run; [lookup_solve | exact Hid]);
  cbn [tx stdout];
  erewrite bind_run
    by (eapply pushPath_run; [lookup_solve | lookup_solve | lookup_solve | exact Hid]);
  cbn [tx stdout];
  change (Marshal (Uint (uint64 (0 - 1) + 1))) with (Marshal (Uint 0));
  erewrite bind_run by (eapply setSiafundPool_run; lookup_solve);
  cbn [tx stdout].

Section InitDBState.
Variable DEBUG : bool.
Variable Block : Type.
Variable Block_ID : Block → Hash.
Variable Block_MinerPayoutID : Block → Z → Hash.
Variable CalculateCoinbase : Z → Currency.
Variable Marshal_processedBlock : processedBlock Block → bytes.
Variable consensusChecksum : bolt.Tx → Hash.

(** The store [initDB] leaves behind, bucket by bucket, from any store. The
    additions must be fresh when the debug assertions are on. *)
Lemma initDB_state (cs : ConsensusSet Block) (w : World) :
  let gid := Block_ID (pb_Block (blockRoot cs)) in
  let payout := Block_MinerPayoutID (pb_Block (blockRoot cs)) 0 in
  let diffs := SiafundOutputDiffs (blockRoot cs) in
  wf_Hash gid → wf_Hash payout → applied_diffs diffs →
  (DEBUG = true →
     bucket_of (tx w) SiacoinOutputs !! payout = None
     ∧ NoDup (modules.ID <$> diffs)
     ∧ ∀ d, d ∈ diffs → bucket_of (tx w) SiafundOutputs !! modules.ID d = None) →
  ∃ cs' w',
    initDB DEBUG Block_ID Block_MinerPayoutID CalculateCoinbase
      Marshal_processedBlock consensusChecksum cs w
    = (Ok (cs', None), w')
    ∧ stdout w' = stdout w
    ∧ pb_Block (blockRoot cs') = pb_Block (blockRoot cs)
    ∧ SiafundOutputDiffs (blockRoot cs') = diffs
    ∧ (DEBUG = false → cs' = cs)
    ∧ (DEBUG = true →
         ConsensusSetHash (blockRoot cs')
         = consensusChecksum
             (<[BlockMap := <[gid := Marshal_processedBlock (blockRoot cs)]>
                              (bucket_of (tx w) BlockMap)]> (tx w')))
    ∧ tx w' !! BlockHeight
      = Some (<[BlockHeight := Marshal (Uint 0)]> (bucket_of (tx w) BlockHeight))
    ∧ tx w' !! BlockPath
      = Some (<[Marshal (Uint 0) := gid]> (bucket_of (tx w) BlockPath))
    ∧ tx w' !! BlockMap
      = Some (<[gid := Marshal_processedBlock (blockRoot cs')]>
                (bucket_of (tx w) BlockMap))
    ∧ tx w' !! SiacoinOutputs
      = Some (<[payout := Marshal (reflect_SiacoinOutput
                                     (mkSiacoinOutput (CalculateCoinbase 0) ZeroHash))]>
                (bucket_of (tx w) SiacoinOutputs))
    ∧ tx w' !! SiafundOutputs
      = Some (siafund_records diffs (bucket_of (tx w) SiafundOutputs))
    ∧ tx w' !! SiafundPool
      = Some (<[SiafundPool := Marshal (reflect_Currency (NewCurrency64 0))]>
                (bucket_of (tx w) SiafundPool))
    ∧ tx w' !! FileContracts = Some (bucket_of (tx w) FileContracts)
    ∧ tx w' !! FileContractExpirations
      = Some (bucket_of (tx w) FileContractExpirations)
    ∧ ∀ n, n ∉ database_buckets → tx w' !! n = tx w !! n.
Proof.
  intros gid payout diffs Hid Hpay Hdiffs Hfresh.
  initDB_prefix w Hid.
  erewrite bind_run.
  2:{ eapply (initDB_commitDiffs_ok DEBUG diffs); [lookup_solve | exact Hdiffs |].
      intros HD. apply (proj2 (Hfresh HD)). }
  cbn [tx stdout].
  erewrite bind_run.
  2:{ eapply (addSiacoinOutput_ok DEBUG); [lookup_solve | | exact Hpay].
      intros HD. apply (proj1 (Hfresh HD)). }
  cbn [tx stdout].
  match goal with
  | |- context [bind (if DEBUG then _ else _) _ (mkWorld ?T _)] => set (T5 := T)
  end.
  set (cs' := if DEBUG
              then mkConsensusSet
                     (mkProcessedBlock (pb_Block (blockRoot cs)) diffs
                        (consensusChecksum T5))
              else cs).
  assert (Hsame : pb_Block (blockRoot cs') = pb_Block (blockRoot cs))
    by (unfold cs'; destruct DEBUG; reflexivity).
  assert (Hdiffs' : SiafundOutputDiffs (blockRoot cs') = diffs)
    by (unfold cs'; destruct DEBUG; reflexivity).
  match goal with
  | |- context [bind ?m _ ?w0] =>
      assert (Hcs : m w0 = (Ok cs', w0)) by (unfold cs'; destruct DEBUG; reflexivity)
  end.
  erewrite bind_run by exact Hcs. clear Hcs.
  assert (HT5 : T5 !! BlockMap
                = Some (<[gid := Marshal_processedBlock (blockRoot cs)]>
                          (bucket_of (tx w) BlockMap)))
    by (unfold T5; lookup_solve).
  erewrite bind_run
    by (eapply addBlockMap_run; [exact HT5 | rewrite Hsame; exact Hid]).
  cbn [tx stdout]. rewrite Hsame. fold gid. rewrite insert_insert_eq.
  eexists cs', _. split; [reflexivity|]. cbn [tx stdout].
  split; [reflexivity|]. split; [exact Hsame|]. split; [exact Hdiffs'|].
  split; [intros HD; unfold cs'; rewrite HD; reflexivity|].
  split.
  { intros HD. unfold cs'. rewrite HD. cbn [blockRoot ConsensusSetHash].
    rewrite insert_insert_eq, insert_id by exact HT5. reflexivity. }
  split.
  { unfold T5. etransitivity; [lookup_solve|]. rewrite insert_insert_eq. reflexivity. }
  split; [unfold T5; lookup_solve|].
  split; [apply lookup_insert_eq|].
  split; [unfold T5; lookup_solve|].
  split; [unfold T5; lookup_solve|].
  split; [unfold T5; lookup_solve|].
  split; [unfold T5; lookup_solve|].
  split; [unfold T5; lookup_solve|].
  intros n Hn. unfold database_buckets in Hn.
  repeat (apply not_elem_of_cons in Hn as [? Hn]).
  unfold T5. rewrite !lookup_insert_ne by congruence.
  apply Hout. unfold database_buckets.
  repeat (apply not_elem_of_cons; split; [assumption|]). apply not_elem_of_nil.
Qed.

End InitDBState.

Lemma processedBlock_eta {Block : Type} (pb : processedBlock Block) :
  mkProcessedBlock (pb_Block pb) (SiafundOutputDiffs pb) (ConsensusSetHash pb) = pb.
Proof. destruct pb. reflexivity. Qed.

Lemma dbInitialized_run (w : World) :
  dbInitialized w = (Ok (bool_decide (is_Some (tx w !! SiafundPool))), w).
Proof.
  unfold dbInitialized, bind, tx_Bucket.
  destruct (tx w !! SiafundPool); reflexivity.
Qed.

(** X23. After [initDB] the genesis block is the current block. On a store
    to which the genesis additions are new, [initDB] returns without error,
    after which [dbInitialized] is true, [currentBlockID] is the id of the
    genesis block, and [getBlockMap] at that id and [currentProcessedBlock]
    both return the genesis block as [initDB] handed it back, provided the
    encoding of the genesis block, with any checksum, decodes to it. *)
Theorem initDB_makes_genesis_current (DEBUG : bool) (Block : Type)
    (Block_ID : Block → Hash) (Block_MinerPayoutID : Block → Z → Hash)
    (CalculateCoinbase : Z → Currency)
    (Marshal_processedBlock : processedBlock Block → bytes)
    (Unmarshal_processedBlock : bytes → processedBlock Block * option error)
    (consensusChecksum : bolt.Tx → Hash)
    (cs : ConsensusSet Block) (w : World) :
  wf_Hash (Block_ID (pb_Block (blockRoot cs))) →
  wf_Hash (Block_MinerPayoutID (pb_Block (blockRoot cs)) 0) →
  applied_diffs (SiafundOutputDiffs (blockRoot cs)) →
  (DEBUG = true →
     genesis_fresh (tx w) (Block_MinerPayoutID (pb_Block (blockRoot cs)) 0)
       (SiafundOutputDiffs (blockRoot cs))) →
  (∀ pb, pb_Block pb = pb_Block (blockRoot cs) →
     SiafundOutputDiffs pb = SiafundOutputDiffs (blockRoot cs) →
     Unmarshal_processedBlock (Marshal_processedBlock pb) = (pb, None)) →
  ∃ cs' w',
    initDB DEBUG Block_ID Block_MinerPayoutID CalculateCoinbase
      Marshal_processedBlock consensusChecksum cs w
    = (Ok (cs', None), w')
    ∧ dbInitialized w' = (Ok true, w')
    ∧ currentBlockID DEBUG w' = (Ok (Block_ID (pb_Block (blockRoot cs))), w')
    ∧ getBlockMap DEBUG Unmarshal_processedBlock
        (Block_ID (pb_Block (blockRoot cs))) w'
      = (Ok (Some (blockRoot cs'), None), w')
    ∧ currentProcessedBlock DEBUG Unmarshal_processedBlock w'
      = (Ok (Some (blockRoot cs')), w').
Proof.
  intros Hid Hpay Hdiffs Hfresh Hdec.
  destruct (initDB_state DEBUG Block Block_ID Block_MinerPayoutID CalculateCoinbase
              Marshal_processedBlock consensusChecksum cs w Hid Hpay Hdiffs Hfresh)
    as (cs' & w' & Hrun & _ & Hsame & Hd & _ & _ & Hh & Hp & Hm & _ & _ & Hpool & _).
  exists cs', w'. split; [exact Hrun|].
  assert (Hcur : currentBlockID DEBUG w'
                 = (Ok (Block_ID (pb_Block (blockRoot cs))), w')).
  { apply (currentBlockID_run DEBUG w' 0); [|lia| |exact Hid].
    - eexists. split; [exact Hh | apply lookup_insert_eq].
    - rewrite (path_entry_lookup w' _ 0 Hp). apply lookup_insert_eq. }
  assert (Hget : getBlockMap DEBUG Unmarshal_processedBlock
                   (Block_ID (pb_Block (blockRoot cs))) w'
                 = (Ok (Some (blockRoot cs'), None), w')).
  { erewrite getBlockMap_stored;
      [idtac | exact Hm | apply lookup_insert_eq | apply Hdec; assumption].
    reflexivity. }
  split; [|split; [exact Hcur|split; [exact Hget|]]].
  - rewrite dbInitialized_run, Hpool. reflexivity.
  - eapply currentProcessedBlock_run; eassumption.
Qed.

(** X24. What [initDB] leaves in an empty store besides the chain index and
    the miner payout: exactly the eight buckets of the database exist; the
    contract bucket and the bucket [FileContractExpirations] are empty, so
    no contract is found; and the siafund ledger holds the outputs of the
    genesis block's diffs and nothing else. Before the call [dbInitialized]
    is false. *)
Theorem initDB_empty_store_contents (DEBUG : bool) (Block : Type)
    (Block_ID : Block → Hash) (Block_MinerPayoutID : Block → Z → Hash)
    (CalculateCoinbase : Z → Currency)
    (Marshal_processedBlock : processedBlock Block → bytes)
    (consensusChecksum : bolt.Tx → Hash)
    (cs : ConsensusSet Block) (out : list Line) :
  wf_Hash (Block_ID (pb_Block (blockRoot cs))) →
  wf_Hash (Block_MinerPayoutID (pb_Block (blockRoot cs)) 0) →
  genesis_diffs_ok (SiafundOutputDiffs (blockRoot cs)) →
  ∃ cs' w',
    initDB DEBUG Block_ID Block_MinerPayoutID CalculateCoinbase
      Marshal_processedBlock consensusChecksum cs (empty_store out)
    = (Ok (cs', None), w')
    ∧ dbInitialized (empty_store out) = (Ok false, empty_store out)
    ∧ (∀ n, is_Some (tx w' !! n) ↔ n ∈ database_buckets)
    ∧ tx w' !! FileContracts = Some ∅
    ∧ tx w' !! FileContractExpirations = Some ∅
    ∧ (∀ id, getFileContract id w' = (Ok (zeroFileContract, Some errNilItem), w'))
    ∧ (∀ d, d ∈ SiafundOutputDiffs (blockRoot cs) →
         wf_SiafundOutput (modules.SiafundOutput d) →
         getSiafundOutput DEBUG (modules.ID d) w'
         = (Ok (modules.SiafundOutput d, None), w'))
    ∧ (∀ id, id ∉ modules.ID <$> SiafundOutputDiffs (blockRoot cs) →
         getSiafundOutput DEBUG id w'
         = (Ok (zeroSiafundOutput, Some errNilItem), w')).
Proof.
  intros Hid Hpay [Hdiffs Hnd].
  destruct (initDB_state DEBUG Block Block_ID Block_MinerPayoutID CalculateCoinbase
              Marshal_processedBlock consensusChecksum cs (empty_store out)
              Hid Hpay Hdiffs)
    as (cs' & w' & Hrun & _ & _ & _ & _ & _ & Hh & Hp & Hm & Hsco & Hsfo & Hpool
        & Hfc & Hfe & Hother).
  { intros _. split; [apply lookup_empty|]. split; [exact Hnd|].
    intros d _. apply lookup_empty. }
  change (bucket_of (tx (empty_store out)) ?n) with (∅ : bolt.Bucket) in *.
  exists cs', w'. split; [exact Hrun|].
  split; [reflexivity|]. split; [|split; [exact Hfc|split; [exact Hfe|split; [|split]]]].
  - intros n. split.
    + intros Hsome. destruct (decide (n ∈ database_buckets)) as [Hin|Hnotin]; [exact Hin|].
      rewrite (Hother n Hnotin) in Hsome. cbn [empty_store tx] in Hsome.
      rewrite lookup_empty in Hsome. destruct Hsome as [? [=]].
    + unfold database_buckets. intros Hin.
      repeat (apply elem_of_cons in Hin as [->|Hin]; [eauto|]).
      inversion Hin.
  - intros id. rewrite (getFileContract_run w' ∅) by exact Hfc.
    rewrite lookup_empty. reflexivity.
  - intros d Hd Hwf. rewrite (getSiafundOutput_run DEBUG w' _ _ Hsfo).
    rewrite siafund_records_in by assumption.
    rewrite Unmarshal_SiafundOutput by exact Hwf. reflexivity.
  - intros id Hnotin. rewrite (getSiafundOutput_run DEBUG w' _ _ Hsfo).
    rewrite siafund_records_notin by exact Hnotin.
    rewrite lookup_empty. reflexivity.
Qed.

Lemma path_entry_bucket_of (w : World) (k : Z) :
  path_entry w k = bucket_of (tx w) BlockPath !! Marshal (Uint k).
Proof.
  unfold path_entry, bucket_of. destruct (tx w !! BlockPath); [reflexivity|].
  cbn. symmetry. apply lookup_empty.
Qed.

Lemma block_record_bucket_of (w : World) (id : Hash) :
  block_record w id = bucket_of (tx w) BlockMap !! id.
Proof.
  unfold block_record, bucket_of. destruct (tx w !! BlockMap); [reflexivity|].
  cbn. symmetry. apply lookup_empty.
Qed.

(** X25. Without the debug assertions [initDB] succeeds on any store and
    resets it. Whatever the store held, the call returns a nil error with
    the consensus set unchanged; afterwards the height is 0, the path entry
    at height 0 is the genesis id and the siafund pool is zero, while the
    path entries of the other heights and the records of the other blocks
    are left in place. *)
Theorem initDB_without_debug_resets (Block : Type)
    (Block_ID : Block → Hash) (Block_MinerPayoutID : Block → Z → Hash)
    (CalculateCoinbase : Z → Currency)
    (Marshal_processedBlock : processedBlock Block → bytes)
    (consensusChecksum : bolt.Tx → Hash)
    (cs : ConsensusSet Block) (w : World) :
  wf_Hash (Block_ID (pb_Block (blockRoot cs))) →
  wf_Hash (Block_MinerPayoutID (pb_Block (blockRoot cs)) 0) →
  applied_diffs (SiafundOutputDiffs (blockRoot cs)) →
  ∃ w',
    initDB false Block_ID Block_MinerPayoutID CalculateCoinbase
      Marshal_processedBlock consensusChecksum cs w
    = (Ok (cs, None), w')
    ∧ blockHeight false w' = (Ok 0, w')
    ∧ getPath false 0 w' = (Ok (Block_ID (pb_Block (blockRoot cs))), w')
    ∧ getSiafundPool false w' = (Ok 0%N, w')
    ∧ (∀ k, wf_uint64 k → k ≠ 0 → path_entry w' k = path_entry w k)
    ∧ (∀ id, id ≠ Block_ID (pb_Block (blockRoot cs)) →
         block_record w' id = block_record w id).
Proof.
  intros Hid Hpay Hdiffs.
  destruct (initDB_state false Block Block_ID Block_MinerPayoutID CalculateCoinbase
              Marshal_processedBlock consensusChecksum cs w Hid Hpay Hdiffs)
    as (cs' & w' & Hrun & _ & _ & _ & Hcs & _ & Hh & Hp & Hm & _ & _ & Hpool & _);
    [discriminate|].
  rewrite (Hcs eq_refl) in *. exists w'. split; [exact Hrun|].
  split; [|split; [|split; [|split]]].
  - apply blockHeight_stored; [|lia]. eexists. split; [exact Hh | apply lookup_insert_eq].
  - eapply getPath_run; [exact Hp | apply lookup_insert_eq | exact Hid].
  - eapply getSiafundPool_stored;
      [exact Hpool | apply lookup_insert_eq | apply zero_Currency_encodable].
  - intros k Hk Hne. rewrite (path_entry_lookup w' _ k Hp), (path_entry_bucket_of w k).
    apply lookup_insert_ne. intros E.
    apply Marshal_Uint_inj in E; [congruence | unfold wf_uint64; lia | exact Hk].
  - intros id Hne. rewrite (block_record_bucket_of w id).
    unfold block_record. rewrite Hm. cbn [mbind option_bind].
    apply lookup_insert_ne. congruence.
Qed.

(** X26. The genesis checksum and the second put. Under the debug
    assertions the block that [initDB] hands back carries the checksum of
    the store as it stood before the block was put the second time, that
    is, of the final store with the genesis record still the encoding of
    the block as given; the record in the final store is the encoding of
    the block with the checksum. Without the debug assertions the block is
    handed back as given, and that is the block stored. *)
Theorem initDB_checksum_precedes_second_put (DEBUG : bool) (Block : Type)
    (Block_ID : Block → Hash) (Block_MinerPayoutID : Block → Z → Hash)
    (CalculateCoinbase : Z → Currency)
    (Marshal_processedBlock : processedBlock Block → bytes)
    (consensusChecksum : bolt.Tx → Hash)
    (cs : ConsensusSet Block) (w : World) :
  wf_Hash (Block_ID (pb_Block (blockRoot cs))) →
  wf_Hash (Block_MinerPayoutID (pb_Block (blockRoot cs)) 0) →
  applied_diffs (SiafundOutputDiffs (blockRoot cs)) →
  (DEBUG = true →
     genesis_fresh (tx w) (Block_MinerPayoutID (pb_Block (blockRoot cs)) 0)
       (SiafundOutputDiffs (blockRoot cs))) →
  ∃ cs' w',
    initDB DEBUG Block_ID Block_MinerPayoutID CalculateCoinbase
      Marshal_processedBlock consensusChecksum cs w
    = (Ok (cs', None), w')
    ∧ block_record w' (Block_ID (pb_Block (blockRoot cs)))
      = Some (Marshal_processedBlock (blockRoot cs'))
    ∧ pb_Block (blockRoot cs') = pb_Block (blockRoot cs)
    ∧ SiafundOutputDiffs (blockRoot cs') = SiafundOutputDiffs (blockRoot cs)
    ∧ (DEBUG = true →
         ConsensusSetHash (blockRoot cs')
         = consensusChecksum
             (<[BlockMap := <[Block_ID (pb_Block (blockRoot cs)) :=
                                Marshal_processedBlock (blockRoot cs)]>
                              (bucket_of (tx w) BlockMap)]> (tx w')))
    ∧ (DEBUG = false → cs' = cs).
Proof.
  intros Hid Hpay Hdiffs Hfresh.
  destruct (initDB_state DEBUG Block Block_ID Block_MinerPayoutID CalculateCoinbase
              Marshal_processedBlock consensusChecksum cs w Hid Hpay Hdiffs Hfresh)
    as (cs' & w' & Hrun & _ & Hsame & Hd & Hrel & Hsum & _ & _ & Hm & _).
  exists cs', w'. split; [exact Hrun|]. split; [|auto].
  unfold block_record. rewrite Hm. cbn [mbind option_bind]. apply lookup_insert_eq.
Qed.

Lemma bucket_of_Some (t : bolt.Tx) (name : bytes) (bk : bolt.Bucket) :
  t !! name = Some bk → bucket_of t name = bk.
Proof. unfold bucket_of. intros ->. reflexivity. Qed.

Lemma fatal_bind {A B} (m : M A) (k : A → M B) (w : World) :
  fatal (m w) → fatal ((x <- m ;; k x) w).
Proof.
  unfold fatal, bind. destruct (m w) as [[a|p] w']; cbn [fst]; [intros []|auto].
Qed.

Lemma initDB_commitDiffs_debug (diffs : list modules.SiafundOutputDiff) :
  ∀ (w : World) (sf : bolt.Bucket),
    tx w !! SiafundOutputs = Some sf → applied_diffs diffs →
    fatal (initDB_commitDiffs true diffs w)
    ∨ ∃ sf', initDB_commitDiffs true diffs w
             = (Ok tt, mkWorld (<[SiafundOutputs := sf']> (tx w)) (stdout w)).
Proof.
  induction diffs as [|d rest IH]; intros w sf Hsf Hall.
  - right. exists sf. cbn [initDB_commitDiffs].
    rewrite tx_insert_id by exact Hsf. reflexivity.
  - apply Forall_cons in Hall as [[Hdir Hid] Hall].
    cbn [initDB_commitDiffs]. unfold commitSiafundOutputDiff.
    rewrite bool_decide_eq_true_2 by exact Hdir.
    destruct (sf !! modules.ID d) as [old|] eqn:Hd.
    + left. apply fatal_bind.
      rewrite (addSiafundOutput_repeat true w sf) by (rewrite ?Hd; eauto).
      exact I.
    + erewrite bind_run by (apply addSiafundOutput_fresh; eassumption).
      edestruct (IH (mkWorld (<[SiafundOutputs :=
                                 <[modules.ID d :=
                                     Marshal (reflect_SiafundOutput (modules.SiafundOutput d))]> sf]>
                               (tx w)) (stdout w))) as [Hf|[sf' Hrun]];
        [apply lookup_insert_eq | exact Hall | left; exact Hf |].
      right. exists sf'. rewrite Hrun. cbn [tx stdout].
      rewrite insert_insert_eq. reflexivity.
Qed.

Lemma initDB_debug_panics (Block : Type)
    (Block_ID : Block → Hash) (Block_MinerPayoutID : Block → Z → Hash)
    (CalculateCoinbase : Z → Currency)
    (Marshal_processedBlock : processedBlock Block → bytes)
    (consensusChecksum : bolt.Tx → Hash)
    (cs : ConsensusSet Block) (w : World) :
  wf_Hash (Block_ID (pb_Block (blockRoot cs))) →
  applied_diffs (SiafundOutputDiffs (blockRoot cs)) →
  is_Some (bucket_of (tx w) SiacoinOutputs
             !! Block_MinerPayoutID (pb_Block (blockRoot cs)) 0) →
  fatal (initDB true Block_ID Block_MinerPayoutID CalculateCoinbase
           Marshal_processedBlock consensusChecksum cs w).
Proof.
  intros Hid Hdiffs Hpresent.
  initDB_prefix w Hid.
  match goal with
  | |- fatal (bind (initDB_commitDiffs true ?ds) _ ?w3) =>
      destruct (initDB_commitDiffs_debug ds w3 (bucket_of (tx w) SiafundOutputs))
        as [Hf|[sf' Hcommit]]
  end.
  - lookup_solve.
  - exact Hdiffs.
  - apply fatal_bind, Hf.
  - erewrite bind_run by exact Hcommit. cbn [tx stdout].
    apply fatal_bind.
    erewrite addSiacoinOutput_repeat; [exact I | reflexivity | lookup_solve | exact Hpresent].
Qed.

(** X27. Under the debug assertions [initDB] cannot be run on a store it
    has been run on. On any store whose output ledger already holds the
    genesis miner payout the call panics; in particular a second [initDB]
    right after a first one panics, whether it is given the consensus set
    as it was or as the first call handed it back. *)
Theorem initDB_debug_fatal_when_initialised (Block : Type)
    (Block_ID : Block → Hash) (Block_MinerPayoutID : Block → Z → Hash)
    (CalculateCoinbase : Z → Currency)
    (Marshal_processedBlock : processedBlock Block → bytes)
    (consensusChecksum : bolt.Tx → Hash)
    (cs : ConsensusSet Block) (w : World) :
  wf_Hash (Block_ID (pb_Block (blockRoot cs))) →
  wf_Hash (Block_MinerPayoutID (pb_Block (blockRoot cs)) 0) →
  applied_diffs (SiafundOutputDiffs (blockRoot cs)) →
  (is_Some (bucket_of (tx w) SiacoinOutputs
              !! Block_MinerPayoutID (pb_Block (blockRoot cs)) 0) →
     fatal (initDB true Block_ID Block_MinerPayoutID CalculateCoinbase
              Marshal_processedBlock consensusChecksum cs w))
  ∧ (genesis_fresh (tx w) (Block_MinerPayoutID (pb_Block (blockRoot cs)) 0)
       (SiafundOutputDiffs (blockRoot cs)) →
     ∃ cs' w',
       initDB true Block_ID Block_MinerPayoutID CalculateCoinbase
         Marshal_processedBlock consensusChecksum cs w
       = (Ok (cs', None), w')
       ∧ fatal (initDB true Block_ID Block_MinerPayoutID CalculateCoinbase
                  Marshal_processedBlock consensusChecksum cs w')
       ∧ fatal (initDB true Block_ID Block_MinerPayoutID CalculateCoinbase
                  Marshal_processedBlock consensusChecksum cs' w')).
Proof.
  intros Hid Hpay Hdiffs. split.
  - intros Hpresent. apply initDB_debug_panics; assumption.
  - intros Hfresh.
    destruct (initDB_state true Block Block_ID Block_MinerPayoutID CalculateCoinbase
                Marshal_processedBlock consensusChecksum cs w Hid Hpay Hdiffs
                (λ _, Hfresh))
      as (cs' & w' & Hrun & _ & Hsame & Hd & _ & _ & _ & _ & _ & Hsco & _).
    exists cs', w'. split; [exact Hrun|].
    assert (Hpresent : is_Some (bucket_of (tx w') SiacoinOutputs
                                  !! Block_MinerPayoutID (pb_Block (blockRoot cs)) 0)).
    { rewrite (bucket_of_Some _ _ _ Hsco), lookup_insert_eq. eauto. }
    split.
    + apply initDB_debug_panics; assumption.
    + apply initDB_debug_panics; rewrite ?Hsame, ?Hd; assumption.
Qed.

(** ** Each function keeps to its buckets *)

Section Confinement.
Context {A : Type} (P : bytes → Prop).

Lemma confined_ret (a : A) : confined P (ret a).
Proof. intros w. split; reflexivity. Qed.

Lemma confined_panic (p : panic_value) : confined P (panic (A := A) p).
Proof. intros w. split; reflexivity. Qed.

Lemma confined_bind {B} (m : M B) (k : B → M A) :
  confined P m → (∀ b, confined P (k b)) → confined P (x <- m ;; k x).
Proof.
  intros Hm Hk w. unfold bind. destruct (Hm w) as [Ho Ht].
  destruct (m w) as [[b|p] w']; cbn [snd] in *.
  - destruct (Hk b w') as [Ho' Ht']. split; [congruence|].
    intros n Hn. rewrite Ht', Ht by exact Hn. reflexivity.
  - split; assumption.
Qed.

Lemma confined_tx_Bucket_bind (name : bytes) (k : BucketRef → M A) :
  confined P (k None) → confined P (k (Some name)) →
  confined P (b <- tx_Bucket name ;; k b).
Proof.
  intros Hnone Hsome w. unfold bind, tx_Bucket.
  destruct (tx w !! name); [apply Hsome | apply Hnone].
Qed.

End Confinement.

Lemma confined_read_only {A} (P : bytes → Prop) (m : M A) :
  read_only m → confined P m.
Proof.
  intros Hm w. pose proof (Hm w) as E. split; [congruence|].
  intros n _. congruence.
Qed.

Lemma confined_b_Put (P : bytes → Prop) (b : BucketRef) (key value : bytes) :
  (∀ name, b = Some name → P name) → confined P (b_Put b key value).
Proof.
  intros HP w. unfold b_Put, with_bucket. destruct b as [name|]; [|split; reflexivity].
  destruct (tx w !! name) as [bk|]; [|split; reflexivity].
  destruct (bolt.Put key value bk) as [err bk']. cbn [snd tx stdout].
  split; [reflexivity|]. intros n Hn. apply lookup_insert_ne.
  intros ->. apply Hn, HP. reflexivity.
Qed.

Lemma confined_b_Delete (P : bytes → Prop) (b : BucketRef) (key : bytes) :
  (∀ name, b = Some name → P name) → confined P (b_Delete b key).
Proof.
  intros HP w. unfold b_Delete, with_bucket. destruct b as [name|]; [|split; reflexivity].
  destruct (tx w !! name) as [bk|]; [|split; reflexivity].
  cbn [bolt.Delete snd tx stdout].
  split; [reflexivity|]. intros n Hn. apply lookup_insert_ne.
  intros ->. apply Hn, HP. reflexivity.
Qed.

Lemma confined_tx_CreateBucket_bind {A} (P : bytes → Prop) (name : bytes)
    (k : BucketRef * option error → M A) :
  P name → confined P (k (Some name, None)) →
  (∀ e, confined P (k (None, Some e))) →
  confined P (r <- tx_CreateBucket name ;; k r).
Proof.
  intros HP Hok Herr w. unfold bind, tx_CreateBucket, bolt.CreateBucket.
  case_decide; [apply Herr|].
  destruct (tx w !! name) as [bk|]; [apply Herr|].
  destruct (Hok (mkWorld (<[name := ∅]> (tx w)) (stdout w))) as [Ho Ht].
  cbn [tx stdout] in *. split; [exact Ho|].
  intros n Hn. rewrite Ht by exact Hn. apply lookup_insert_ne. congruence.
Qed.

Lemma confined_tx_CreateBucketIfNotExists_bind {A} (P : bytes → Prop) (name : bytes)
    (k : BucketRef * option error → M A) :
  P name → confined P (k (Some name, None)) →
  (∀ e, confined P (k (None, Some e))) →
  confined P (r <- tx_CreateBucketIfNotExists name ;; k r).
Proof.
  intros HP Hok Herr w.
  unfold bind, tx_CreateBucketIfNotExists, bolt.CreateBucketIfNotExists,
    bolt.CreateBucket.
  case_decide; [apply Herr|].
  destruct (tx w !! name) as [bk|].
  - destruct (Hok (mkWorld (tx w) (stdout w))) as [Ho Ht]. cbn [tx stdout] in *.
    split; assumption.
  - destruct (Hok (mkWorld (<[name := ∅]> (tx w)) (stdout w))) as [Ho Ht].
    cbn [tx stdout] in *. split; [exact Ho|].
    intros n Hn. rewrite Ht by exact Hn. apply lookup_insert_ne. congruence.
Qed.

Lemma confined_tx_DeleteBucket (P : bytes → Prop) (name : bytes) :
  P name → confined P (tx_DeleteBucket name).
Proof.
  intros HP w. unfold tx_DeleteBucket, bolt.DeleteBucket.
  destruct (tx w !! name) as [bk|]; cbn [snd tx stdout].
  - split; [reflexivity|]. intros n Hn. apply lookup_delete_ne. congruence.
  - split; reflexivity.
Qed.

Lemma confined_when {P : bytes → Prop} (c : bool) (m : M unit) :
  confined P m → confined P (when c m).
Proof. intros Hm. destruct c; [exact Hm | apply confined_ret]. Qed.

Lemma confined_panic_on (P : bytes → Prop) (err : option error) :
  confined P (panic_on err).
Proof. destruct err; [apply confined_panic | apply confined_ret]. Qed.

Lemma confined_b_Get (P : bytes → Prop) (b : BucketRef) (key : bytes) :
  confined P (b_Get b key).
Proof. apply confined_read_only, read_only_b_Get. Qed.

Create HintDb confined discriminated.

#[local] Hint Resolve confined_ret confined_panic confined_when confined_panic_on
  confined_b_Get : confined.
#[local] Hint Extern 1 (confined _ (tx_DeleteBucket _)) =>
  apply confined_tx_DeleteBucket; cbv beta; solve [eauto] : confined.
#[local] Hint Extern 1 (confined _ (b_Put (Some _) _ _)) =>
  apply confined_b_Put; intros ? [= <-]; solve [eauto] : confined.
#[local] Hint Extern 1 (confined _ (b_Put None _ _)) =>
  apply confined_b_Put; intros ? [=] : confined.
#[local] Hint Extern 1 (confined _ (b_Delete (Some _) _)) =>
  apply confined_b_Delete; intros ? [= <-]; solve [eauto] : confined.
#[local] Hint Extern 1 (confined _ (b_Delete None _)) =>
  apply confined_b_Delete; intros ? [=] : confined.

(** One step of a proof that a sequence of operations is confined. *)
Ltac confined_step :=
  first [ apply confined_tx_Bucket_bind
        | apply confined_tx_CreateBucket_bind; [solve [eauto]| |intros ?]
        | apply confined_tx_CreateBucketIfNotExists_bind; [solve [eauto]| |intros ?]
        | apply confined_bind; [|intros ?]
        | apply confined_when
        | solve [eauto with confined nocore]
        | match goal with
          | |- confined _ (let '(_, _) := ?p in _) => destruct p
          | |- confined _ (match ?x with _ => _ end) => destruct x
          end ].

Lemma removeDSCO_missing_bucket (DEBUG : bool) (w : World) (bh : Z) (id : Hash) :
  tx w !! removeDSCO_bucketID bh = None →
  removeDSCO DEBUG bh id w = (Panic nil_dereference, w).
Proof.
  intros Hb. unfold removeDSCO. mstep.
  destruct DEBUG; unfold when; repeat mstep; reflexivity.
Qed.

(** X28. Each function that writes keeps to its own buckets. Whether it
    returns or panics, a mutator of the database leaves every bucket but
    its own as it was, and prints nothing: the block store writes to the
    block map only, the chain index to the height counter and the path, an
    output ledger to its bucket, the contract ledger to the contract bucket
    and expiration buckets, the maturation queue to the bucket of the
    height. [removeDSCO], which may print, also leaves the other buckets
    alone. *)
Theorem mutators_keep_to_their_buckets (DEBUG : bool) (Block : Type)
    (Block_ID : Block → Hash) (Marshal_processedBlock : processedBlock Block → bytes) :
  (∀ pb, confined (λ n, n = BlockMap)
           (addBlockMap DEBUG Block_ID Marshal_processedBlock pb))
  ∧ (∀ B, confined (λ n, n = BlockHeight ∨ n = BlockPath) (pushPath DEBUG B))
  ∧ confined (λ n, n = BlockHeight ∨ n = BlockPath) (popPath DEBUG)
  ∧ (∀ id sco, confined (λ n, n = SiacoinOutputs) (addSiacoinOutput DEBUG id sco))
  ∧ (∀ id, confined (λ n, n = SiacoinOutputs) (removeSiacoinOutput DEBUG id))
  ∧ (∀ id fc,
       confined (λ n, n = FileContracts
                      ∨ n = prefix_fcex ++ Marshal (Uint (WindowEnd fc)))
         (addFileContract DEBUG id fc))
  ∧ (∀ id,
       confined (λ n, n = FileContracts ∨ ∃ tail, n = prefix_fcex ++ tail)
         (removeFileContract DEBUG id))
  ∧ (∀ id sfo, confined (λ n, n = SiafundOutputs) (addSiafundOutput DEBUG id sfo))
  ∧ (∀ id, confined (λ n, n = SiafundOutputs) (removeSiafundOutput DEBUG id))
  ∧ (∀ c, confined (λ n, n = SiafundPool) (setSiafundPool DEBUG c))
  ∧ (∀ bh id sco,
       confined (λ n, n = addDSCO_dscoBucketID bh) (addDSCO DEBUG bh id sco))
  ∧ (∀ bh, confined (λ n, n = createDSCOBucket_bucketID bh) (createDSCOBucket DEBUG bh))
  ∧ (∀ bh, confined (λ n, n = deleteDSCOBucket_bucketID bh) (deleteDSCOBucket DEBUG bh))
  ∧ (∀ bh id w n, n ≠ removeDSCO_bucketID bh →
       tx (removeDSCO DEBUG bh id w).2 !! n = tx w !! n).
Proof.
  repeat apply conj.
  - intros pb. unfold addBlockMap. cbv zeta. repeat confined_step.
  - intros B. unfold pushPath. cbv zeta. repeat confined_step.
  - unfold popPath. cbv zeta. repeat confined_step.
  - intros id sco. unfold addSiacoinOutput. repeat confined_step.
  - intros id. unfold removeSiacoinOutput. repeat confined_step.
  - intros id fc. unfold addFileContract. cbv zeta. repeat confined_step.
  - intros id. unfold removeFileContract. cbv zeta. repeat confined_step.
  - intros id sfo. unfold addSiafundOutput. repeat confined_step.
  - intros id. unfold removeSiafundOutput. repeat confined_step.
  - intros c. unfold setSiafundPool. repeat confined_step.
  - intros bh id sco. unfold addDSCO. cbv zeta. repeat confined_step.
  - intros bh. unfold createDSCOBucket. cbv zeta. repeat confined_step.
  - intros bh. unfold deleteDSCOBucket. cbv zeta. repeat confined_step.
  - intros bh id w n Hn.
    destruct (tx w !! removeDSCO_bucketID bh) as [bk|] eqn:Hb.
    + rewrite (removeDSCO_run DEBUG w bk bh id Hb). cbn [snd tx].
      apply lookup_insert_ne. congruence.
    + rewrite removeDSCO_missing_bucket by exact Hb. reflexivity.
Qed.


(** ** Bucket names *)

Lemma dsco_notin_database_buckets (tail : bytes) :
  prefix_dsco ++ tail ∉ database_buckets.
Proof.
  unfold database_buckets.
  repeat (apply not_elem_of_cons; split; [vm_compute; discriminate|]).
  apply not_elem_of_nil.
Qed.

Lemma fcex_notin_database_buckets (tail : bytes) :
  prefix_fcex ++ tail ∉ database_buckets.
Proof.
  unfold database_buckets.
  repeat (apply not_elem_of_cons; split; [vm_compute; discriminate|]).
  apply not_elem_of_nil.
Qed.

Lemma dsco_ne_fcex (tail tail' : bytes) : prefix_dsco ++ tail ≠ prefix_fcex ++ tail'.
Proof. vm_compute. discriminate. Qed.

(** X29. The buckets of the database do not share names. The eight fixed
    names are pairwise distinct; a maturation bucket and an expiration
    bucket differ from each other and from the eight; and two heights, as
    64-bit values, name the same maturation bucket, or the same expiration
    bucket, only when they are equal. *)
Theorem bucket_names_distinct (h h' : Z) :
  wf_uint64 h → wf_uint64 h' →
  NoDup database_buckets
  ∧ (createDSCOBucket_bucketID h = createDSCOBucket_bucketID h' → h = h')
  ∧ (expirationBucketID h = expirationBucketID h' → h = h')
  ∧ (createDSCOBucket_bucketID h ≠ expirationBucketID h')
  ∧ (createDSCOBucket_bucketID h ∉ database_buckets)
  ∧ (expirationBucketID h ∉ database_buckets).
Proof.
  intros Hh Hh'. repeat apply conj.
  - unfold database_buckets.
    repeat (apply NoDup_cons; split;
            [repeat (apply not_elem_of_cons; split; [vm_compute; discriminate|]);
             apply not_elem_of_nil|]).
    apply NoDup_nil_2.
  - unfold createDSCOBucket_bucketID. intros E. apply app_inv_head in E.
    exact (Marshal_Uint_inj h h' Hh Hh' E).
  - apply expirationBucketID_inj; assumption.
  - apply dsco_ne_fcex.
  - apply dsco_notin_database_buckets.
  - apply fcex_notin_database_buckets.
Qed.

(** * The theorems at concrete inputs *)

Lemma ex_sco_wf : wf_SiacoinOutput ex_sco.
Proof. split; vm_compute; reflexivity. Qed.

(** C1: the block map holds [ex_genesis] under [ex_id]; putting
    [ex_genesis'], which has the same id, does not panic, and the record
    under [ex_id] is afterwards a different one. *)
Lemma addBlockMap_existing_id_not_fatal :
  block_record ex_block_world ex_id = Some (ex_Marshal_processedBlock ex_genesis)
  ∧ addBlockMap true ex_Block_ID ex_Marshal_processedBlock ex_genesis' ex_block_world
    = (Ok tt,
       mkWorld {[ BlockMap := {[ ex_id := ex_Marshal_processedBlock ex_genesis' ]} ]} [])
  ∧ ¬ fatal (addBlockMap true ex_Block_ID ex_Marshal_processedBlock ex_genesis'
               ex_block_world)
  ∧ ex_Marshal_processedBlock ex_genesis' ≠ ex_Marshal_processedBlock ex_genesis.
Proof.
  assert (Hrun : addBlockMap true ex_Block_ID ex_Marshal_processedBlock ex_genesis'
                   ex_block_world
                 = (Ok tt,
                    mkWorld {[ BlockMap := {[ ex_id := ex_Marshal_processedBlock ex_genesis' ]} ]}
                      [])).
  { rewrite (addBlockMap_run true Hash ex_Block_ID ex_Marshal_processedBlock
               ex_block_world {[ ex_id := ex_Marshal_processedBlock ex_genesis ]}
               ex_genesis') by compute_done.
    compute_done. }
  split; [compute_done|]. split; [exact Hrun|]. split.
  - rewrite Hrun. intros [].
  - compute_done.
Qed.

Lemma addBlockMap_overwrites_witness :
  ∃ w',
    addBlockMap true ex_Block_ID ex_Marshal_processedBlock ex_genesis' ex_block_world
    = (Ok tt, w')
    ∧ block_record w' ex_id = Some (ex_Marshal_processedBlock ex_genesis').
Proof.
  destruct (addBlockMap_overwrites true Hash ex_Block_ID ex_Marshal_processedBlock
              ex_block_world ex_genesis') as (w' & Hrun & Hrec & _).
  - compute_done.
  - compute_done.
  - exists w'. split; [exact Hrun | exact Hrec].
Defined.

Lemma output_ledger_fatal_contracts_witness :
  addSiacoinOutput true ex_id ex_sco ex_sco_world
  = (Panic (panic_string "repeat siacoin output"), ex_sco_world)
  ∧ removeSiacoinOutput true ex_id' ex_sco_world
    = (Panic (panic_string "nil siacoin output"), ex_sco_world).
Proof.
  split.
  - apply (output_ledger_fatal_contracts ex_sco_world
             {[ ex_id := Marshal (reflect_SiacoinOutput ex_sco) ]} ex_id ex_sco);
      compute_done.
  - apply (output_ledger_fatal_contracts ex_sco_world
             {[ ex_id := Marshal (reflect_SiacoinOutput ex_sco) ]} ex_id' ex_sco);
      compute_done.
Defined.

Lemma output_ledger_round_trip_witness :
  ∃ w1,
    addSiacoinOutput true ex_id ex_sco ex_sco_empty_world = (Ok tt, w1)
    ∧ getSiacoinOutput ex_id w1 = (Ok (ex_sco, None), w1)
    ∧ isSiacoinOutput ex_id w1 = (Ok true, w1)
    ∧ removeSiacoinOutput true ex_id w1 = (Ok tt, ex_sco_empty_world)
    ∧ isSiacoinOutput ex_id ex_sco_empty_world = (Ok false, ex_sco_empty_world).
Proof.
  destruct (output_ledger_round_trip true ex_sco_empty_world ∅ ex_id ex_sco)
    as (w1 & w2 & Hadd & Hget & Hin & Hrm & Hout & ->).
  - compute_done.
  - apply lookup_empty.
  - compute_done.
  - exact ex_sco_wf.
  - exists w1. repeat split; assumption.
Defined.

Lemma ex_fc_world_agrees : expiration_index_agrees ex_fc_world.
Proof.
  split; [compute_done|]. split.
  - intros id b. unfold contract_record, ex_fc_world. cbn [tx].
    rewrite lookup_singleton_eq. cbn [mbind option_bind].
    rewrite lookup_empty. discriminate.
  - intros id h Hh. split.
    + intros (eb & Heb & _). unfold ex_fc_world in Heb. cbn [tx] in Heb.
      rewrite lookup_singleton_ne in Heb
        by (apply not_eq_sym, expirationBucketID_ne_FileContracts).
      discriminate.
    + intros (b & Hb & _). unfold contract_record, ex_fc_world in Hb. cbn [tx] in Hb.
      rewrite lookup_singleton_eq in Hb. cbn [mbind option_bind] in Hb.
      rewrite lookup_empty in Hb. discriminate.
Qed.

Lemma expiration_index_consistent_witness :
  ∃ w1 w2,
    addFileContract true ex_id ex_fc ex_fc_world = (Ok tt, w1)
    ∧ expiration_index_agrees w1
    ∧ expiration_marker w1 100 ex_id
    ∧ addFileContract true ex_id ex_fc w1
      = (Panic (panic_string "repeat file contract"), w1)
    ∧ removeFileContract true ex_id w1 = (Ok tt, w2)
    ∧ expiration_index_agrees w2
    ∧ contract_record w2 ex_id = None
    ∧ ¬ expiration_marker w2 100 ex_id.
Proof.
  destruct (expiration_index_consistent true) as (Hadd & Hrep & Hrem & _).
  destruct (Hadd ex_fc_world ex_id ex_fc) as (w1 & Hrun1 & Hagree1 & Hrec1 & Hmark1).
  - exact ex_fc_world_agrees.
  - compute_done.
  - compute_done.
  - split; [compute_done | unfold wf_uint64; cbn [WindowEnd ex_fc]; lia].
  - destruct (Hrem w1 ex_id Hagree1) as (w2 & Hrun2 & Hagree2 & Hrec2 & Hmark2).
    + rewrite Hrec1. eauto.
    + exists w1, w2.
      split; [exact Hrun1|]. split; [exact Hagree1|]. split; [exact Hmark1|].
      split; [apply Hrep; rewrite Hrec1; eauto|].
      split; [exact Hrun2|]. split; [exact Hagree2|]. split; [exact Hrec2|].
      apply Hmark2. unfold wf_uint64. lia.
Defined.

(** C2: [ex_fc] is added under [ex_id] to an empty ledger with the debug
    assertions enabled, and the index agrees. Without them, adding [ex_fc'],
    whose window ends at height 200, under the same id returns normally;
    afterwards the record under [ex_id] ends at height 200, the expiration
    bucket of height 100 still holds a marker for [ex_id], and the index no
    longer agrees with the primary bucket. *)
Lemma expiration_index_lost_without_debug :
  addFileContract true ex_id ex_fc ex_fc_world = (Ok tt, ex_fc_stored_world)
  ∧ expiration_index_agrees ex_fc_stored_world
  ∧ ∃ w',
      addFileContract false ex_id ex_fc' ex_fc_stored_world = (Ok tt, w')
      ∧ contract_record w' ex_id = Some (Marshal (reflect_FileContract ex_fc'))
      ∧ contract_expires w' ex_id 200
      ∧ expiration_marker w' 100 ex_id
      ∧ ¬ contract_expires w' ex_id 100
      ∧ ¬ expiration_index_agrees w'.
Proof.
  assert (Hwf : wf_Hash ex_id) by compute_done.
  assert (Hrun : addFileContract true ex_id ex_fc ex_fc_world
                 = (Ok tt, ex_fc_stored_world)).
  { rewrite (addFileContract_fresh true ex_fc_world ∅ ex_id ex_fc)
      by first [exact Hwf | compute_done].
    reflexivity. }
  split; [exact Hrun|]. split.
  - destruct (addFileContract_preserves true ex_fc_world ex_id ex_fc)
      as (w1 & Hrun1 & Hagree1 & _).
    + exact ex_fc_world_agrees.
    + compute_done.
    + exact Hwf.
    + split; [compute_done | unfold wf_uint64; cbn [WindowEnd ex_fc]; lia].
    + rewrite Hrun in Hrun1. injection Hrun1 as <-. exact Hagree1.
  - eexists. split.
    { apply (addFileContract_release ex_fc_stored_world
               {[ ex_id := Marshal (reflect_FileContract ex_fc) ]} ex_id ex_fc');
        [compute_done | exact Hwf]. }
    assert (Hrec : contract_record
                     (mkWorld
                        (<[expirationBucketID (WindowEnd ex_fc') :=
                             <[ex_id := []]>
                               (default ∅ (tx ex_fc_stored_world
                                             !! expirationBucketID (WindowEnd ex_fc')))]>
                           (<[FileContracts :=
                                <[ex_id := Marshal (reflect_FileContract ex_fc')]>
                                  {[ ex_id := Marshal (reflect_FileContract ex_fc) ]}]>
                              (tx ex_fc_stored_world)))
                        (stdout ex_fc_stored_world)) ex_id
                   = Some (Marshal (reflect_FileContract ex_fc'))) by compute_done.
    assert (Hnot : ¬ contract_expires
                       (mkWorld
                          (<[expirationBucketID (WindowEnd ex_fc') :=
                               <[ex_id := []]>
                                 (default ∅ (tx ex_fc_stored_world
                                               !! expirationBucketID (WindowEnd ex_fc')))]>
                             (<[FileContracts :=
                                  <[ex_id := Marshal (reflect_FileContract ex_fc')]>
                                    {[ ex_id := Marshal (reflect_FileContract ex_fc) ]}]>
                                (tx ex_fc_stored_world)))
                          (stdout ex_fc_stored_world)) ex_id 100).
    { intros (b & Hb & Hs). rewrite Hrec in Hb. injection Hb as <-.
      vm_compute in Hs. discriminate. }
    assert (Hmark : expiration_marker
                      (mkWorld
                         (<[expirationBucketID (WindowEnd ex_fc') :=
                              <[ex_id := []]>
                                (default ∅ (tx ex_fc_stored_world
                                              !! expirationBucketID (WindowEnd ex_fc')))]>
                            (<[FileContracts :=
                                 <[ex_id := Marshal (reflect_FileContract ex_fc')]>
                                   {[ ex_id := Marshal (reflect_FileContract ex_fc) ]}]>
                               (tx ex_fc_stored_world)))
                         (stdout ex_fc_stored_world)) 100 ex_id).
    { exists {[ ex_id := [] ]}. split; compute_done. }
    split; [exact Hrec|].
    split; [exists (Marshal (reflect_FileContract ex_fc')); split;
              [exact Hrec | vm_compute; reflexivity]|].
    split; [exact Hmark|]. split; [exact Hnot|].
    intros (_ & _ & Hiff). apply Hnot, (Hiff ex_id 100); [unfold wf_uint64; lia|].
    exact Hmark.
Qed.

Lemma genesis_height_counter_witness :
  ∃ w1 w2,
    initDB_setHeight (empty_store []) = (Ok None, w1)
    ∧ blockHeight true w1 = (Panic (panic_int (-1)), w1)
    ∧ pushPath true ex_id w1 = (Ok tt, w2)
    ∧ blockHeight true w2 = (Ok 0, w2)
    ∧ getPath true 0 w2 = (Ok ex_id, w2).
Proof.
  destruct (genesis_height_counter true) as (_ & Hinit & Hpush & _).
  destruct (Hinit (empty_store [])) as (w1 & Hrun1 & Hstored & Hpath & Hneg).
  destruct (Hpush w1 ex_id) as (w2 & Hrun2 & Hzero & Hget).
  - exact Hstored.
  - exact Hpath.
  - compute_done.
  - exists w1, w2. repeat split; assumption.
Defined.

Lemma ex_chain_world_stored : stored_height ex_chain_world 0.
Proof. exists {[ BlockHeight := Marshal (Uint 0) ]}. split; compute_done. Qed.

Lemma ex_chain_world_contiguous : path_contiguous ex_chain_world 0.
Proof.
  split; [compute_done|].
  intros k Hk. unfold path_entry, ex_chain_world. cbn [tx].
  rewrite lookup_insert_ne by (vm_compute; discriminate).
  rewrite lookup_singleton_eq. cbn [mbind option_bind].
  destruct (decide (k = 0)) as [->|Hne].
  - rewrite lookup_singleton_eq. split; [lia | eauto].
  - rewrite lookup_singleton_ne.
    + split; [intros [? [=]] | unfold wf_uint64 in Hk; lia].
    + intros E. apply Hne. symmetry.
      apply (Marshal_Uint_inj 0 k); [unfold wf_uint64; lia | exact Hk | exact E].
Qed.

Lemma chain_index_push_pop_witness :
  ∃ w1,
    blockHeight true ex_chain_world = (Ok 0, ex_chain_world)
    ∧ pushPath true ex_id' ex_chain_world = (Ok tt, w1)
    ∧ blockHeight true w1 = (Ok 1, w1)
    ∧ getPath true 1 w1 = (Ok ex_id', w1)
    ∧ path_entry w1 0 = path_entry ex_chain_world 0
    ∧ popPath true w1 = (Ok tt, ex_chain_world)
    ∧ path_entry ex_chain_world 1 = None.
Proof.
  destruct (chain_index_push_pop true ex_chain_world 0 ex_id')
    as (w1 & w2 & Hh & Hpush & _ & Hh1 & Hget & Hkeep & _ & Hpop & _ & Hgone & ->).
  - exact ex_chain_world_stored.
  - lia.
  - exact ex_chain_world_contiguous.
  - compute_done.
  - exists w1. repeat split; try assumption.
    + apply Hh1. lia.
    + apply Hkeep; unfold wf_uint64; lia.
Defined.

Lemma removeDSCO_tolerates_absence_witness :
  removeDSCO true 5 ex_id' ex_dsco_world
  = (Ok tt, mkWorld (tx ex_dsco_world) (stdout ex_dsco_world ++ [("NIL DSCO"%string, ex_id')]))
  ∧ removeDSCO true 5 ex_id ex_dsco_world
    = (Ok tt,
       mkWorld (<[removeDSCO_bucketID 5 :=
                    delete ex_id {[ ex_id := Marshal (reflect_SiacoinOutput ex_sco) ]}]>
                  (tx ex_dsco_world))
               (stdout ex_dsco_world)).
Proof.
  destruct (removeDSCO_tolerates_absence ex_dsco_world
              {[ ex_id := Marshal (reflect_SiacoinOutput ex_sco) ]} 5 ex_id')
    as (Habsent & _); [compute_done|].
  destruct (removeDSCO_tolerates_absence ex_dsco_world
              {[ ex_id := Marshal (reflect_SiacoinOutput ex_sco) ]} 5 ex_id)
    as (_ & Hpresent & _); [compute_done|].
  split.
  - apply Habsent. compute_done.
  - apply Hpresent. compute_done.
Defined.

Lemma dsco_bucket_names_agree_witness :
  addDSCO_dscoBucketID 5 = createDSCOBucket_bucketID 5
  ∧ ∃ w1 w2 w3,
      createDSCOBucket true 5 ex_sco_empty_world = (Ok tt, w1)
      ∧ addDSCO true 5 ex_id ex_sco w1 = (Ok tt, w2)
      ∧ (∀ fn, forEachDSCO 5 fn w2 = fn ex_id ex_sco w2)
      ∧ removeDSCO true 5 ex_id w2 = (Ok tt, w3)
      ∧ tx w3 !! createDSCOBucket_bucketID 5 = Some ∅.
Proof.
  destruct (dsco_bucket_names_agree true 5) as (Hname & _ & _ & _ & Hrun).
  split; [exact Hname|].
  destruct (Hrun ex_sco_empty_world ∅ ex_id ex_sco)
    as (w1 & w2 & w3 & Hc & Ha & _ & Hf & Hr & He & _).
  - compute_done.
  - apply lookup_empty.
  - compute_done.
  - compute_done.
  - exact ex_sco_wf.
  - exists w1, w2, w3. repeat split; assumption.
Defined.

Lemma ex_genesis_diffs_ok : genesis_diffs_ok (SiafundOutputDiffs ex_genesis).
Proof.
  split.
  - repeat constructor.
  - cbn. apply NoDup_singleton.
Qed.

Lemma initDB_postcondition_witness :
  ∃ cs' w',
    initDB true ex_Block_ID ex_MinerPayoutID ex_CalculateCoinbase
      ex_Marshal_processedBlock ex_consensusChecksum
      (mkConsensusSet ex_genesis) (empty_store [])
    = (Ok (cs', None), w')
    ∧ blockHeight true w' = (Ok 0, w')
    ∧ getPath true 0 w' = (Ok ex_id, w')
    ∧ getSiafundPool true w' = (Ok 0%N, w')
    ∧ getSiacoinOutput ex_id' w'
      = (Ok (mkSiacoinOutput (300000 * 10 ^ 24)%N ZeroHash, None), w').
Proof.
  destruct (initDB_postcondition true Hash ex_Block_ID ex_MinerPayoutID
              ex_CalculateCoinbase ex_Marshal_processedBlock ex_consensusChecksum
              (mkConsensusSet ex_genesis) [])
    as (cs' & w' & Hrun & Hh & Hp & Hpool & _ & Hsco & _).
  - compute_done.
  - compute_done.
  - exact ex_genesis_diffs_ok.
  - vm_compute. reflexivity.
  - exists cs', w'. repeat split; assumption.
Defined.

(** ** The further properties at concrete inputs *)

Lemma ex_sfo_wf : wf_SiafundOutput ex_sfo.
Proof. repeat split; vm_compute; reflexivity. Qed.

Lemma ex_fc_encodable : encodable_FileContract ex_fc.
Proof.
  assert (Hout : wf_SiacoinOutputs [ex_sco]).
  { split; [repeat constructor; apply ex_sco_wf | cbn [length]; lia]. }
  assert (Hzero : wf_Hash ZeroHash) by reflexivity.
  unfold encodable_FileContract, ex_fc.
  cbn [FileSize FileMerkleRoot WindowStart WindowEnd Payout ValidProofOutputs
       MissedProofOutputs fc_UnlockHash RevisionNumber].
  split; [unfold wf_uint64; lia|]. split; [exact Hzero|].
  split; [unfold wf_uint64; lia|]. split; [unfold wf_uint64; lia|].
  split; [vm_compute; reflexivity|]. split; [exact Hout|]. split; [exact Hout|].
  split; [exact Hzero | unfold wf_uint64; lia].
Qed.

Lemma ex_Unmarshal_Marshal (pb : processedBlock Hash) :
  pb_Block pb = ex_id → SiafundOutputDiffs pb = SiafundOutputDiffs ex_genesis →
  ex_Unmarshal_processedBlock (ex_Marshal_processedBlock pb) = (pb, None).
Proof.
  destruct pb as [b d h]. cbn [pb_Block SiafundOutputDiffs]. intros -> ->.
  reflexivity.
Qed.

Lemma ex_store_world_stored : stored_height ex_store_world 0.
Proof. exists {[ BlockHeight := Marshal (Uint 0) ]}. split; compute_done. Qed.

Lemma block_store_put_get_witness :
  ∃ w',
    addBlockMap true ex_Block_ID ex_Marshal_processedBlock ex_genesis' ex_block_world
    = (Ok tt, w')
    ∧ getBlockMap true ex_Unmarshal_processedBlock ex_id w'
      = (Ok (Some ex_genesis', None), w').
Proof.
  destruct (block_store_put_get true Hash ex_Block_ID ex_Marshal_processedBlock
              ex_Unmarshal_processedBlock ex_block_world
              {[ ex_id := ex_Marshal_processedBlock ex_genesis ]} ex_genesis')
    as (w' & Hput & Hget & _).
  - compute_done.
  - compute_done.
  - reflexivity.
  - exists w'. split; assumption.
Defined.

Lemma getBlockMap_decode_error_not_returned_witness :
  getBlockMap true ex_Unmarshal_rejecting ex_id ex_block_world
  = (Panic (panic_error decodeError), ex_block_world)
  ∧ getBlockMap false ex_Unmarshal_rejecting ex_id ex_block_world
    = (Ok (Some (mkProcessedBlock ZeroHash [] ZeroHash), None), ex_block_world).
Proof.
  apply (getBlockMap_decode_error_not_returned Hash ex_Unmarshal_rejecting
           ex_block_world {[ ex_id := ex_Marshal_processedBlock ex_genesis ]} ex_id
           (ex_Marshal_processedBlock ex_genesis)).
  - compute_done.
  - compute_done.
  - reflexivity.
Defined.

Lemma currentBlockID_follows_push_pop_witness :
  ∃ w1 w2,
    currentBlockID true ex_chain_world = (Ok ex_id, ex_chain_world)
    ∧ pushPath true ex_id' ex_chain_world = (Ok tt, w1)
    ∧ currentBlockID true w1 = (Ok ex_id', w1)
    ∧ popPath true w1 = (Ok tt, w2)
    ∧ currentBlockID true w2 = (Ok ex_id, w2).
Proof.
  apply (currentBlockID_follows_push_pop true ex_chain_world 0 ex_id ex_id').
  - exact ex_chain_world_stored.
  - lia.
  - lia.
  - compute_done.
  - compute_done.
  - compute_done.
Defined.

Lemma currentProcessedBlock_after_accepting_witness :
  ∃ w1 w2,
    addBlockMap true ex_Block_ID ex_Marshal_processedBlock ex_block1 ex_store_world
    = (Ok tt, w1)
    ∧ pushPath true ex_id' w1 = (Ok tt, w2)
    ∧ blockHeight true w2 = (Ok 1, w2)
    ∧ currentBlockID true w2 = (Ok ex_id', w2)
    ∧ currentProcessedBlock true ex_Unmarshal_processedBlock w2
      = (Ok (Some ex_block1), w2).
Proof.
  apply (currentProcessedBlock_after_accepting true Hash ex_Block_ID
           ex_Marshal_processedBlock ex_Unmarshal_processedBlock ex_store_world
           ∅ {[ Marshal (Uint 0) := ex_id ]} 0 ex_block1).
  - compute_done.
  - compute_done.
  - exact ex_store_world_stored.
  - lia.
  - lia.
  - compute_done.
  - reflexivity.
Defined.

Lemma currentProcessedBlock_missing_record_witness :
  currentProcessedBlock true ex_Unmarshal_processedBlock ex_store_world
  = (Panic (panic_error errNilItem), ex_store_world)
  ∧ currentProcessedBlock false ex_Unmarshal_processedBlock ex_store_world
    = (Ok None, ex_store_world).
Proof.
  apply (currentProcessedBlock_missing_record Hash ex_Unmarshal_processedBlock
           ex_store_world ∅ 0 ex_id).
  - exact ex_store_world_stored.
  - lia.
  - compute_done.
  - compute_done.
  - compute_done.
  - apply lookup_empty.
Defined.

Lemma pushPath_popPath_inverse_witness :
  (∃ w1, pushPath true ex_id' ex_chain_world = (Ok tt, w1)
         ∧ stored_height w1 1
         ∧ popPath true w1 = (Ok tt, ex_chain_world))
  ∧ (∃ w1, popPath true ex_chain_world = (Ok tt, w1)
           ∧ path_entry w1 0 = None
           ∧ pushPath true ex_id w1 = (Ok tt, ex_chain_world)).
Proof.
  split.
  - destruct (pushPath_popPath_inverse true ex_chain_world
                {[ BlockHeight := Marshal (Uint 0) ]} {[ Marshal (Uint 0) := ex_id ]}
                0 ex_id') as [Hpush _]; [compute_done..|].
    destruct Hpush as (w1 & Hrun & Hs & _ & Hpop); [compute_done|].
    exists w1. auto.
  - destruct (pushPath_popPath_inverse true ex_chain_world
                {[ BlockHeight := Marshal (Uint 0) ]} {[ Marshal (Uint 0) := ex_id ]}
                0 ex_id) as [_ Hpop]; [compute_done..|].
    destruct Hpop as (w1 & Hrun & _ & Hgone & Hpush); [compute_done|].
    exists w1. auto.
Defined.

Lemma popPath_below_genesis_witness :
  ∃ w1, popPath true ex_chain_world = (Ok tt, w1)
        ∧ stored_height w1 (2 ^ 64 - 1)
        ∧ path_entry w1 0 = None
        ∧ blockHeight true w1 = (Panic (panic_int (-1)), w1).
Proof.
  apply (popPath_below_genesis true ex_chain_world {[ Marshal (Uint 0) := ex_id ]}).
  - exact ex_chain_world_stored.
  - compute_done.
Defined.

Lemma siafund_ledger_round_trip_witness :
  ∃ w1,
    addSiafundOutput true ex_id ex_sfo ex_sfo_empty_world = (Ok tt, w1)
    ∧ getSiafundOutput true ex_id w1 = (Ok (ex_sfo, None), w1)
    ∧ addSiafundOutput true ex_id ex_sfo w1
      = (Panic (panic_string "repeat siafund output"), w1)
    ∧ removeSiafundOutput true ex_id w1 = (Ok tt, ex_sfo_empty_world)
    ∧ getSiafundOutput true ex_id ex_sfo_empty_world
      = (Ok (zeroSiafundOutput, Some errNilItem), ex_sfo_empty_world).
Proof.
  apply (siafund_ledger_round_trip true ex_sfo_empty_world ∅ ex_id ex_sfo).
  - compute_done.
  - apply lookup_empty.
  - compute_done.
  - exact ex_sfo_wf.
Defined.

Lemma output_guards_absent_without_debug_witness :
  (∃ w', addSiacoinOutput false ex_id ex_sco ex_ledgers_world = (Ok tt, w')
         ∧ getSiacoinOutput ex_id w' = (Ok (ex_sco, None), w'))
  ∧ removeSiafundOutput false ex_id ex_ledgers_world = (Ok tt, ex_ledgers_world).
Proof.
  destruct (output_guards_absent_without_debug ex_ledgers_world
              {[ ex_id := Marshal (reflect_SiacoinOutput ex_sco) ]} ∅
              ex_id ex_sco ex_sfo) as (Hadd & _ & _ & Hrm).
  - compute_done.
  - compute_done.
  - compute_done.
  - exact ex_sco_wf.
  - exact ex_sfo_wf.
  - split; [exact Hadd | apply Hrm, lookup_empty].
Defined.

Lemma siafund_pool_set_get_witness :
  ∃ w1 w2,
    setSiafundPool true 7%N ex_pool_world = (Ok tt, w1)
    ∧ setSiafundPool true 5%N w1 = (Ok tt, w2)
    ∧ setSiafundPool true 5%N ex_pool_world = (Ok tt, w2)
    ∧ getSiafundPool true w2 = (Ok 5%N, w2).
Proof.
  destruct (siafund_pool_set_get true ex_pool_world ∅ 5%N 7%N)
    as (w1 & w2 & H1 & H2 & H3 & H4 & _).
  - compute_done.
  - vm_compute. reflexivity.
  - exists w1, w2. auto.
Defined.

Lemma file_contract_round_trip_witness :
  ∃ w1 w2,
    addFileContract true ex_id ex_fc ex_fc_world = (Ok tt, w1)
    ∧ getFileContract ex_id w1 = (Ok (ex_fc, None), w1)
    ∧ removeFileContract true ex_id w1 = (Ok tt, w2)
    ∧ getFileContract ex_id w2 = (Ok (zeroFileContract, Some errNilItem), w2)
    ∧ tx w2 !! FileContracts = Some ∅
    ∧ tx w2 !! expirationBucketID 100 = Some ∅.
Proof.
  destruct (file_contract_round_trip true ex_fc_world ∅ ex_id ex_fc)
    as (w1 & w2 & Hadd & Hget & Hrm & Hgone & Hfcs & Heb & _).
  - compute_done.
  - apply lookup_empty.
  - compute_done.
  - exact ex_fc_encodable.
  - exists w1, w2. split; [exact Hadd|]. split; [exact Hget|]. split; [exact Hrm|].
    split; [exact Hgone|]. split; [exact Hfcs|].
    change (expirationBucketID 100) with (expirationBucketID (WindowEnd ex_fc)).
    rewrite Heb. reflexivity.
Defined.

Lemma removeFileContract_absent_always_fatal_witness :
  removeFileContract true ex_id ex_fc_world
  = (Panic (panic_string "nil file contract"), ex_fc_world)
  ∧ removeFileContract false ex_id ex_fc_world
    = (Panic slice_out_of_range, ex_fc_world).
Proof.
  apply (removeFileContract_absent_always_fatal ex_fc_world ∅ ex_id).
  - compute_done.
  - apply lookup_empty.
Defined.

Lemma addFileContract_overwrite_leaves_stale_marker_witness :
  ∃ w',
    addFileContract false ex_id ex_fc' ex_fc_stored_world = (Ok tt, w')
    ∧ contract_record w' ex_id = Some (Marshal (reflect_FileContract ex_fc'))
    ∧ expiration_marker w' 200 ex_id
    ∧ expiration_marker w' 100 ex_id
    ∧ ¬ expiration_index_agrees w'.
Proof.
  destruct (addFileContract_overwrite_leaves_stale_marker ex_fc_stored_world
              {[ ex_id := Marshal (reflect_FileContract ex_fc) ]} ex_id ex_fc ex_fc')
    as (w' & Hrun & Hrec & Hnew & Hold & _ & Hbad).
  - compute_done.
  - compute_done.
  - exists {[ ex_id := [] ]}. split; compute_done.
  - compute_done.
  - split; [compute_done | unfold wf_uint64; cbn [WindowEnd ex_fc]; lia].
  - split; [compute_done | unfold wf_uint64; cbn [WindowEnd ex_fc']; lia].
  - cbn [WindowEnd ex_fc ex_fc']. lia.
  - exists w'. auto.
Defined.

Lemma addDSCO_guards_witness :
  addDSCO true 5 ex_id ex_sco ex_sco_world
  = (Panic (panic_string "dsco already in output set"), ex_sco_world)
  ∧ addDSCO false 5 ex_id' ex_sco ex_sco_world
    = (Panic nil_dereference, ex_sco_world).
Proof.
  destruct (addDSCO_guards ex_sco_world
              {[ ex_id := Marshal (reflect_SiacoinOutput ex_sco) ]} 5 ex_id ex_sco)
    as (Hrepeat & _ & _); [compute_done|].
  destruct (addDSCO_guards ex_sco_world
              {[ ex_id := Marshal (reflect_SiacoinOutput ex_sco) ]} 5 ex_id' ex_sco)
    as (_ & _ & Hnil); [compute_done|].
  split.
  - apply Hrepeat. compute_done.
  - apply Hnil; compute_done.
Defined.

Lemma ex_sco'_wf : wf_SiacoinOutput ex_sco'.
Proof. split; vm_compute; reflexivity. Qed.

Lemma ex_queue_bucket_wf : dsco_bucket_wf ex_queue_bucket.
Proof.
  intros k v Hkv. unfold ex_queue_bucket in Hkv.
  apply lookup_insert_Some in Hkv as [[<- <-]|[_ Hkv]];
    [split; [compute_done|]; exists ex_sco; split; [exact ex_sco_wf | reflexivity]|].
  apply lookup_insert_Some in Hkv as [[<- <-]|[_ Hkv]];
    [split; [compute_done|]; exists ex_sco'; split; [exact ex_sco'_wf | reflexivity]|].
  apply lookup_singleton_Some in Hkv as [<- <-].
  split; [compute_done|]. exists ex_sco. split; [exact ex_sco_wf | reflexivity].
Qed.

Lemma ex_visit_keeps_tx (id : Hash) (sco : SiacoinOutput) : keeps_tx (ex_visit id sco).
Proof. intros w. reflexivity. Qed.

Lemma ex_visit_until_keeps_tx (stop id : Hash) (sco : SiacoinOutput) :
  keeps_tx (ex_visit_until stop id sco).
Proof. intros w. reflexivity. Qed.

(** What the printing visitor leaves behind: a line for each id, in the
    order of the list. *)
Lemma visit_each_ex_visit (l : list (Hash * SiacoinOutput)) (w : World) :
  visit_each ex_visit l w
  = (Ok None, mkWorld (tx w) (stdout w ++ ((λ x, ("visit"%string, x.1)) <$> l))).
Proof.
  revert w. induction l as [|[id sco] l IH]; intros w.
  - cbn. rewrite app_nil_r. destruct w; reflexivity.
  - cbn [visit_each]. unfold ex_visit at 1, Println, bind, ret.
    rewrite IH. cbn [tx stdout fmap list_fmap fst]. rewrite <- app_assoc. reflexivity.
Qed.

Lemma forEachDSCO_visits_in_key_order_witness :
  ∃ l : list (Hash * SiacoinOutput),
    dsco_entry <$> l ≡ₚ map_to_list ex_queue_bucket
    ∧ StronglySorted key_le l
    ∧ NoDup l.*1
    ∧ l.*1 = [ex_id; ex_id'; ex_id3]
    ∧ forEachDSCO 5 ex_visit ex_queue_world = visit_each ex_visit l ex_queue_world
    ∧ visit_each ex_visit l ex_queue_world
      = (Ok None,
         mkWorld (tx ex_queue_world)
           [("visit"%string, ex_id); ("visit"%string, ex_id'); ("visit"%string, ex_id3)])
    ∧ forEachDSCO 5 (ex_visit_until ex_id') ex_queue_world
      = visit_each (ex_visit_until ex_id') l ex_queue_world
    ∧ visit_each (ex_visit_until ex_id') l ex_queue_world
      = (Ok (Some errDBInconsistent),
         mkWorld (tx ex_queue_world)
           [("visit"%string, ex_id); ("visit"%string, ex_id')]).
Proof.
  destruct (forEachDSCO_visits_in_key_order ex_queue_world ex_queue_bucket 5)
    as (l & Hperm & Hsorted & Hnodup & Hrun).
  - compute_done.
  - exact ex_queue_bucket_wf.
  - pose proof (Hrun ex_visit ex_visit_keeps_tx) as Hall.
    pose proof (Hrun (ex_visit_until ex_id') (ex_visit_until_keeps_tx ex_id')) as Hstop.
    assert (Hrun_all : forEachDSCO 5 ex_visit ex_queue_world
              = (Ok None,
                 mkWorld (tx ex_queue_world)
                   [("visit"%string, ex_id); ("visit"%string, ex_id');
                    ("visit"%string, ex_id3)])) by compute_done.
    assert (Hrun_stop : forEachDSCO 5 (ex_visit_until ex_id') ex_queue_world
              = (Ok (Some errDBInconsistent),
                 mkWorld (tx ex_queue_world)
                   [("visit"%string, ex_id); ("visit"%string, ex_id')])) by compute_done.
    exists l.
    split; [exact Hperm|]. split; [exact Hsorted|]. split; [exact Hnodup|].
    split.
    { pose proof Hall as Hlines. rewrite Hrun_all, visit_each_ex_visit in Hlines.
      injection Hlines as Hlines. cbn [stdout ex_queue_world app] in Hlines.
      apply (f_equal (fmap snd)) in Hlines.
      rewrite <- list_fmap_compose in Hlines. cbn in Hlines. symmetry. exact Hlines. }
    split; [exact Hall|]. split; [rewrite <- Hall; exact Hrun_all|].
    split; [exact Hstop|]. rewrite <- Hstop. exact Hrun_stop.
Defined.

Lemma ex_genesis_applied : applied_diffs (SiafundOutputDiffs ex_genesis).
Proof. apply ex_genesis_diffs_ok. Qed.

Lemma ex_genesis_fresh (out : list Line) :
  genesis_fresh (tx (empty_store out)) ex_id' (SiafundOutputDiffs ex_genesis).
Proof.
  split; [apply lookup_empty|]. split; [apply ex_genesis_diffs_ok|].
  intros d _. apply lookup_empty.
Qed.

Lemma initDB_makes_genesis_current_witness :
  ∃ cs' w',
    initDB true ex_Block_ID ex_MinerPayoutID ex_CalculateCoinbase
      ex_Marshal_processedBlock ex_consensusChecksum
      (mkConsensusSet ex_genesis) (empty_store [])
    = (Ok (cs', None), w')
    ∧ dbInitialized w' = (Ok true, w')
    ∧ currentBlockID true w' = (Ok ex_id, w')
    ∧ currentProcessedBlock true ex_Unmarshal_processedBlock w'
      = (Ok (Some (blockRoot cs')), w').
Proof.
  destruct (initDB_makes_genesis_current true Hash ex_Block_ID ex_MinerPayoutID
              ex_CalculateCoinbase ex_Marshal_processedBlock
              ex_Unmarshal_processedBlock ex_consensusChecksum
              (mkConsensusSet ex_genesis) (empty_store []))
    as (cs' & w' & Hrun & Hinit & Hcur & _ & Hpb).
  - compute_done.
  - compute_done.
  - exact ex_genesis_applied.
  - intros _. apply ex_genesis_fresh.
  - intros pb Hb Hd. apply ex_Unmarshal_Marshal; assumption.
  - exists cs', w'. auto.
Defined.

Lemma initDB_empty_store_contents_witness :
  ∃ cs' w',
    initDB true ex_Block_ID ex_MinerPayoutID ex_CalculateCoinbase
      ex_Marshal_processedBlock ex_consensusChecksum
      (mkConsensusSet ex_genesis) (empty_store [])
    = (Ok (cs', None), w')
    ∧ tx w' !! FileContracts = Some ∅
    ∧ tx w' !! prefix_dsco = None
    ∧ getFileContract ex_id w' = (Ok (zeroFileContract, Some errNilItem), w')
    ∧ getSiafundOutput true ex_id w'
      = (Ok (mkSiafundOutput 10000%N ZeroHash 0%N, None), w')
    ∧ getSiafundOutput true ex_id' w'
      = (Ok (zeroSiafundOutput, Some errNilItem), w').
Proof.
  destruct (initDB_empty_store_contents true Hash ex_Block_ID ex_MinerPayoutID
              ex_CalculateCoinbase ex_Marshal_processedBlock ex_consensusChecksum
              (mkConsensusSet ex_genesis) [])
    as (cs' & w' & Hrun & _ & Hnames & Hfc & _ & Hnone & Hin & Hout).
  - compute_done.
  - compute_done.
  - exact ex_genesis_diffs_ok.
  - exists cs', w'. split; [exact Hrun|]. split; [exact Hfc|].
    split; [|split; [apply Hnone|split]].
    + destruct (tx w' !! prefix_dsco) as [bk|] eqn:E; [|reflexivity].
      exfalso. assert (Hmem : prefix_dsco ∈ database_buckets) by (apply Hnames; eauto).
      revert Hmem. rewrite <- (app_nil_r prefix_dsco).
      apply dsco_notin_database_buckets.
    + apply (Hin (modules.mkSiafundOutputDiff modules.DiffApply ex_id
                    (mkSiafundOutput 10000%N ZeroHash 0%N))).
      * cbn. left.
      * exact ex_sfo_wf.
    + apply Hout. cbn. intros Hmem. apply list_elem_of_singleton in Hmem. discriminate.
Defined.

Lemma initDB_without_debug_resets_witness :
  ∃ w',
    initDB false ex_Block_ID ex_MinerPayoutID ex_CalculateCoinbase
      ex_Marshal_processedBlock ex_consensusChecksum
      (mkConsensusSet ex_block1) ex_chain_world
    = (Ok (mkConsensusSet ex_block1, None), w')
    ∧ blockHeight false w' = (Ok 0, w')
    ∧ getPath false 0 w' = (Ok ex_id', w')
    ∧ getSiafundPool false w' = (Ok 0%N, w').
Proof.
  destruct (initDB_without_debug_resets Hash ex_Block_ID ex_MinerPayoutID
              ex_CalculateCoinbase ex_Marshal_processedBlock ex_consensusChecksum
              (mkConsensusSet ex_block1) ex_chain_world)
    as (w' & Hrun & Hh & Hp & Hpool & _).
  - compute_done.
  - compute_done.
  - exact ex_genesis_applied.
  - exists w'. auto.
Defined.

Lemma initDB_checksum_precedes_second_put_witness :
  ∃ cs' w',
    initDB true ex_Block_ID ex_MinerPayoutID ex_CalculateCoinbase
      ex_Marshal_processedBlock ex_consensusChecksum
      (mkConsensusSet ex_genesis) (empty_store [])
    = (Ok (cs', None), w')
    ∧ block_record w' ex_id = Some (ex_Marshal_processedBlock (blockRoot cs'))
    ∧ ConsensusSetHash (blockRoot cs')
      = ex_consensusChecksum
          (<[BlockMap := {[ ex_id := ex_Marshal_processedBlock ex_genesis ]}]> (tx w')).
Proof.
  destruct (initDB_checksum_precedes_second_put true Hash ex_Block_ID ex_MinerPayoutID
              ex_CalculateCoinbase ex_Marshal_processedBlock ex_consensusChecksum
              (mkConsensusSet ex_genesis) (empty_store []))
    as (cs' & w' & Hrun & Hrec & _ & _ & Hsum & _).
  - compute_done.
  - compute_done.
  - exact ex_genesis_applied.
  - intros _. apply ex_genesis_fresh.
  - exists cs', w'. split; [exact Hrun|]. split; [exact Hrec|].
    rewrite (Hsum eq_refl). reflexivity.
Defined.

Lemma initDB_debug_fatal_when_initialised_witness :
  ∃ cs' w',
    initDB true ex_Block_ID ex_MinerPayoutID ex_CalculateCoinbase
      ex_Marshal_processedBlock ex_consensusChecksum
      (mkConsensusSet ex_genesis) (empty_store [])
    = (Ok (cs', None), w')
    ∧ fatal (initDB true ex_Block_ID ex_MinerPayoutID ex_CalculateCoinbase
               ex_Marshal_processedBlock ex_consensusChecksum
               (mkConsensusSet ex_genesis) w').
Proof.
  destruct (initDB_debug_fatal_when_initialised Hash ex_Block_ID ex_MinerPayoutID
              ex_CalculateCoinbase ex_Marshal_processedBlock ex_consensusChecksum
              (mkConsensusSet ex_genesis) (empty_store []))
    as (_ & Htwice).
  - compute_done.
  - compute_done.
  - exact ex_genesis_applied.
  - destruct Htwice as (cs' & w' & Hrun & Hf & _); [apply ex_genesis_fresh|].
    exists cs', w'. auto.
Defined.

Lemma bucket_names_distinct_witness :
  createDSCOBucket_bucketID 5 ≠ createDSCOBucket_bucketID 6
  ∧ createDSCOBucket_bucketID 5 ≠ expirationBucketID 5.
Proof.
  destruct (bucket_names_distinct 5 6) as (_ & Hinj & _ & _);
    [unfold wf_uint64; lia..|].
  destruct (bucket_names_distinct 5 5) as (_ & _ & _ & Hne & _);
    [unfold wf_uint64; lia..|].
  split; [|exact Hne].
  intros E. apply Hinj in E. lia.
Defined.

Lemma getItem_cases_witness :
  getItem true SiacoinOutputs (ByteArray ex_id) ex_sco_world
  = (Ok (Some (Marshal (reflect_SiacoinOutput ex_sco)), None), ex_sco_world)
  ∧ getItem true SiacoinOutputs (ByteArray ex_id') ex_sco_world
    = (Ok (None, Some errNilItem), ex_sco_world)
  ∧ getItem true SiafundOutputs (ByteArray ex_id) ex_sco_world
    = (Panic (panic_error errNilBucket), ex_sco_world)
  ∧ getItem false SiafundOutputs (ByteArray ex_id) ex_sco_world
    = (Panic nil_dereference, ex_sco_world).
Proof.
  destruct (getItem_cases true ex_sco_world SiacoinOutputs (ByteArray ex_id))
    as (Hfound & _ & _).
  destruct (getItem_cases true ex_sco_world SiacoinOutputs (ByteArray ex_id'))
    as (_ & Habsent & _).
  destruct (getItem_cases true ex_sco_world SiafundOutputs (ByteArray ex_id))
    as (_ & _ & Hnil).
  split; [|split].
  - apply (Hfound {[ ex_id := Marshal (reflect_SiacoinOutput ex_sco) ]}); compute_done.
  - apply (Habsent {[ ex_id := Marshal (reflect_SiacoinOutput ex_sco) ]}); compute_done.
  - apply Hnil. compute_done.
Defined.

Lemma typed_lookups_return_errors_witness :
  getSiacoinOutput ex_id ex_bad_world
  = (Ok (zeroSiacoinOutput, Some decodeError), ex_bad_world)
  ∧ getSiacoinOutput ex_id' ex_bad_world
    = (Ok (zeroSiacoinOutput, Some errNilItem), ex_bad_world).
Proof.
  destruct (typed_lookups_return_errors true ex_bad_world {[ ex_id := [x01] ]} ex_id)
    as ((_ & Hbad) & _); [compute_done|].
  destruct (typed_lookups_return_errors true ex_bad_world {[ ex_id := [x01] ]} ex_id')
    as ((Habsent & _) & _); [compute_done|].
  split.
  - apply (Hbad [x01]); [compute_done | reflexivity].
  - apply Habsent. compute_done.
Defined.

Lemma unwritten_cells_read_as_zero_witness :
  getSiafundPool true ex_pool_world
  = (Panic (panic_error decodeError), ex_pool_world)
  ∧ getSiafundPool false ex_pool_world = (Ok 0%N, ex_pool_world).
Proof.
  destruct (unwritten_cells_read_as_zero ex_pool_world ∅ 0) as (_ & _ & Hpool).
  apply Hpool; [compute_done | apply lookup_empty].
Defined.

Lemma dsco_bucket_lifecycle_witness :
  (∃ w1, createDSCOBucket true 5 ex_sco_empty_world = (Ok tt, w1)
         ∧ deleteDSCOBucket true 5 w1 = (Ok tt, ex_sco_empty_world))
  ∧ deleteDSCOBucket true 5 ex_sco_empty_world
    = (Panic (panic_error errNilBucket), ex_sco_empty_world)
  ∧ createDSCOBucket true 5 ex_dsco_world
    = (Panic (panic_error (boltError bolt.ErrBucketExists)), ex_dsco_world).
Proof.
  destruct (dsco_bucket_lifecycle ex_sco_empty_world 5) as (Hnew & _).
  destruct (dsco_bucket_lifecycle ex_dsco_world 5) as (_ & Hold).
  destruct Hnew as (Hcycle & Hnil & _); [compute_done|].
  destruct (Hcycle true) as (w1 & Hc & _ & Hd).
  destruct (Hold {[ ex_id := Marshal (reflect_SiacoinOutput ex_sco) ]})
    as (Hexists & _); [compute_done|].
  split; [exists w1; auto | auto].
Defined.

Lemma forEachDSCO_failures_witness :
  forEachDSCO 5 (λ _ _, ret None) ex_sco_empty_world
  = (Panic nil_dereference, ex_sco_empty_world)
  ∧ forEachDSCO 5 (λ _ _, ret None) ex_bad_dsco_world
    = (Ok (Some decodeError), ex_bad_dsco_world).
Proof.
  destruct (forEachDSCO_failures ex_sco_empty_world 5 (λ _ _, ret None))
    as (Hnil & _).
  destruct (forEachDSCO_failures ex_bad_dsco_world 5 (λ _ _, ret None))
    as (_ & _ & Hbad).
  split.
  - apply Hnil. compute_done.
  - apply (Hbad {[ ex_id := [x01] ]} ex_id [x01]).
    + compute_done.
    + compute_done.
    + right. reflexivity.
    + reflexivity.
Defined.

Lemma missing_bucket_is_fatal_witness :
  blockHeight true (empty_store []) = (Panic nil_dereference, empty_store [])
  ∧ addSiacoinOutput false ex_id ex_sco (empty_store [])
    = (Panic nil_dereference, empty_store [])
  ∧ dbInitialized (empty_store []) = (Ok false, empty_store []).
Proof.
  destruct (missing_bucket_is_fatal true Hash ex_Block_ID ex_Marshal_processedBlock
              ex_Unmarshal_processedBlock (empty_store []))
    as (Hheight & _ & _ & _ & _ & _ & Hpool & _).
  destruct (missing_bucket_is_fatal false Hash ex_Block_ID ex_Marshal_processedBlock
              ex_Unmarshal_processedBlock (empty_store []))
    as (_ & _ & _ & Hsco & _).
  split; [apply Hheight, lookup_empty|].
  split; [apply (Hsco (lookup_empty _) ex_id) | apply Hpool, lookup_empty].
Defined.
